(** * mic-analyzer: the capture, metrics and recording engine

    A shallow embedding of [js/analyzer.js] and [js/audio.js], and the
    properties of the metrics computation, the analysis loop, the codec
    negotiation and the recording lifecycle; then of what surrounds them:
    [initMic] and [cleanup], the event handlers and tips of [js/app.js],
    the drawing code of [js/ui.js] and [js/visualizer.js], and
    [js/storage.js] with [js/theme.js].

    JavaScript numbers are modelled by [jsnum]: the three non-finite
    values of IEEE 754 next to the finite ones, which are taken as real
    numbers (no rounding, no overflow, no signed zero).  For the windows the
    analyser delivers every intermediate value of the metrics loop is a
    dyadic rational of a few dozen bits, so only [Math.sqrt] and
    [Math.log10] are idealised by this choice. *)

From Stdlib Require Import String Ascii Strings.Byte.
From Stdlib Require Import Reals Lra Lia ZArith NArith Bool List.
Import ListNotations.

Set Implicit Arguments.

(* ================================================================= *)
(** ** JavaScript numbers *)

Module JsNum.

Local Open Scope R_scope.

Inductive jsnum : Type :=
| NaN
| NegInf
| PosInf
| Finite (x : R).

Definition Rltb (x y : R) : bool := if Rlt_dec x y then true else false.
Definition Reqb (x y : R) : bool := if Req_dec_T x y then true else false.

Definition of_N (n : N) : jsnum := Finite (IZR (Z.of_N n)).
Definition of_nat (n : nat) : jsnum := Finite (INR n).
Definition of_byte (b : byte) : jsnum := of_N (Byte.to_N b).

(** [a + b] *)
Definition jadd (a b : jsnum) : jsnum :=
  match a, b with
  | NaN, _ | _, NaN => NaN
  | PosInf, NegInf | NegInf, PosInf => NaN
  | PosInf, _ | _, PosInf => PosInf
  | NegInf, _ | _, NegInf => NegInf
  | Finite x, Finite y => Finite (x + y)
  end.

(** unary minus *)
Definition jneg (a : jsnum) : jsnum :=
  match a with
  | NaN => NaN
  | NegInf => PosInf
  | PosInf => NegInf
  | Finite x => Finite (- x)
  end.

(** [a - b] *)
Definition jsub (a b : jsnum) : jsnum := jadd a (jneg b).

(** The sign of an infinite product or quotient. *)
Definition signed_inf (positive : bool) : jsnum :=
  if positive then PosInf else NegInf.

(** [a * b] *)
Definition jmul (a b : jsnum) : jsnum :=
  match a, b with
  | NaN, _ | _, NaN => NaN
  | Finite x, Finite y => Finite (x * y)
  | PosInf, PosInf | NegInf, NegInf => PosInf
  | PosInf, NegInf | NegInf, PosInf => NegInf
  | Finite x, PosInf | PosInf, Finite x =>
      if Reqb x 0 then NaN else signed_inf (Rltb 0 x)
  | Finite x, NegInf | NegInf, Finite x =>
      if Reqb x 0 then NaN else signed_inf (Rltb x 0)
  end.

(** [a / b] *)
Definition jdiv (a b : jsnum) : jsnum :=
  match a, b with
  | NaN, _ | _, NaN => NaN
  | Finite x, Finite y =>
      if Reqb y 0
      then (if Reqb x 0 then NaN else signed_inf (Rltb 0 x))
      else Finite (x / y)
  | Finite _, (PosInf | NegInf) => Finite 0
  | PosInf, Finite y => signed_inf (negb (Rltb y 0))
  | NegInf, Finite y => signed_inf (Rltb y 0)
  | (PosInf | NegInf), (PosInf | NegInf) => NaN
  end.

(** [a < b]; every comparison with NaN is false. *)
Definition jlt (a b : jsnum) : bool :=
  match a, b with
  | NaN, _ | _, NaN => false
  | _, NegInf => false
  | NegInf, _ => true
  | PosInf, _ => false
  | Finite _, PosInf => true
  | Finite x, Finite y => Rltb x y
  end.

(** [a > b] *)
Definition jgt (a b : jsnum) : bool := jlt b a.

(** [Math.abs] *)
Definition jabs (a : jsnum) : jsnum :=
  match a with
  | NaN => NaN
  | NegInf | PosInf => PosInf
  | Finite x => Finite (Rabs x)
  end.

(** [Math.max] of two arguments: NaN if either is NaN. *)
Definition jmax (a b : jsnum) : jsnum :=
  match a, b with
  | NaN, _ | _, NaN => NaN
  | PosInf, _ | _, PosInf => PosInf
  | NegInf, c | c, NegInf => c
  | Finite x, Finite y => Finite (Rmax x y)
  end.

(** [Math.sqrt] *)
Definition jsqrt (a : jsnum) : jsnum :=
  match a with
  | NaN | NegInf => NaN
  | PosInf => PosInf
  | Finite x => if Rltb x 0 then NaN else Finite (sqrt x)
  end.

Definition log10 (x : R) : R := ln x / ln 10.

(** [Math.log10] *)
Definition jlog10 (a : jsnum) : jsnum :=
  match a with
  | NaN | NegInf => NaN
  | PosInf => PosInf
  | Finite x =>
      if Rltb x 0 then NaN
      else if Reqb x 0 then NegInf
      else Finite (log10 x)
  end.

(** The global [isFinite] on a number. *)
Definition isFinite (a : jsnum) : bool :=
  match a with
  | Finite _ => true
  | _ => false
  end.

(** The order of the finite and infinite values; NaN is unordered. *)
Definition jle (a b : jsnum) : Prop :=
  match a, b with
  | NaN, _ | _, NaN => False
  | NegInf, _ => True
  | _, PosInf => True
  | _, NegInf => False
  | PosInf, _ => False
  | Finite x, Finite y => x <= y
  end.

End JsNum.

Import JsNum.

(* ================================================================= *)
(** ** Host objects shared by both modules *)

(** A [Uint8Array]. *)
Definition Uint8Array := list byte.

(** [new Uint8Array(n)]: [n] zero bytes. *)
Definition new_Uint8Array (n : nat) : Uint8Array := repeat x00 n.

(** The [AnalyserNode] of the Web Audio API, as far as the code reads it.
    [frequencyBinCount] is the read-only half of [fftSize]. *)
Record AnalyserNode : Type := mkAnalyser { fftSize : nat }.

Definition frequencyBinCount (a : AnalyserNode) : nat := Nat.div2 (fftSize a).

(** [getByteTimeDomainData(array)] and [getByteFrequencyData(array)]: the
    node copies its current data into the caller's array; data beyond the
    array's length is dropped and elements beyond the data are left as
    they are.  The array keeps its length. *)
Definition copy_into (data array : Uint8Array) : Uint8Array :=
  firstn (length array) data ++ skipn (length data) array.

(** What the analyser holds at one scheduling opportunity. *)
Record Signal : Type := mkSignal {
  timeDomain : Uint8Array;
  frequencyDomain : Uint8Array
}.

(** A [Blob]: its bytes and its [type]. *)
Record Blob : Type := mkBlob {
  blobData : list byte;
  blobType : string
}.

Definition blobSize (b : Blob) : nat := length (blobData b).

(** [new Blob(parts, { type })] concatenates the parts in order. *)
Definition new_Blob (parts : list Blob) (type : string) : Blob :=
  mkBlob (concat (map blobData parts)) type.

(** The chunks a data handler keeps: those of positive size. *)
Definition keptChunks (chunks : list Blob) : list Blob :=
  filter (fun d => (0 <? blobSize d)%nat) chunks.

(** A chunk buffer none of whose chunks is empty. *)
Definition nonEmptyChunks (chunks : list Blob) : Prop :=
  Forall (fun c => (0 < blobSize c)%nat) chunks.

(** A blob assembled from at least one chunk, none of them empty. *)
Definition assembledFromNonEmpty (b : Blob) : Prop :=
  exists (chunks : list Blob) (type : string),
    chunks <> [] /\ nonEmptyChunks chunks /\ b = new_Blob chunks type.

(** [s || fallback] on strings: the empty string is falsy. *)
Definition str_or (s fallback : string) : string :=
  match s with
  | EmptyString => fallback
  | _ => s
  end.

(* ================================================================= *)
(** ** js/analyzer.js *)

Module Analyzer.

(** *** Module scope variables and constants *)

Definition silenceThreshold : jsnum := Finite (-50).
Definition FFT_SIZE : nat := 2048.

(** The value shown in place of a non-finite level. *)
Definition floorValue : jsnum := Finite (-100).

(** *** The metrics of one tick ([processAudioLoop], "Calculate Metrics") *)

Record Metrics : Type := mkMetrics {
  peakVolume : jsnum;
  rmsVolume : jsnum;
  clipping : bool;
  isSilent : bool;
  noiseLevel : jsnum;
  dcOffset : jsnum
}.

(** The four variables the [for] loop updates. *)
Record Accum : Type := mkAccum {
  peakLinear : jsnum;
  sumSquares : jsnum;
  sumValues : jsnum;
  clippingFlag : bool
}.

Definition accum0 : Accum := mkAccum (Finite 0) (Finite 0) (Finite 0) false.

(** [(valueByte / 128.0) - 1.0] *)
Definition valueFloat (valueByte : byte) : jsnum :=
  jsub (jdiv (of_byte valueByte) (Finite 128)) (Finite 1).

(** [valueByte >= 254 || valueByte <= 1] *)
Definition nearExtreme (valueByte : byte) : bool :=
  (254 <=? Byte.to_N valueByte)%N || (Byte.to_N valueByte <=? 1)%N.

(** One iteration of the loop over [timeDataArray]. *)
Definition loopBody (a : Accum) (valueByte : byte) : Accum :=
  let v := valueFloat valueByte in
  mkAccum (jmax (peakLinear a) (jabs v))
          (jadd (sumSquares a) (jmul v v))
          (jadd (sumValues a) v)
          (if nearExtreme valueByte then true else clippingFlag a).

Definition accumulate (timeDataArray : Uint8Array) : Accum :=
  fold_left loopBody timeDataArray accum0.

(** [x > 0 ? 20 * Math.log10(x) : -Infinity] *)
Definition toDBFS (x : jsnum) : jsnum :=
  if jgt x (Finite 0) then jmul (Finite 20) (jlog10 x) else NegInf.

(** [isFinite(x) ? x : -100.0] *)
Definition forDisplay (x : jsnum) : jsnum :=
  if isFinite x then x else floorValue.

Definition rmsLinearOf (timeDataArray : Uint8Array) : jsnum :=
  jsqrt (jdiv (sumSquares (accumulate timeDataArray))
              (of_nat (length timeDataArray))).

Definition rmsDBFS (timeDataArray : Uint8Array) : jsnum :=
  toDBFS (rmsLinearOf timeDataArray).

Definition peakDBFS (timeDataArray : Uint8Array) : jsnum :=
  toDBFS (peakLinear (accumulate timeDataArray)).

(** The noise level after a tick: a peak hold over the silent ticks. *)
Definition updateNoiseLevel (lastNoiseLevel rms : jsnum) : jsnum :=
  if jlt rms silenceThreshold then jmax lastNoiseLevel rms else lastNoiseLevel.

(** The metrics part of one tick: the new value of [lastNoiseLevel] and
    the object handed to [onMetricsUpdate]. *)
Definition calculateMetrics (lastNoiseLevel : jsnum) (timeDataArray : Uint8Array)
  : jsnum * Metrics :=
  let a := accumulate timeDataArray in
  let rmsLinear := jsqrt (jdiv (sumSquares a) (of_nat (length timeDataArray))) in
  let dc := jdiv (sumValues a) (of_nat (length timeDataArray)) in
  let peakDb := toDBFS (peakLinear a) in
  let rmsDb := toDBFS rmsLinear in
  let silent := jlt rmsDb silenceThreshold in
  let lastNoiseLevel' :=
    if silent then jmax lastNoiseLevel rmsDb else lastNoiseLevel in
  (lastNoiseLevel',
   mkMetrics (forDisplay peakDb) (forDisplay rmsDb) (clippingFlag a) silent
             (forDisplay lastNoiseLevel') dc).

(** The noise level over a run of ticks, from the [-Infinity] that
    [startAnalysis] sets. *)
Definition noiseLevelAfter (windows : list Uint8Array) : jsnum :=
  fold_left (fun last w => fst (calculateMetrics last w)) windows NegInf.

(** *** The metrics as the specification words them *)

Section SpecMetrics.
Local Open Scope R_scope.

Definition normalized (b : byte) : R := IZR (Z.of_N (Byte.to_N b)) / 128 - 1.

Definition Rsum (l : list R) : R := fold_right Rplus 0 l.
Definition Rmaximum (l : list R) : R := fold_right Rmax 0 l.

(** [mean] of a list of numbers, as a JavaScript quotient. *)
Definition mean (l : list R) : jsnum :=
  jdiv (Finite (Rsum l)) (of_nat (length l)).

(** [|v|] and [v^2] over the window. *)
Definition absolutes (w : Uint8Array) : list R :=
  map (fun b => Rabs (normalized b)) w.
Definition squares (w : Uint8Array) : list R :=
  map (fun b => normalized b * normalized b) w.

Definition spec_peakLinear (w : Uint8Array) : jsnum :=
  Finite (Rmaximum (absolutes w)).

Definition spec_rmsLinear (w : Uint8Array) : jsnum :=
  jsqrt (mean (squares w)).

Definition spec_dcOffset (w : Uint8Array) : jsnum :=
  mean (map normalized w).

(** [dB(x) = 20*log10(x)] if [x > 0], else the floor value. *)
Definition spec_dB (x : jsnum) : jsnum :=
  if jgt x (Finite 0) then jmul (Finite 20) (jlog10 x) else floorValue.

(** Any non-finite value is floored to the minimum. *)
Definition spec_floor (x : jsnum) : jsnum :=
  if isFinite x then x else floorValue.

End SpecMetrics.

(** *** The analysis loop ([startAnalysis], [processAudioLoop],
        [stopAnalysis], [cleanup]) *)

Inductive ContextState : Type := Suspended | Running | Closed.

(** A subscriber is code of the caller.  Besides consuming its arguments
    it may, before it returns, call back into [window.MicAnalyzer], any
    number of times and in any order, or throw.  The calls that reach the
    variables of the loop before the subscriber returns are
    [stopAnalysis], [startAnalysis] and [cleanup]; [initMic] changes them
    when [getUserMedia] has settled, after the tick.  A subscriber is
    taken to react by its arguments; the subscribers it registers by
    [startAnalysis] are part of its reaction, so that a run of any length
    is covered by subscribers nested as deep. *)
#[warnings="-register-all"]
Inductive Reaction : Type :=
| Passive
| CallsStopAnalysis
| CallsStartAnalysis (onMetrics : option (Metrics -> Reaction))
                     (onVisualization : option (Uint8Array -> Uint8Array -> Reaction))
| CallsCleanup
| Throws
| Then (first next : Reaction).

(** A callback argument: [None] when [typeof] is not ['function']. *)
Definition MetricsCallback := option (Metrics -> Reaction).
Definition VisualizationCallback := option (Uint8Array -> Uint8Array -> Reaction).

(** What a tick hands to the subscribers. *)
Inductive Published : Type :=
| MetricsUpdate (m : Metrics)
| VisualizationUpdate (timeData frequencyData : Uint8Array).

(** The variables one call of [startAnalysis] declares and its
    [processAudioLoop] closes over. *)
Record Closure : Type := mkClosure {
  onMetricsUpdate : MetricsCallback;
  onVisualizationUpdate : VisualizationCallback;
  timeDataArray : Uint8Array;
  frequencyDataArray : Uint8Array;
  lastNoiseLevel : jsnum
}.

(** The host's animation frame callbacks, by handle.  Every callback this
    module registers is the [processAudioLoop] of some call of
    [startAnalysis]; it is held with the variables it closes over, which
    nothing else refers to.  [frameBatch] holds the callbacks of the
    frame being run that have not run yet; [cancelAnimationFrame] reaches
    them too. *)
Record FrameQueue : Type := mkQueue {
  frameCallbacks : list (nat * Closure);
  frameBatch : list (nat * Closure);
  nextHandle : nat
}.

(** The module variables of the loop, the host's queue, and the number
    of calls of [audioContext.close()] that have not settled. *)
Record State : Type := mkState {
  audioContext : option ContextState;
  analyserNode : option AnalyserNode;
  animationFrameId : option nat;
  queue : FrameQueue;
  closesPending : nat
}.

Definition set_animationFrameId (id : option nat) (st : State) : State :=
  mkState (audioContext st) (analyserNode st) id (queue st) (closesPending st).

Definition set_queue (q : FrameQueue) (st : State) : State :=
  mkState (audioContext st) (analyserNode st) (animationFrameId st) q (closesPending st).

Definition set_audioContext (c : option ContextState) (st : State) : State :=
  mkState c (analyserNode st) (animationFrameId st) (queue st) (closesPending st).

Definition set_analyserNode (n : option AnalyserNode) (st : State) : State :=
  mkState (audioContext st) n (animationFrameId st) (queue st) (closesPending st).

(** [requestAnimationFrame(processAudioLoop)], for the [processAudioLoop]
    over [c]: the new handle and the queue with the callback appended. *)
Definition requestAnimationFrame (c : Closure) (q : FrameQueue) : nat * FrameQueue :=
  (nextHandle q,
   mkQueue (frameCallbacks q ++ [(nextHandle q, c)]) (frameBatch q) (S (nextHandle q))).

Definition withoutHandle (id : nat) (l : list (nat * Closure)) : list (nat * Closure) :=
  filter (fun e => negb (fst e =? id)%nat) l.

Definition cancelAnimationFrame (id : nat) (q : FrameQueue) : FrameQueue :=
  mkQueue (withoutHandle id (frameCallbacks q))
          (withoutHandle id (frameBatch q))
          (nextHandle q).

(** [animationFrameId = requestAnimationFrame(processAudioLoop)] *)
Definition scheduleLoop (c : Closure) (st : State) : State :=
  let (id, q) := requestAnimationFrame c (queue st) in
  set_animationFrameId (Some id) (set_queue q st).

(** The truth value of [animationFrameId] in a condition. *)
Definition truthy (id : option nat) : bool :=
  match id with
  | Some (S _) => true
  | _ => false
  end.

Definition stopAnalysis (st : State) : State :=
  match animationFrameId st with
  | Some (S _ as id) =>
      set_animationFrameId None (set_queue (cancelAnimationFrame id (queue st)) st)
  | _ => st
  end.

Definition startAnalysis (onMetrics : MetricsCallback)
    (onVisualization : VisualizationCallback) (st : State) : State :=
  match analyserNode st, audioContext st with
  | Some node, Some ctx =>
      match ctx with
      | Closed => st
      | _ =>
          if truthy (animationFrameId st) then st
          else
            let st1 := match ctx with
                       | Suspended => set_audioContext (Some Running) st
                       | _ => st
                       end in
            let c := mkClosure onMetrics onVisualization
                               (new_Uint8Array (fftSize node))
                               (new_Uint8Array (frequencyBinCount node))
                               NegInf in
            scheduleLoop c st1
      end
  | _, _ => st
  end.

(** [cleanup] up to its [await], on the variables of the loop: the loop
    is stopped, the analyser dropped, and [close()] called on a context
    that is not closed. *)
Definition cleanup (st : State) : State :=
  let st1 := set_analyserNode None (stopAnalysis st) in
  match audioContext st1 with
  | Some Closed | None => st1
  | Some _ =>
      mkState (audioContext st1) (analyserNode st1) (animationFrameId st1) (queue st1)
              (S (closesPending st1))
  end.

(** What the calls of a subscriber do to the module, and whether the
    subscriber returns ([true]) or throws. *)
Fixpoint react (r : Reaction) (st : State) : State * bool :=
  match r with
  | Passive => (st, true)
  | CallsStopAnalysis => (stopAnalysis st, true)
  | CallsStartAnalysis m v => (startAnalysis m v st, true)
  | CallsCleanup => (cleanup st, true)
  | Throws => (st, false)
  | Then first next =>
      let (st1, returned) := react first st in
      if returned then react next st1 else (st1, false)
  end.

(** One run of the [processAudioLoop] over [c], with the signal the
    analyser holds.  An exception of a subscriber leaves the function. *)
Definition processAudioLoop (c : Closure) (sig : Signal) (st : State)
  : State * list Published :=
  match analyserNode st with
  | None => (stopAnalysis st, [])
  | Some _ =>
      let timeData := copy_into (timeDomain sig) (timeDataArray c) in
      let frequencyData := copy_into (frequencyDomain sig) (frequencyDataArray c) in
      let (noise, metrics) := calculateMetrics (lastNoiseLevel c) timeData in
      let c' := mkClosure (onMetricsUpdate c) (onVisualizationUpdate c)
                          timeData frequencyData noise in
      let '(st1, returned1, out1) :=
        match onMetricsUpdate c with
        | Some f =>
            let (st', returned) := react (f metrics) st in
            (st', returned, [MetricsUpdate metrics])
        | None => (st, true, [])
        end in
      if returned1 then
        let '(st2, returned2, out2) :=
          match onVisualizationUpdate c with
          | Some f =>
              let (st', returned) := react (f timeData frequencyData) st1 in
              (st', returned, [VisualizationUpdate timeData frequencyData])
          | None => (st1, true, [])
          end in
        if returned2 then (scheduleLoop c' st2, out1 ++ out2)
        else (st2, out1 ++ out2)
      else (st1, out1)
  end.

(** One scheduling opportunity: the host runs the callbacks registered
    before the frame, in order, skipping those cancelled meanwhile;
    callbacks registered during the frame wait for the next one.  The
    analyser's data is taken as the same for every callback of a frame. *)
Definition callbackOf (id : nat) (l : list (nat * Closure)) : option Closure :=
  option_map snd (find (fun e => (fst e =? id)%nat) l).

Definition runCallback (sig : Signal) (acc : State * list Published) (id : nat)
  : State * list Published :=
  let (st, out) := acc in
  let q := queue st in
  match callbackOf id (frameBatch q) with
  | Some c =>
      let st' := set_queue (mkQueue (frameCallbacks q)
                                    (withoutHandle id (frameBatch q))
                                    (nextHandle q)) st in
      let (st'', out') := processAudioLoop c sig st' in
      (st'', out ++ out')
  | None => acc
  end.

Definition runFrame (sig : Signal) (st : State) : State * list Published :=
  let q := queue st in
  let batch := frameCallbacks q in
  fold_left (runCallback sig) (map fst batch)
            (set_queue (mkQueue [] batch (nextHandle q)) st, []).

(** What can happen to the loop, seen from outside. *)
Inductive LoopEvent : Type :=
| CallStartAnalysis (onMetrics : MetricsCallback) (onVisualization : VisualizationCallback)
| CallStopAnalysis
| AnimationFrame (sig : Signal).

Definition loopStep (st : State) (e : LoopEvent) : State * list Published :=
  match e with
  | CallStartAnalysis m v => (startAnalysis m v st, [])
  | CallStopAnalysis => (stopAnalysis st, [])
  | AnimationFrame sig => runFrame sig st
  end.

Fixpoint loopRun (st : State) (es : list LoopEvent) : State * list Published :=
  match es with
  | [] => (st, [])
  | e :: es' =>
      let (st1, out1) := loopStep st e in
      let (st2, out2) := loopRun st1 es' in
      (st2, out1 ++ out2)
  end.

(** The module after a successful [initMic]: context and analyser exist,
    no loop is scheduled.  The host hands out handles from 1. *)
Definition afterInitMic (ctx : ContextState) : State :=
  mkState (Some ctx) (Some (mkAnalyser FFT_SIZE)) None (mkQueue [] [] 1) 0.

(** The arrays of a closure have the lengths [startAnalysis] gives them
    for a node of [FFT_SIZE]. *)
Definition sizedClosure (c : Closure) : Prop :=
  length (timeDataArray c) = FFT_SIZE /\
  length (frequencyDataArray c) = Nat.div2 FFT_SIZE.

(** Every callback the host holds is over arrays of these lengths, and
    the analyser has the size [initMic] sets. *)
Definition sized (st : State) : Prop :=
  Forall (fun e => sizedClosure (snd e))
         (frameCallbacks (queue st) ++ frameBatch (queue st))
  /\ (forall node, analyserNode st = Some node -> fftSize node = FFT_SIZE).

(** What a subscriber receives comes from a window of the full size: the
    metrics are those of a time-domain array of [FFT_SIZE] bytes, the
    visualization gets an array of that size and a frequency array of
    half the size. *)
Definition fromFullWindow (p : Published) : Prop :=
  match p with
  | MetricsUpdate m =>
      exists (last : jsnum) (w : Uint8Array),
        length w = FFT_SIZE /\ m = snd (calculateMetrics last w)
  | VisualizationUpdate t f =>
      length t = FFT_SIZE /\ length f = Nat.div2 FFT_SIZE
  end.

(** What one tick hands out for the time-domain array [w] and the
    frequency array [f]: the metrics of [w] to the metrics subscriber, if
    there is one, and then [w] and [f] themselves to the visualization
    subscriber, if there is one and it is reached. *)
Definition tickOutput (last : jsnum) (w f : Uint8Array)
    (toMetrics toVisualization : bool) : list Published :=
  (if toMetrics then [MetricsUpdate (snd (calculateMetrics last w))] else [])
  ++ (if toVisualization then [VisualizationUpdate w f] else []).

(** The output of a frame is that of a sequence of ticks, each on the
    analyser's data copied into arrays of the full sizes. *)
Inductive ticksOf (sig : Signal) : list Published -> Prop :=
| ticks_done : ticksOf sig []
| ticks_next (last : jsnum) (t f : Uint8Array) (toMetrics toVisualization : bool)
             (rest : list Published) :
    length t = FFT_SIZE ->
    length f = Nat.div2 FFT_SIZE ->
    ticksOf sig rest ->
    ticksOf sig (tickOutput last (copy_into (timeDomain sig) t)
                            (copy_into (frequencyDomain sig) f)
                            toMetrics toVisualization ++ rest).

(** The output of a run: nothing for the calls, ticks for the frames. *)
Inductive windowsOf : list LoopEvent -> list Published -> Prop :=
| windows_done : windowsOf [] []
| windows_start (m : MetricsCallback) (v : VisualizationCallback)
                (es : list LoopEvent) (out : list Published) :
    windowsOf es out -> windowsOf (CallStartAnalysis m v :: es) out
| windows_stop (es : list LoopEvent) (out : list Published) :
    windowsOf es out -> windowsOf (CallStopAnalysis :: es) out
| windows_frame (sig : Signal) (ticks : list Published)
                (es : list LoopEvent) (out : list Published) :
    ticksOf sig ticks -> windowsOf es out ->
    windowsOf (AnimationFrame sig :: es) (ticks ++ out).

(** Whether a reaction calls [startAnalysis], and whether it returns. *)
Fixpoint restarts (r : Reaction) : bool :=
  match r with
  | CallsStartAnalysis _ _ => true
  | Then first next => restarts first || restarts next
  | _ => false
  end.

Fixpoint returns (r : Reaction) : bool :=
  match r with
  | Throws => false
  | Then first next => returns first && returns next
  | _ => true
  end.

(** Subscribers that never call [startAnalysis] from inside a tick. *)
Definition quietMetrics (m : MetricsCallback) : Prop :=
  match m with
  | Some f => forall metrics, restarts (f metrics) = false
  | None => True
  end.

Definition quietVisualization (v : VisualizationCallback) : Prop :=
  match v with
  | Some f => forall t fr, restarts (f t fr) = false
  | None => True
  end.

Definition quietClosure (c : Closure) : Prop :=
  quietMetrics (onMetricsUpdate c) /\ quietVisualization (onVisualizationUpdate c).

(** The state between two events of a run whose subscribers never call
    [startAnalysis]: no frame is being run, and the one callback that may
    be scheduled is the one [animationFrameId] names. *)
Definition betweenEvents (st : State) : Prop :=
  frameBatch (queue st) = [] /\
  (1 <= nextHandle (queue st))%nat /\
  animationFrameId st <> Some 0 /\
  (frameCallbacks (queue st) = [] \/
   (exists id c, animationFrameId st = Some (S id) /\
                 frameCallbacks (queue st) = [(S id, c)] /\ quietClosure c)).

(** The subscribers a call registers never call [startAnalysis] from
    inside a tick. *)
Definition quietLoopEvent (e : LoopEvent) : Prop :=
  match e with
  | CallStartAnalysis m v => quietMetrics m /\ quietVisualization v
  | _ => True
  end.

(** *** Recording ([startRecording], [stopRecording],
        [setupMediaRecorderListeners]) *)

(** [MediaRecorder.state]; the module never pauses a recorder. *)
Inductive RecorderState : Type := Inactive | Recording.

(** A callback argument: [Some h] is the function [h], [None] anything
    that is not a function. *)
Definition Callback := option nat.

Record MediaRecorder : Type := mkRecorder {
  recorderState : RecorderState;
  mimeType : string;
  _onRecordingStopCallback : Callback;
  _onErrorCallback : Callback
}.

(** The module variables of the recording part.  A pending
    [recordingTimerId] carries the two callbacks its closure holds. *)
Record RecordingVars : Type := mkRecording {
  mediaRecorder : option MediaRecorder;
  recordedChunks : list Blob;
  recordingTimerId : option (Callback * Callback)
}.

(** A call of one of the caller's callbacks.  The object URL handed to
    [onRecordingStop] is modelled by the blob it names. *)
Inductive Called : Type :=
| Invoke (h : nat)
| InvokeWithUrl (h : nat) (blob : Blob)
| InvokeWithError (h : nat) (message : string).

Definition callWithError (cb : Callback) (message : string) : list Called :=
  match cb with
  | Some h => [InvokeWithError h message]
  | None => []
  end.

Definition callWithUrl (cb : Callback) (blob : Blob) : list Called :=
  match cb with
  | Some h => [InvokeWithUrl h blob]
  | None => []
  end.

Definition call0 (cb : Callback) : list Called :=
  match cb with
  | Some h => [Invoke h]
  | None => []
  end.

Definition startRecording (onRecordingStart onRecordingStop onError : Callback)
    (st : RecordingVars) : RecordingVars * list Called :=
  match mediaRecorder st with
  | None => (st, callWithError onError "RecordingNotSupported")
  | Some r =>
      match recorderState r with
      | Recording => (st, [])
      | Inactive =>
          let r' := mkRecorder Recording (mimeType r)
                               (_onRecordingStopCallback r) (_onErrorCallback r) in
          (mkRecording (Some r') [] (Some (onRecordingStop, onError)),
           call0 onRecordingStart)
      end
  end.

Definition stopRecording (onRecordingStop onError : Callback) (st : RecordingVars)
  : RecordingVars :=
  match mediaRecorder st with
  | None => mkRecording None (recordedChunks st) None
  | Some r =>
      match recorderState r with
      | Inactive => mkRecording (Some r) (recordedChunks st) None
      | Recording =>
          mkRecording (Some (mkRecorder Inactive (mimeType r) onRecordingStop onError))
                      (recordedChunks st) (recordingTimerId st)
      end
  end.

(** [recorder.ondataavailable] *)
Definition ondataavailable (data : Blob) (st : RecordingVars) : RecordingVars :=
  if (0 <? blobSize data)%nat
  then mkRecording (mediaRecorder st) (recordedChunks st ++ [data]) (recordingTimerId st)
  else st.

Definition clearCallbacks (r : MediaRecorder) : MediaRecorder :=
  mkRecorder (recorderState r) (mimeType r) None None.

(** [recorder.onstop], on the recorder the listeners were set up for. *)
Definition onstop (r : MediaRecorder) (st : RecordingVars) : RecordingVars * list Called :=
  match recordedChunks st with
  | [] =>
      (mkRecording (Some (clearCallbacks r)) [] None,
       callWithError (_onErrorCallback r) "NoDataRecorded")
  | chunks =>
      let blob := new_Blob chunks (str_or (mimeType r) "audio/webm") in
      (mkRecording (Some (clearCallbacks r)) [] None,
       callWithUrl (_onRecordingStopCallback r) blob)
  end.

(** [recorder.onerror]; [name] and [message] are those of [event.error]. *)
Definition onerror (name message : string) (r : MediaRecorder) (st : RecordingVars)
  : RecordingVars * list Called :=
  (mkRecording (Some (clearCallbacks r)) (recordedChunks st) None,
   callWithError (_onErrorCallback r)
     ("RecorderError: " ++ str_or name (str_or message "Unknown error"))).

(** A recording that fails: the host sets the recorder inactive before it
    fires the [error] event. *)
Definition inactive (r : MediaRecorder) : MediaRecorder :=
  mkRecorder Inactive (mimeType r) (_onRecordingStopCallback r) (_onErrorCallback r).

(** What can happen to the recording part: calls of the public functions,
    the recorder's events and the timer.  [Stopped] is the [stop] event
    reaching its handler, which leaves the recorder's state as it is: the
    state was set when the recording was ended, by [stop()] in
    [stopRecording] or at the failure, and a [startRecording] since then
    has set it again. *)
Inductive RecEvent : Type :=
| CallStartRecording (onRecordingStart onRecordingStop onError : Callback)
| CallStopRecording (onRecordingStop onError : Callback)
| DataAvailable (data : Blob)
| Stopped
| Failed (name message : string)
| TimerFires.

Definition recStep (st : RecordingVars) (e : RecEvent) : RecordingVars * list Called :=
  match e with
  | CallStartRecording a b c => startRecording a b c st
  | CallStopRecording a b => (stopRecording a b st, [])
  | DataAvailable d => (ondataavailable d st, [])
  | Stopped =>
      match mediaRecorder st with
      | Some r => onstop r st
      | None => (st, [])
      end
  | Failed n m =>
      match mediaRecorder st with
      | Some r => onerror n m (inactive r) st
      | None => (st, [])
      end
  | TimerFires =>
      match recordingTimerId st with
      | Some (a, b) =>
          (stopRecording a b
             (mkRecording (mediaRecorder st) (recordedChunks st) None), [])
      | None => (st, [])
      end
  end.

Fixpoint recRun (st : RecordingVars) (es : list RecEvent) : RecordingVars * list Called :=
  match es with
  | [] => (st, [])
  | e :: es' =>
      let (st1, out1) := recStep st e in
      let (st2, out2) := recRun st1 es' in
      (st2, out1 ++ out2)
  end.

(** The recording part after [initMic] on a host that supports
    ['audio/webm']. *)
Definition recorderReady (mime : string) : RecordingVars :=
  mkRecording (Some (mkRecorder Inactive mime None None)) [] None.

(** A whole recording: the start, the chunks delivered while recording,
    the stop request, the chunks delivered after it, and the recorder's
    stop event. *)
Definition recordingSession (onRecordingStart onRecordingStop onError : Callback)
    (before after : list Blob) : list RecEvent :=
  CallStartRecording onRecordingStart onRecordingStop onError
    :: map DataAvailable before
    ++ CallStopRecording onRecordingStop onError
    :: map DataAvailable after
    ++ [Stopped].

(** The blobs whose URLs were handed to [onRecordingStop]. *)
Definition artifacts (out : list Called) : list Blob :=
  flat_map (fun c => match c with InvokeWithUrl _ b => [b] | _ => [] end) out.

End Analyzer.

(* ================================================================= *)
(** ** js/audio.js (with the loop of js/main.js and js/visualizer.js) *)

Module Audio.

(** [FFT_SIZE] of js/config.js. *)
Definition FFT_SIZE : nat := 2048.

(** *** Monitoring *)

(** The module variables [startMonitoring] and [stopMonitoring] set. *)
Record Monitoring : Type := mkMonitoring {
  isMonitoring : bool;
  mediaStreamOpen : bool;
  analyserNode : option AnalyserNode;
  timeDomainData : option Uint8Array;
  frequencyData : option Uint8Array
}.

Definition notMonitoring : Monitoring := mkMonitoring false false None None None.

(** [stopMonitoring]: nothing to do when neither monitoring nor holding a
    stream; otherwise every variable is reset. *)
Definition stopMonitoring (st : Monitoring) : Monitoring :=
  if negb (isMonitoring st) && negb (mediaStreamOpen st) then st
  else notMonitoring.

(** [startMonitoring]; [granted] tells whether [getUserMedia] resolved.
    When it rejects, the [catch] branch runs [stopMonitoring]. *)
Definition startMonitoring (granted : bool) (st : Monitoring) : Monitoring :=
  if isMonitoring st then st
  else if granted then
    let node := mkAnalyser FFT_SIZE in
    mkMonitoring true true (Some node)
                 (Some (new_Uint8Array (frequencyBinCount node)))
                 (Some (new_Uint8Array (frequencyBinCount node)))
  else stopMonitoring st.

(** [draw] of js/visualizer.js up to the two drawing calls: the arrays
    the waveform and the spectrum are drawn from, and the buffer length
    both loops run to. *)
Definition draw (sig : Signal) (node : AnalyserNode)
    (timeData frequencyData_ : Uint8Array) : Uint8Array * Uint8Array * nat :=
  (copy_into (timeDomain sig) timeData,
   copy_into (frequencyDomain sig) frequencyData_,
   frequencyBinCount node).

(** [visualizationLoop] of js/main.js: what one tick hands to [draw]'s
    consumers, if anything. *)
Definition visualizationLoop (sig : Signal) (st : Monitoring)
  : option (Uint8Array * Uint8Array * nat) :=
  if isMonitoring st then
    match analyserNode st, timeDomainData st, frequencyData st with
    | Some node, Some t, Some f => Some (draw sig node t f)
    | _, _, _ => None
    end
  else None.

(** *** Recording *)

Inductive RecorderState : Type := Inactive | Recording.

Record MediaRecorder : Type := mkRecorder {
  recorderState : RecorderState;
  mimeType : string
}.

(** The host's recording interface: [MediaRecorder.isTypeSupported] and
    the constructor, which yields the new recorder's [mimeType] ([inl]) or
    throws an error of some name ([inr]).  The constructor's argument is
    the [options] object: its [mimeType] if it has one. *)
Record Host : Type := mkHost {
  isTypeSupported : string -> bool;
  construct : option string -> string + string
}.

Record RecordingVars : Type := mkRecording {
  monitoring : bool;
  mediaStream : bool;
  mediaRecorderSupported : bool;
  isRecording : bool;
  mediaRecorder : option MediaRecorder;
  audioChunks : list Blob
}.

(** The parameters of a status message. *)
Inductive StatusParams : Type :=
| NoParams
| ErrorName (name : string)
| SizeAndType (size : nat) (type : string).

(** Calls into js/ui.js. *)
Inductive UiCall : Type :=
| setRecordingStatus (key type : string) (params : StatusParams)
| updateButtonStates (monitoring recording supported : bool)
| hidePlayback
| showRecordingSection (show : bool)
| displayPlayback (blob : Blob).

(** The candidate formats, in the order [startRecording] tries them. *)
Definition candidates : list string :=
  ["audio/webm;codecs=opus"; "audio/ogg;codecs=opus"; "audio/webm"]%string.

(** The [options] object [startRecording] ends up with: [Some m] for
    [{ mimeType: m }], [None] for [{}]. *)
Definition chooseOptions (supported : string -> bool) : option string :=
  if negb (supported "audio/webm;codecs=opus"%string) then
    if negb (supported "audio/ogg;codecs=opus"%string) then
      if negb (supported "audio/webm"%string) then None
      else Some "audio/webm"%string
    else Some "audio/ogg;codecs=opus"%string
  else Some "audio/webm;codecs=opus"%string.

Definition buttons (st : RecordingVars) (recording : bool) : UiCall :=
  updateButtonStates (monitoring st) recording (mediaRecorderSupported st).

Definition set_isRecording (b : bool) (st : RecordingVars) : RecordingVars :=
  mkRecording (monitoring st) (mediaStream st) (mediaRecorderSupported st) b
              (mediaRecorder st) (audioChunks st).

Definition startRecording (host : Host) (st : RecordingVars)
  : RecordingVars * list UiCall :=
  if negb (monitoring st) || negb (mediaStream st) || negb (mediaRecorderSupported st)
  then (st, [setRecordingStatus "recStatusCannotStart" "warning" NoParams])
  else if isRecording st then (st, [])
  else
    let options := chooseOptions (isTypeSupported host) in
    match construct host options with
    | inr errName =>
        (mkRecording (monitoring st) (mediaStream st) (mediaRecorderSupported st)
                     false (mediaRecorder st) [],
         [setRecordingStatus "recStatusErrorStart" "error" (ErrorName errName);
          buttons st false])
    | inl mime =>
        (mkRecording (monitoring st) (mediaStream st) (mediaRecorderSupported st)
                     true (Some (mkRecorder Recording mime)) [],
         [setRecordingStatus "recStatusRecording" "info" NoParams;
          hidePlayback;
          showRecordingSection true;
          buttons st true])
    end.

(** [mediaRecorder.ondataavailable] *)
Definition ondataavailable (data : Blob) (st : RecordingVars) : RecordingVars :=
  if (0 <? blobSize data)%nat
  then mkRecording (monitoring st) (mediaStream st) (mediaRecorderSupported st)
                   (isRecording st) (mediaRecorder st) (audioChunks st ++ [data])
  else st.

(** [mediaRecorder.onstop] *)
Definition onstop (st : RecordingVars) : RecordingVars * list UiCall :=
  match audioChunks st with
  | [] =>
      (set_isRecording false st,
       [setRecordingStatus "recStatusEmpty" "warning" NoParams;
        buttons st false;
        hidePlayback])
  | chunks =>
      let mime := match mediaRecorder st with
                  | Some r => mimeType r
                  | None => EmptyString
                  end in
      let audioBlob := new_Blob chunks (str_or mime "audio/webm") in
      (mkRecording (monitoring st) (mediaStream st) (mediaRecorderSupported st)
                   false (mediaRecorder st) [],
       [displayPlayback audioBlob;
        showRecordingSection true;
        setRecordingStatus "recStatusFinished" "success"
          (SizeAndType (blobSize audioBlob) (str_or (blobType audioBlob) "N/A"));
        buttons st false])
  end.

(** [mediaRecorder.onerror]; [name] is [event.error.name]. *)
Definition onerror (name : string) (st : RecordingVars) : RecordingVars * list UiCall :=
  (set_isRecording false st,
   [setRecordingStatus "recStatusError" "error" (ErrorName name);
    buttons st false;
    hidePlayback]).

(** [stopRecording]: the recorder goes inactive; its events follow. *)
Definition stopRecording (st : RecordingVars) : RecordingVars * list UiCall :=
  match isRecording st, mediaRecorder st with
  | true, Some r =>
      match recorderState r with
      | Inactive => (st, [])
      | Recording =>
          (mkRecording (monitoring st) (mediaStream st) (mediaRecorderSupported st)
                       (isRecording st) (Some (mkRecorder Inactive (mimeType r)))
                       (audioChunks st),
           [setRecordingStatus "recStatusStopping" "info" NoParams])
      end
  | _, _ => (st, [])
  end.

Inductive RecEvent : Type :=
| CallStartRecording
| CallStopRecording
| DataAvailable (data : Blob)
| Stopped
| Failed (name : string).

(** A recording that fails: the host sets the recorder inactive before it
    fires the [error] event.  The [stop] event leaves the state as it
    is. *)
Definition inactive (st : RecordingVars) : RecordingVars :=
  mkRecording (monitoring st) (mediaStream st) (mediaRecorderSupported st)
              (isRecording st)
              (option_map (fun r => mkRecorder Inactive (mimeType r)) (mediaRecorder st))
              (audioChunks st).

Definition recStep (host : Host) (st : RecordingVars) (e : RecEvent)
  : RecordingVars * list UiCall :=
  match e with
  | CallStartRecording => startRecording host st
  | CallStopRecording => stopRecording st
  | DataAvailable d => (ondataavailable d st, [])
  | Stopped => onstop st
  | Failed n => onerror n (inactive st)
  end.

Fixpoint recRun (host : Host) (st : RecordingVars) (es : list RecEvent)
  : RecordingVars * list UiCall :=
  match es with
  | [] => (st, [])
  | e :: es' =>
      let (st1, out1) := recStep host st e in
      let (st2, out2) := recRun host st1 es' in
      (st2, out1 ++ out2)
  end.

(** While monitoring, before any recording. *)
Definition readyToRecord : RecordingVars :=
  mkRecording true true true false None [].

(** A whole recording, as in js/analyzer.js. *)
Definition recordingSession (before after : list Blob) : list RecEvent :=
  CallStartRecording
    :: map DataAvailable before
    ++ CallStopRecording
    :: map DataAvailable after
    ++ [Stopped].

(** The blobs handed to [displayPlayback]. *)
Definition artifacts (out : list UiCall) : list Blob :=
  flat_map (fun c => match c with displayPlayback b => [b] | _ => [] end) out.

End Audio.

(* ================================================================= *)
(** ** js/analyzer.js: [initMic] and [cleanup] around the analysis loop *)

Module AnalyzerApi.
Import Analyzer.

(** The module when the script has loaded: no context, no analyser, no
    loop.  The host hands out animation frame handles from 1. *)
Definition initialModule : State :=
  mkState None None None (mkQueue [] [] 1) 0.

(** [initMic] resolved: a new context, in the state [ctx], and a new
    analyser of [FFT_SIZE] replace the module's; a loop that is scheduled
    stays scheduled. *)
Definition initMicResolved (ctx : ContextState) (st : State) : State :=
  mkState (Some ctx) (Some (mkAnalyser FFT_SIZE))
          (animationFrameId st) (queue st) (closesPending st).

(** The message of the error [initMic] throws for a rejection whose error
    has the given [name] and [message]. *)
Definition initMicError (name message : string) : string :=
  if (name =? "NotAllowedError")%string || (name =? "PermissionDeniedError")%string
  then "PermissionDenied"%string
  else if (name =? "NotFoundError")%string || (name =? "DevicesNotFoundError")%string
  then "NotFound"%string
  else ("InitError: " ++ message)%string.

(** The continuation of a [cleanup] once its [close()] has settled:
    resolved, the context variable is set to [null]; rejected, it is
    kept. *)
Definition closeSettled (resolved : bool) (st : State) : State :=
  match closesPending st with
  | O => st
  | S n =>
      mkState (if resolved then None else audioContext st)
              (analyserNode st) (animationFrameId st) (queue st) n
  end.

(** What can happen to the analysis part: the events of the loop, the
    settling of [initMic], a call of [cleanup] from outside a tick, and
    the settling of a [close()]. *)
Inductive ApiEvent : Type :=
| Loop (e : LoopEvent)
| InitMicResolved (ctx : ContextState)
| CallCleanup
| CloseSettled (resolved : bool).

Definition apiStep (st : State) (e : ApiEvent) : State * list Published :=
  match e with
  | Loop e' => loopStep st e'
  | InitMicResolved ctx => (initMicResolved ctx st, [])
  | CallCleanup => (cleanup st, [])
  | CloseSettled resolved => (closeSettled resolved st, [])
  end.

Fixpoint apiRun (st : State) (es : list ApiEvent) : State * list Published :=
  match es with
  | [] => (st, [])
  | e :: es' =>
      let (st1, out1) := apiStep st e in
      let (st2, out2) := apiRun st1 es' in
      (st2, out1 ++ out2)
  end.

Definition loaded : State := initialModule.

(** The subscribers an event registers never call [startAnalysis] from
    inside a tick. *)
Definition quietEvent (e : ApiEvent) : Prop :=
  match e with
  | Loop e' => quietLoopEvent e'
  | _ => True
  end.

Definition isInitMic (e : ApiEvent) : bool :=
  match e with InitMicResolved _ => true | _ => false end.

Definition isStartAnalysis (e : ApiEvent) : bool :=
  match e with Loop (CallStartAnalysis _ _) => true | _ => false end.

Definition isMetricsUpdate (p : Published) : bool :=
  match p with MetricsUpdate _ => true | _ => false end.

Definition isVisualizationUpdate (p : Published) : bool :=
  match p with VisualizationUpdate _ _ => true | _ => false end.

End AnalyzerApi.

(* ================================================================= *)
(** ** More of JavaScript's arithmetic *)

Module JsMath.

Local Open Scope R_scope.

Definition Rleb (x y : R) : bool := if Rle_dec x y then true else false.

(** [a <= b]; false when either is NaN. *)
Definition jleq (a b : jsnum) : bool :=
  match a, b with
  | NaN, _ | _, NaN => false
  | NegInf, _ => true
  | _, PosInf => true
  | _, NegInf => false
  | PosInf, _ => false
  | Finite x, Finite y => Rleb x y
  end.

(** [Math.min] of two arguments: NaN if either is NaN. *)
Definition jmin (a b : jsnum) : jsnum :=
  match a, b with
  | NaN, _ | _, NaN => NaN
  | NegInf, _ | _, NegInf => NegInf
  | PosInf, c | c, PosInf => c
  | Finite x, Finite y => Finite (Rmin x y)
  end.

(** The largest integer not above [x]. *)
Definition Rfloor (x : R) : Z := (up x - 1)%Z.

(** [Math.round]: the integer nearest to the argument, halves upwards. *)
Definition jround (a : jsnum) : jsnum :=
  match a with
  | Finite x => Finite (IZR (Rfloor (x + / 2)))
  | _ => a
  end.

End JsMath.

(* ================================================================= *)
(** ** js/app.js *)

Module App.
Import Analyzer.

(** *** Tips *)

Record Tip : Type := mkTip { textKey : string; level : string }.

Definition lowVolumeThreshold : jsnum := Finite (-25).
Definition highVolumeThreshold : jsnum := Finite (-6).
Definition noiseThreshold : jsnum := Finite (-45).

Definition generateActionableTips (metrics : Metrics) : list Tip :=
  (if clipping metrics then [mkTip "tips.clippingDetected" "danger"]
   else if jgt (rmsVolume metrics) highVolumeThreshold
           && jlt (rmsVolume metrics) (Finite (-1))
        then [mkTip "tips.volumeHigh" "warning"]
        else [])
  ++ (if jlt (rmsVolume metrics) lowVolumeThreshold
         && jgt (rmsVolume metrics) (Finite (-55))
      then [mkTip "tips.volumeLow" "info"]
      else [])
  ++ (if jgt (noiseLevel metrics) noiseThreshold
      then [mkTip "tips.noiseHigh" "warning"]
      else []).

(** *** The application's state and its event handlers *)

Inductive AppState : Type :=
| st_idle | st_initializing | st_testing | st_recording
| st_playing | st_stopped | st_error.

(** The argument of [UI.setButtonStates]: [true] enables a button. *)
Record ButtonStates : Type := mkButtons {
  start : bool;
  stop : bool;
  record : bool;
  play : bool
}.

(** The own properties of [window.MicAnalyzer], all of them functions. *)
Definition exposed : list string :=
  ["initMic"; "startAnalysis"; "stopAnalysis"; "startRecording";
   "stopRecording"; "cleanup"]%string.

(** The truth value of [MicAnalyzer.name] for a name that is not a member
    of [Object.prototype]: a function when exposed, [undefined] when
    not. *)
Definition micAnalyzerHas (name : string) : bool :=
  existsb (String.eqb name) exposed.

Record App : Type := mkApp {
  appState : AppState;
  currentBlobUrl : option Blob;
  lastStatus : string * string;
  buttons : ButtonStates;
  pendingInit : nat
}.

(** What the handlers ask of the other modules and of the browser. *)
Inductive AppCall : Type :=
| MicInitMic
| MicStartAnalysis
| MicStopAnalysis
| MicStartRecording
| MicStopRecording
| MicCleanup
| UiPlayAudio
| UiSetPlaybackSource (url : option Blob)
| UrlRevoke (url : Blob)
| StatusMessage (key type : string).

Inductive AppEvent : Type :=
| ClickStart | ClickStop | ClickRecord | ClickPlay
| InitMicSettled (result : option string)
| PlaybackPlay | PlaybackEnded | PlaybackError
| RecordingStopped (blobUrl : Blob)
| RecordingFailed (errorMsg : string)
| PageUnload.

Definition hasUrl (a : App) : bool :=
  match currentBlobUrl a with Some _ => true | None => false end.

(** The state [init] leaves. *)
Definition initial : App :=
  mkApp st_idle None ("statusIdle", "idle")%string (mkButtons true false false false) 0.

(** [setAppState], [updateStatusMessage] and [UI.setButtonStates] in one
    step: the new state, the status shown and remembered, the buttons. *)
Definition enter (s : AppState) (key type : string) (b : ButtonStates) (a : App) : App :=
  mkApp s (currentBlobUrl a) (key, type) b (pendingInit a).

Definition handleStartClick (a : App) : App * list AppCall :=
  match appState a with
  | st_idle | st_stopped | st_error =>
      (mkApp st_initializing (currentBlobUrl a) ("statusInitializing", "info")%string
             (mkButtons false false false false) (S (pendingInit a)),
       [StatusMessage "statusInitializing" "info"; MicInitMic])
  | _ => (a, [])
  end.

(** The rest of [handleStartClick], once [initMic] has settled: resolved
    ([None]) or rejected with an error of the given message. *)
Definition initMicSettled (result : option string) (a : App) : App * list AppCall :=
  match pendingInit a with
  | O => (a, [])
  | S n =>
      match result with
      | None =>
          (mkApp st_testing (currentBlobUrl a) ("statusTesting", "info")%string
                 (mkButtons false true (micAnalyzerHas "mediaRecorder") (hasUrl a)) n,
           [MicStartAnalysis; StatusMessage "statusTesting" "info"])
      | Some message =>
          let errorKey :=
            if (message =? "PermissionDenied")%string then "errorPermissionDenied"%string
            else if (message =? "NotFound")%string then "errorMicNotFound"%string
            else "errorInitGeneric"%string in
          (mkApp st_error (currentBlobUrl a) (errorKey, "error"%string)
                 (mkButtons true false false false) n,
           [StatusMessage errorKey "error"])
      end
  end.

Definition handleStopClick (a : App) : App * list AppCall :=
  match appState a with
  | st_testing | st_recording =>
      (enter st_stopped "statusStopped" "info" (mkButtons true false false (hasUrl a)) a,
       MicStopAnalysis
         :: match appState a with st_recording => [MicStopRecording] | _ => [] end
         ++ [StatusMessage "statusStopped" "info"])
  | _ => (a, [])
  end.

Definition handleRecordClick (a : App) : App * list AppCall :=
  match appState a with
  | st_testing =>
      (mkApp st_recording None ("statusRecording", "recording")%string
             (mkButtons false true false false) (pendingInit a),
       StatusMessage "statusRecording" "recording"
         :: UiSetPlaybackSource None
         :: match currentBlobUrl a with Some u => [UrlRevoke u] | None => [] end
         ++ [MicStartRecording])
  | _ => (a, [])
  end.

Definition handlePlayClick (a : App) : App * list AppCall :=
  match currentBlobUrl a, appState a with
  | None, _ | _, st_recording | _, st_playing => (a, [])
  | Some _, _ => (a, [UiPlayAudio])
  end.

(** The state the playback's end goes back to. *)
Definition backTo : AppState :=
  if micAnalyzerHas "analyserNode" then st_testing else st_stopped.

Definition handleRecordingStop (blobUrl : Blob) (a : App) : App * list AppCall :=
  if micAnalyzerHas "analyserNode" then
    (mkApp st_testing (Some blobUrl) ("statusTesting", "info")%string
           (mkButtons false true true true) (pendingInit a),
     [UiSetPlaybackSource (Some blobUrl); StatusMessage "statusTesting" "info"])
  else
    (mkApp st_stopped (Some blobUrl) ("statusStopped", "info")%string
           (mkButtons true false false true) (pendingInit a),
     [UiSetPlaybackSource (Some blobUrl); StatusMessage "statusStopped" "info"]).

Definition handleRecordingError (errorMsg : string) (a : App) : App * list AppCall :=
  let errorKey :=
    if (errorMsg =? "NoDataRecorded")%string then "errorRecordingNoData"%string
    else "errorRecordingGeneric"%string in
  if micAnalyzerHas "analyserNode" then
    (enter st_testing errorKey "error" (mkButtons false true true (hasUrl a)) a,
     [StatusMessage errorKey "error"])
  else
    (enter st_stopped errorKey "error" (mkButtons true false false (hasUrl a)) a,
     [StatusMessage errorKey "error"]).

(** One event.  A click reaches its handler only when the button is
    enabled. *)
Definition appStep (a : App) (e : AppEvent) : App * list AppCall :=
  match e with
  | ClickStart => if start (buttons a) then handleStartClick a else (a, [])
  | ClickStop => if stop (buttons a) then handleStopClick a else (a, [])
  | ClickRecord => if record (buttons a) then handleRecordClick a else (a, [])
  | ClickPlay => if play (buttons a) then handlePlayClick a else (a, [])
  | InitMicSettled r => initMicSettled r a
  | PlaybackPlay =>
      (enter st_playing "statusPlaying" "info" (buttons a) a,
       [StatusMessage "statusPlaying" "info"])
  | PlaybackEnded =>
      (enter backTo (fst (lastStatus a)) (snd (lastStatus a)) (buttons a) a,
       [StatusMessage (fst (lastStatus a)) (snd (lastStatus a))])
  | PlaybackError =>
      (enter st_error "errorPlayback" "error" (buttons a) a,
       [StatusMessage "errorPlayback" "error"])
  | RecordingStopped u => handleRecordingStop u a
  | RecordingFailed m => handleRecordingError m a
  | PageUnload =>
      (a, MicCleanup :: match currentBlobUrl a with Some u => [UrlRevoke u] | None => [] end)
  end.

Fixpoint appRun (a : App) (es : list AppEvent) : App * list AppCall :=
  match es with
  | [] => (a, [])
  | e :: es' =>
      let (a1, out1) := appStep a e in
      let (a2, out2) := appRun a1 es' in
      (a2, out1 ++ out2)
  end.

(** The key of the status message shown for a rejection of
    [getUserMedia] with an error of the given name and message: the
    mapping of [initMic] followed by that of [handleStartClick]. *)
Definition initErrorKey (name message : string) : string :=
  let thrown := AnalyzerApi.initMicError name message in
  if (thrown =? "PermissionDenied")%string then "errorPermissionDenied"%string
  else if (thrown =? "NotFound")%string then "errorMicNotFound"%string
  else "errorInitGeneric"%string.

End App.

(* ================================================================= *)
(** ** js/ui.js of the page driven by js/app.js *)

Module UiPage.
Import JsMath.

(** What [formatDBFS] shows before the unit: dashes, or the value with one
    decimal ([toFixed(1)], not modelled further). *)
Inductive Shown : Type :=
| Dashes
| OneDecimal (value : jsnum).

Definition formatDBFS (value : jsnum) : Shown :=
  if negb (isFinite value) || jleq value (Finite (-100)) then Dashes
  else OneDecimal value.

(** The value [updateMetric] gives the meter of a level. *)
Definition meterValue (value : jsnum) : jsnum :=
  if isFinite value then jmax (Finite (-60)) value else Finite (-60).

(** Drawing commands on a canvas. *)
Inductive Drawn : Type :=
| ClearCanvas
| Bar (x y w h : jsnum)
| MoveTo (x y : jsnum)
| LineTo (x y : jsnum)
| Stroke.

(** The loop over the frequency bins, [x] being the left edge of the next
    bar. *)
Fixpoint bars (height barWidth x : jsnum) (freqData : list byte) : list Drawn :=
  match freqData with
  | [] => []
  | b :: rest =>
      let barHeight := jmul (jdiv (of_byte b) (Finite 255)) height in
      Bar x (jsub height barHeight) barWidth barHeight
        :: bars height barWidth (jadd x (jadd barWidth (Finite 1))) rest
  end.

(** The loop over the samples of the waveform; [first] marks the first
    iteration. *)
Fixpoint wave (height sliceWidth x : jsnum) (first : bool) (timeData : list byte)
  : list Drawn :=
  match timeData with
  | [] => []
  | b :: rest =>
      let v := jdiv (of_byte b) (Finite 128) in
      let y := jdiv (jmul v height) (Finite 2) in
      (if first then MoveTo x y else LineTo x y)
        :: wave height sliceWidth (jadd x sliceWidth) false rest
  end.

(** [drawVisualization] on a canvas of the given size; [type] is [None]
    when the caller passes two arguments. *)
Definition drawVisualization (width height : nat)
    (timeData freqData : option Uint8Array) (type : option string) : list Drawn :=
  let type := match type with Some t => t | None => "frequency"%string end in
  let w := of_nat width in
  let h := of_nat height in
  ClearCanvas
    :: match (type =? "waveform")%string, timeData with
       | true, Some td =>
           wave h (jdiv (jmul w (Finite 1)) (of_nat (length td))) (Finite 0) true td
       | _, _ =>
           match (type =? "frequency")%string, freqData with
           | true, Some fd =>
               bars h (jmul (jdiv w (of_nat (length fd))) (Finite (3 / 2))) (Finite 0) fd
           | _, _ => []
           end
       end
    ++ (if (type =? "waveform")%string
        then [LineTo w (jdiv h (Finite 2)); Stroke]
        else []).

End UiPage.

(* ================================================================= *)
(** ** js/visualizer.js, and its callers in js/main.js and js/ui.js *)

Module Visualizer.
Import JsMath.
Import UiPage.

(** [a[i]] read as a number: an index outside the array gives
    [undefined], which is NaN in arithmetic. *)
Definition element (a : Uint8Array) (i : nat) : jsnum :=
  match nth_error a i with
  | Some b => of_byte b
  | None => NaN
  end.

(** One iteration of the volume loop of [draw]. *)
Definition peakStep (timeDomainData : Uint8Array) (peak : jsnum) (i : nat) : jsnum :=
  let value := jabs (jsub (jdiv (element timeDomainData i) (Finite 128)) (Finite 1)) in
  if jgt value peak then value else peak.

Definition peakOf (timeDomainData : Uint8Array) (bufferLength : nat) : jsnum :=
  fold_left (peakStep timeDomainData) (seq 0 bufferLength) (Finite 0).

(** The loop of [drawWaveform] over the given indices. *)
Fixpoint waveform (timeData : Uint8Array) (height sliceWidth x : jsnum)
    (indices : list nat) : list Drawn :=
  match indices with
  | [] => []
  | i :: rest =>
      let v := jdiv (element timeData i) (Finite 128) in
      let y := jdiv (jmul v height) (Finite 2) in
      (match i with O => MoveTo x y | S _ => LineTo x y end)
        :: waveform timeData height sliceWidth (jadd x sliceWidth) rest
  end.

Definition drawWaveform (width height : nat) (timeData : Uint8Array)
    (bufferLength : nat) : list Drawn :=
  let w := of_nat width in
  let h := of_nat height in
  ClearCanvas
    :: waveform timeData h (jdiv (jmul w (Finite 1)) (of_nat bufferLength)) (Finite 0)
                (seq 0 bufferLength)
    ++ [LineTo w (jdiv h (Finite 2)); Stroke].

(** The loop of [drawFrequencySpectrum] over the given indices. *)
Fixpoint spectrum (freqData : Uint8Array) (height barWidth x : jsnum)
    (indices : list nat) : list Drawn :=
  match indices with
  | [] => []
  | i :: rest =>
      let barHeight := jmul (element freqData i) (jdiv height (Finite 255)) in
      Bar x (jsub height barHeight) barWidth barHeight
        :: spectrum freqData height barWidth (jadd x (jadd barWidth (Finite 1))) rest
  end.

Definition drawFrequencySpectrum (width height : nat) (freqData : Uint8Array)
    (bufferLength : nat) : list Drawn :=
  let w := of_nat width in
  let h := of_nat height in
  ClearCanvas
    :: spectrum freqData h (jmul (jdiv w (of_nat bufferLength)) (Finite (3 / 2)))
                (Finite 0) (seq 0 bufferLength).

(** [draw], on canvases of the given sizes: the level it returns and what
    it draws on the waveform and on the frequency canvas.  A missing
    argument gives 0 and no drawing. *)
Definition draw (waveSize freqSize : nat * nat) (sig : Signal)
    (analyserNode : option AnalyserNode)
    (timeDomainData frequencyData : option Uint8Array)
  : jsnum * list Drawn * list Drawn :=
  match analyserNode, timeDomainData, frequencyData with
  | Some node, Some t, Some f =>
      let bufferLength := frequencyBinCount node in
      let t' := copy_into (timeDomain sig) t in
      let f' := copy_into (frequencyDomain sig) f in
      (peakOf t' bufferLength,
       drawWaveform (fst waveSize) (snd waveSize) t' bufferLength,
       drawFrequencySpectrum (fst freqSize) (snd freqSize) f' bufferLength)
  | _, _, _ => (Finite 0, [], [])
  end.

(** [updateVolumeMeter] of js/ui.js: the width of the meter, in percent. *)
Definition updateVolumeMeter (level : jsnum) : jsnum :=
  jmin (Finite 100) (jmax (Finite 0) (jmul level (Finite 100))).

(** The percentage [visualizationLoop] of js/main.js hands to
    [updateResultsBar]. *)
Definition volumePercent (volumeLevel : jsnum) : jsnum :=
  jround (jmul volumeLevel (Finite 100)).

End Visualizer.

(* ================================================================= *)
(** ** js/storage.js and js/theme.js *)

Module Storage.

(** The browser's [localStorage]: its items, and whether reading or
    writing throws (storage denied, quota exceeded). *)
Record LocalStorage : Type := mkStorage {
  items : string -> option string;
  readThrows : bool;
  writeThrows : bool
}.

Definition saveToLocalStorage (key value : string) (s : LocalStorage) : LocalStorage :=
  if writeThrows s then s
  else mkStorage (fun k => if (k =? key)%string then Some value else items s k)
                 (readThrows s) (writeThrows s).

Definition getFromLocalStorage (key : string) (defaultValue : option string)
    (s : LocalStorage) : option string :=
  if readThrows s then defaultValue
  else match items s key with
       | None => defaultValue
       | Some value => Some value
       end.

End Storage.

Module Theme.
Import Storage.

Definition DEFAULT_THEME : string := "dark".
Definition LOCAL_STORAGE_THEME_KEY : string := "micAnalyzerTheme".

(** The module's [currentTheme], the class list of [document.body] and
    the storage. *)
Record ThemeState : Type := mkTheme {
  currentTheme : string;
  bodyClasses : list string;
  storage : LocalStorage
}.

(** [classList.remove] and [classList.add]. *)
Definition classRemove (c : string) (classes : list string) : list string :=
  filter (fun x => negb (x =? c)%string) classes.

Definition classAdd (c : string) (classes : list string) : list string :=
  if existsb (String.eqb c) classes then classes else classes ++ [c].

(** [classList.add] throws for a token that is empty or holds ASCII
    whitespace. *)
Definition isAsciiWhitespace (c : ascii) : bool :=
  existsb (Nat.eqb (nat_of_ascii c)) [9; 10; 12; 13; 32].

Definition validToken (c : string) : bool :=
  negb (c =? "")%string && negb (existsb isAsciiWhitespace (list_ascii_of_string c)).

(** [applyTheme]; when [classList.add] throws, the theme classes are
    removed and the rest of the function is not run. *)
Definition applyTheme (themeName : string) (st : ThemeState) : ThemeState :=
  let removed := classRemove "dark-mode" (classRemove "light-mode" (bodyClasses st)) in
  if validToken (themeName ++ "-mode") then
    mkTheme themeName
            (classAdd (themeName ++ "-mode") removed)
            (saveToLocalStorage LOCAL_STORAGE_THEME_KEY themeName (storage st))
  else mkTheme (currentTheme st) removed (storage st).

Definition toggleTheme (st : ThemeState) : ThemeState :=
  applyTheme (if (currentTheme st =? "light")%string then "dark" else "light")%string st.

Definition initTheme (st : ThemeState) : ThemeState :=
  match getFromLocalStorage LOCAL_STORAGE_THEME_KEY (Some DEFAULT_THEME) (storage st) with
  | Some savedTheme => applyTheme savedTheme st
  | None => st
  end.

(** A page load: the module starts from [DEFAULT_THEME], the body has the
    classes of the markup, the storage is what the last visit left. *)
Definition pageLoad (markupClasses : list string) (s : LocalStorage) : ThemeState :=
  initTheme (mkTheme DEFAULT_THEME markupClasses s).

End Theme.

(* ================================================================= *)
(** ** Kinds of recording events *)

Module RecordingEvents.
Import Analyzer.

(** A request to stop: a call of [stopRecording] or the timer firing. *)
Definition isStopRequest (e : RecEvent) : bool :=
  match e with
  | CallStopRecording _ _ | TimerFires => true
  | _ => false
  end.

End RecordingEvents.

(* ================================================================= *)
(** ** Properties of the metrics computation *)

Section RealFacts.
Local Open Scope R_scope.

Lemma Rltb_true (x y : R) : x < y -> Rltb x y = true.
Proof. intro H. unfold Rltb. destruct (Rlt_dec x y); [reflexivity | contradiction]. Qed.

Lemma Rltb_false (x y : R) : y <= x -> Rltb x y = false.
Proof. intro H. unfold Rltb. destruct (Rlt_dec x y); [lra | reflexivity]. Qed.

Lemma Reqb_true (x y : R) : x = y -> Reqb x y = true.
Proof. intro H. unfold Reqb. destruct (Req_dec_T x y); [reflexivity | contradiction]. Qed.

Lemma Reqb_false (x y : R) : x <> y -> Reqb x y = false.
Proof. intro H. unfold Reqb. destruct (Req_dec_T x y); [contradiction | reflexivity]. Qed.

Lemma ln10_pos : 0 < ln 10.
Proof. rewrite <- ln_1. apply ln_increasing; lra. Qed.

Lemma log10_1 : log10 1 = 0.
Proof. unfold log10. rewrite ln_1. lra. Qed.

Lemma log10_le (x y : R) : 0 < x -> x <= y -> log10 x <= log10 y.
Proof.
  intros Hx [Hlt | ->]; [| lra].
  unfold log10. pose proof ln10_pos as H10.
  pose proof (ln_increasing x y Hx Hlt) as Hln.
  apply Rmult_le_compat_r; [| lra].
  left. now apply Rinv_0_lt_compat.
Qed.

Lemma log10_nonpos (x : R) : 0 < x -> x <= 1 -> log10 x <= 0.
Proof. intros Hx H1. rewrite <- log10_1. now apply log10_le. Qed.

End RealFacts.

Section JsNumFacts.
Local Open Scope R_scope.

Lemma jdiv_finite (x y : R) : y <> 0 -> jdiv (Finite x) (Finite y) = Finite (x / y).
Proof. intro H. unfold jdiv. now rewrite Reqb_false. Qed.

Lemma jdiv_zero_zero : jdiv (Finite 0) (Finite 0) = NaN.
Proof. unfold jdiv. now rewrite !Reqb_true. Qed.

Lemma jsqrt_finite (x : R) : 0 <= x -> jsqrt (Finite x) = Finite (sqrt x).
Proof. intro H. unfold jsqrt. now rewrite Rltb_false. Qed.

Lemma jgt_finite_0 (x : R) : jgt (Finite x) (Finite 0) = Rltb 0 x.
Proof. reflexivity. Qed.

Lemma jlog10_pos (x : R) : 0 < x -> jlog10 (Finite x) = Finite (log10 x).
Proof.
  intro H. unfold jlog10.
  rewrite Rltb_false by lra. rewrite Reqb_false by lra. reflexivity.
Qed.

Lemma jle_refl (a : jsnum) : a <> NaN -> jle a a.
Proof. destruct a; simpl; intros H; try exact I; [congruence | lra]. Qed.

Lemma jle_jmax_l (a b : jsnum) : a <> NaN -> b <> NaN -> jle a (jmax a b).
Proof.
  destruct a, b; simpl; intros Ha Hb; try exact I; try congruence; try lra.
  apply Rmax_l.
Qed.

Lemma jmax_not_NaN (a b : jsnum) : a <> NaN -> b <> NaN -> jmax a b <> NaN.
Proof. destruct a, b; simpl; congruence. Qed.

End JsNumFacts.

Section MetricsFacts.
Import Analyzer.
Local Open Scope R_scope.

Lemma byte_range (b : byte) : 0 <= IZR (Z.of_N (Byte.to_N b)) <= 255.
Proof.
  pose proof (Byte.to_N_bounded b) as H.
  split; apply IZR_le; lia.
Qed.

Lemma normalized_range (b : byte) : -1 <= normalized b <= 127 / 128.
Proof. pose proof (byte_range b). unfold normalized. lra. Qed.

Lemma normalized_abs_le_1 (b : byte) : Rabs (normalized b) <= 1.
Proof. pose proof (normalized_range b). apply Rabs_le. lra. Qed.

Lemma valueFloat_normalized (b : byte) : valueFloat b = Finite (normalized b).
Proof.
  unfold valueFloat, of_byte, of_N.
  rewrite jdiv_finite by lra. reflexivity.
Qed.

Lemma fold_loopBody (w : Uint8Array) :
  forall (p s d : R) (c : bool), 0 <= p ->
  fold_left loopBody w (mkAccum (Finite p) (Finite s) (Finite d) c) =
  mkAccum (Finite (Rmax p (Rmaximum (absolutes w))))
          (Finite (s + Rsum (squares w)))
          (Finite (d + Rsum (map normalized w)))
          (c || existsb nearExtreme w).
Proof.
  induction w as [| b w IH]; intros p s d c Hp; simpl.
  - rewrite Rmax_left by exact Hp. rewrite !Rplus_0_r, orb_false_r. reflexivity.
  - unfold loopBody at 2. rewrite valueFloat_normalized. simpl.
    rewrite IH by (eapply Rle_trans; [exact Hp | apply Rmax_l]).
    f_equal.
    + now rewrite Rmax_assoc.
    + f_equal. lra.
    + f_equal. lra.
    + destruct (nearExtreme b), c; reflexivity.
Qed.

Lemma Rmaximum_nonneg (l : list R) : 0 <= Rmaximum l.
Proof.
  induction l as [| x l IH]; simpl; [lra |].
  eapply Rle_trans; [exact IH | apply Rmax_r].
Qed.

Lemma accumulate_eq (w : Uint8Array) :
  accumulate w =
  mkAccum (Finite (Rmaximum (absolutes w)))
          (Finite (Rsum (squares w)))
          (Finite (Rsum (map normalized w)))
          (existsb nearExtreme w).
Proof.
  unfold accumulate, accum0. rewrite fold_loopBody by lra.
  rewrite Rmax_right by apply Rmaximum_nonneg.
  now rewrite !Rplus_0_l.
Qed.

End MetricsFacts.

Section MetricsTheorems.
Import Analyzer.
Local Open Scope R_scope.

Lemma nearExtreme_spec (b : byte) :
  nearExtreme b = true <-> (254 <= Byte.to_N b)%N \/ (Byte.to_N b <= 1)%N.
Proof.
  unfold nearExtreme. rewrite orb_true_iff, !N.leb_le. reflexivity.
Qed.

Lemma clipping_existsb (last : jsnum) (w : Uint8Array) :
  clipping (snd (calculateMetrics last w)) = existsb nearExtreme w.
Proof. unfold calculateMetrics. simpl. now rewrite accumulate_eq. Qed.

(** C6: the clipping flag of a tick is true exactly when some byte of the
    window is at least 254 or at most 1; so a window holding 255 or 0
    clips, and one with every byte strictly between 1 and 254 does not. *)
Theorem clipping_iff_near_extreme (last : jsnum) (w : Uint8Array) :
  let m := snd (calculateMetrics last w) in
  (clipping m = true <->
     Exists (fun b => (254 <= Byte.to_N b)%N \/ (Byte.to_N b <= 1)%N) w)
  /\ (In xff w \/ In x00 w -> clipping m = true)
  /\ (Forall (fun b => (1 < Byte.to_N b < 254)%N) w -> clipping m = false).
Proof.
  cbv zeta. rewrite clipping_existsb.
  assert (Hiff : existsb nearExtreme w = true <->
                 Exists (fun b => (254 <= Byte.to_N b)%N \/ (Byte.to_N b <= 1)%N) w).
  { rewrite existsb_exists, Exists_exists.
    split; intros [b [Hin Hb]]; exists b; split; auto; now apply nearExtreme_spec. }
  split; [exact Hiff |]. split.
  - intros [H | H]; apply existsb_exists; eexists; (split; [exact H | reflexivity]).
  - intro Hall. apply not_true_is_false. intro Htrue.
    apply Hiff in Htrue. apply Exists_exists in Htrue. destruct Htrue as [b [Hin Hb]].
    rewrite Forall_forall in Hall. specialize (Hall b Hin). lia.
Qed.

Lemma display_dB (x : jsnum) : forDisplay (toDBFS x) = spec_floor (spec_dB x).
Proof.
  unfold toDBFS, spec_dB. destruct (jgt x (Finite 0)); reflexivity.
Qed.

Lemma forDisplay_finite (x : jsnum) : isFinite (forDisplay x) = true.
Proof. unfold forDisplay. destruct x; reflexivity. Qed.

Lemma mean_length_squares (w : Uint8Array) :
  jdiv (Finite (Rsum (squares w))) (of_nat (length w)) = mean (squares w).
Proof. unfold mean, squares. now rewrite length_map. Qed.

(** C1: the metrics of a tick are those of the specification: each byte is
    normalized to [b / 128 - 1], the peak is the maximum magnitude, the rms
    the root of the mean square, the DC offset the mean, a level is
    [20 * log10] of a positive amplitude and the floor otherwise, and every
    level in the snapshot is finite, a non-finite one being replaced by
    -100. *)
Theorem metrics_follow_specification (last : jsnum) (w : Uint8Array) :
  let m := snd (calculateMetrics last w) in
  (forall b, valueFloat b = Finite (normalized b))
  /\ peakLinear (accumulate w) = spec_peakLinear w
  /\ rmsLinearOf w = spec_rmsLinear w
  /\ peakVolume m = spec_floor (spec_dB (spec_peakLinear w))
  /\ rmsVolume m = spec_floor (spec_dB (spec_rmsLinear w))
  /\ dcOffset m = spec_dcOffset w
  /\ floorValue = Finite (-100)
  /\ isFinite (peakVolume m) = true
  /\ isFinite (rmsVolume m) = true
  /\ isFinite (noiseLevel m) = true.
Proof.
  cbv zeta.
  assert (Hrms : rmsLinearOf w = spec_rmsLinear w).
  { unfold rmsLinearOf, spec_rmsLinear. rewrite accumulate_eq.
    cbn [sumSquares]. now rewrite mean_length_squares. }
  split; [exact valueFloat_normalized |].
  split; [now rewrite accumulate_eq |].
  split; [exact Hrms |].
  unfold calculateMetrics.
  cbn [snd peakVolume rmsVolume dcOffset noiseLevel].
  fold (rmsLinearOf w). rewrite Hrms.
  rewrite !display_dB, !forDisplay_finite.
  rewrite accumulate_eq. cbn [peakLinear sumValues].
  repeat split; try reflexivity.
  unfold spec_dcOffset, mean. now rewrite length_map.
Qed.

End MetricsTheorems.

Section WindowBounds.
Import Analyzer.
Local Open Scope R_scope.

Lemma Rsum_squares_nonneg (w : Uint8Array) : 0 <= Rsum (squares w).
Proof.
  induction w as [| b w IH]; simpl; [lra |].
  pose proof (Rle_0_sqr (normalized b)) as H. unfold Rsqr in H. lra.
Qed.

Lemma Rmaximum_absolutes_le_1 (w : Uint8Array) : Rmaximum (absolutes w) <= 1.
Proof.
  induction w as [| b w IH]; simpl; [lra |].
  apply Rmax_lub; [apply normalized_abs_le_1 | exact IH].
Qed.

Lemma abs_le_bound_sum (M : R) (w : Uint8Array) :
  Forall (fun b => Rabs (normalized b) <= M) w ->
  Rsum (squares w) <= INR (length w) * (M * M).
Proof.
  induction 1 as [| b w Hb _ IH].
  - simpl. lra.
  - change (length (b :: w)) with (S (length w)). rewrite S_INR.
    change (Rsum (squares (b :: w)))
      with (normalized b * normalized b + Rsum (squares w)).
    pose proof (Rabs_pos (normalized b)) as Hpos.
    assert (normalized b * normalized b <= M * M).
    { replace (normalized b * normalized b)
        with (Rabs (normalized b) * Rabs (normalized b)).
      - apply Rmult_le_compat; lra.
      - unfold Rabs. destruct (Rcase_abs (normalized b)); lra. }
    lra.
Qed.

Lemma abs_le_Rmaximum (w : Uint8Array) :
  Forall (fun b => Rabs (normalized b) <= Rmaximum (absolutes w)) w.
Proof.
  induction w as [| b w IH]; constructor.
  - apply Rmax_l.
  - eapply Forall_impl; [| exact IH]. cbv beta. intros a Ha.
    eapply Rle_trans; [exact Ha | apply Rmax_r].
Qed.

Lemma sum_squares_le_peak (w : Uint8Array) :
  Rsum (squares w) <=
  INR (length w) * (Rmaximum (absolutes w) * Rmaximum (absolutes w)).
Proof. apply abs_le_bound_sum, abs_le_Rmaximum. Qed.

Lemma peak_square_le_sum (w : Uint8Array) :
  Rmaximum (absolutes w) * Rmaximum (absolutes w) <= Rsum (squares w).
Proof.
  induction w as [| b w IH].
  - simpl. lra.
  - change (Rsum (squares (b :: w)))
      with (normalized b * normalized b + Rsum (squares w)).
    change (Rmaximum (absolutes (b :: w)))
      with (Rmax (Rabs (normalized b)) (Rmaximum (absolutes w))).
    pose proof (Rsum_squares_nonneg w) as HS.
    assert (Hsq : Rabs (normalized b) * Rabs (normalized b)
                  = normalized b * normalized b).
    { unfold Rabs. destruct (Rcase_abs (normalized b)); lra. }
    assert (0 <= normalized b * normalized b).
    { pose proof (Rle_0_sqr (normalized b)) as H. exact H. }
    apply Rmax_case; lra.
Qed.

Lemma Rsum_repeat (x : R) (n : nat) : Rsum (repeat x n) = INR n * x.
Proof.
  induction n as [| n IH].
  - simpl. lra.
  - change (Rsum (repeat x (S n))) with (x + Rsum (repeat x n)).
    rewrite IH, S_INR. lra.
Qed.

Lemma Rmaximum_repeat (x : R) (n : nat) :
  0 <= x -> Rmaximum (repeat x (S n)) = x.
Proof.
  intro Hx. induction n as [| n IH].
  - simpl. now apply Rmax_left.
  - change (Rmaximum (repeat x (S (S n))))
      with (Rmax x (Rmaximum (repeat x (S n)))).
    rewrite IH. apply Rmax_left. lra.
Qed.

Lemma constant_window (w : Uint8Array) (b : byte) :
  Forall (fun c => c = b) w -> w = repeat b (length w).
Proof.
  induction 1 as [| c w Hc _ IH]; simpl; [reflexivity |].
  now rewrite Hc, <- IH.
Qed.

Lemma existsb_repeat (A : Type) (f : A -> bool) (x : A) (n : nat) :
  existsb f (repeat x (S n)) = f x.
Proof.
  induction n as [| n IH]; [apply orb_false_r |].
  change (existsb f (repeat x (S (S n)))) with (f x || existsb f (repeat x (S n))).
  rewrite IH. apply orb_diag.
Qed.

(** The accumulators over a window that repeats one byte. *)
Lemma accumulate_repeat (b : byte) (n : nat) :
  accumulate (repeat b (S n)) =
  mkAccum (Finite (Rabs (normalized b)))
          (Finite (INR (S n) * (normalized b * normalized b)))
          (Finite (INR (S n) * normalized b))
          (nearExtreme b).
Proof.
  rewrite accumulate_eq. unfold absolutes, squares.
  rewrite !map_repeat, !Rsum_repeat, Rmaximum_repeat by apply Rabs_pos.
  now rewrite existsb_repeat.
Qed.

End WindowBounds.

Section SilenceAndOrder.
Import Analyzer.
Local Open Scope R_scope.

Lemma toDBFS_zero : toDBFS (Finite 0) = NegInf.
Proof. unfold toDBFS. rewrite jgt_finite_0, Rltb_false by lra. reflexivity. Qed.

Lemma toDBFS_NaN : toDBFS NaN = NegInf.
Proof. reflexivity. Qed.

Lemma toDBFS_pos (x : R) : 0 < x -> toDBFS (Finite x) = Finite (20 * log10 x).
Proof.
  intro H. unfold toDBFS.
  rewrite jgt_finite_0, Rltb_true, jlog10_pos by exact H. reflexivity.
Qed.

Lemma jlt_NegInf_threshold : jlt NegInf silenceThreshold = true.
Proof. reflexivity. Qed.

Lemma normalized_x00 : normalized x00 = -1.
Proof. unfold normalized. simpl. lra. Qed.

Lemma normalized_x80 : normalized x80 = 0.
Proof. unfold normalized. simpl. lra. Qed.

(** The metrics of a window that repeats one byte, before the levels are
    converted. *)
Lemma rmsLinearOf_repeat (b : byte) (n : nat) :
  rmsLinearOf (repeat b (S n)) = Finite (Rabs (normalized b)).
Proof.
  unfold rmsLinearOf. rewrite accumulate_repeat, repeat_length.
  cbn [sumSquares]. unfold of_nat.
  pose proof (pos_INR n) as Hn. rewrite S_INR in *.
  rewrite jdiv_finite by lra.
  replace ((INR n + 1) * (normalized b * normalized b) / (INR n + 1))
    with (Rsqr (normalized b)) by (unfold Rsqr; field; lra).
  rewrite jsqrt_finite by apply Rle_0_sqr.
  now rewrite sqrt_Rsqr_abs.
Qed.

Lemma dcOffset_repeat (last : jsnum) (b : byte) (n : nat) :
  dcOffset (snd (calculateMetrics last (repeat b (S n)))) = Finite (normalized b).
Proof.
  unfold calculateMetrics. cbn [snd dcOffset].
  rewrite accumulate_repeat, repeat_length. cbn [sumValues]. unfold of_nat.
  pose proof (pos_INR n) as Hn. rewrite S_INR in *.
  rewrite jdiv_finite by lra. f_equal. field. lra.
Qed.

Lemma peakVolume_eq (last : jsnum) (w : Uint8Array) :
  peakVolume (snd (calculateMetrics last w)) =
  forDisplay (toDBFS (peakLinear (accumulate w))).
Proof. reflexivity. Qed.

Lemma rmsVolume_eq (last : jsnum) (w : Uint8Array) :
  rmsVolume (snd (calculateMetrics last w)) = forDisplay (toDBFS (rmsLinearOf w)).
Proof. reflexivity. Qed.

(** C2, as stated, fails: a window of zero bytes is a full-scale negative
    signal.  Its peak and rms are 0 dBFS, it clips, and its DC offset is
    -1. *)
Lemma zero_bytes_are_full_scale :
  let m := snd (calculateMetrics NegInf (repeat x00 2048)) in
  peakVolume m = Finite 0 /\ rmsVolume m = Finite 0 /\
  clipping m = true /\ dcOffset m = Finite (-1) /\
  ~ (peakVolume m = floorValue /\ rmsVolume m = floorValue /\
     clipping m = false /\ dcOffset m = Finite 0).
Proof.
  cbv zeta. change 2048%nat with (S 2047).
  assert (Habs : Rabs (normalized x00) = 1).
  { rewrite normalized_x00. unfold Rabs. destruct (Rcase_abs (-1)); lra. }
  assert (Hdb : toDBFS (Finite 1) = Finite 0).
  { rewrite toDBFS_pos by lra. rewrite log10_1. f_equal. lra. }
  assert (Hp : peakVolume (snd (calculateMetrics NegInf (repeat x00 (S 2047)))) = Finite 0).
  { rewrite peakVolume_eq, accumulate_repeat. cbn [peakLinear].
    rewrite Habs, Hdb. reflexivity. }
  assert (Hr : rmsVolume (snd (calculateMetrics NegInf (repeat x00 (S 2047)))) = Finite 0).
  { rewrite rmsVolume_eq, rmsLinearOf_repeat, Habs, Hdb. reflexivity. }
  assert (Hc : clipping (snd (calculateMetrics NegInf (repeat x00 (S 2047)))) = true).
  { rewrite clipping_existsb, existsb_repeat. reflexivity. }
  assert (Hd : dcOffset (snd (calculateMetrics NegInf (repeat x00 (S 2047)))) = Finite (-1)).
  { rewrite dcOffset_repeat, normalized_x00. reflexivity. }
  repeat split; try assumption.
  intros [_ [_ [Hc' _]]]. rewrite Hc in Hc'. discriminate.
Qed.

(** C2, amended: a window whose every byte is 128, the midpoint that
    stands for zero amplitude, gives peak and rms at the floor, no
    clipping and a DC offset of 0; the tick counts as silent and every
    number in the snapshot is finite. *)
Theorem midpoint_window_is_silence (last : jsnum) (w : Uint8Array) :
  w <> [] ->
  Forall (fun b => b = x80) w ->
  let m := snd (calculateMetrics last w) in
  peakVolume m = floorValue /\ rmsVolume m = floorValue /\
  clipping m = false /\ dcOffset m = Finite 0 /\
  isSilent m = true /\
  isFinite (peakVolume m) = true /\ isFinite (rmsVolume m) = true /\
  isFinite (noiseLevel m) = true /\ isFinite (dcOffset m) = true.
Proof.
  intros Hne Hall. cbv zeta.
  rewrite (constant_window Hall).
  destruct (length w) as [| n] eqn:Hlen.
  { destruct w; [contradiction | discriminate]. }
  assert (Habs : Rabs (normalized x80) = 0).
  { rewrite normalized_x80. apply Rabs_R0. }
  assert (Hp : peakVolume (snd (calculateMetrics last (repeat x80 (S n)))) = floorValue).
  { rewrite peakVolume_eq, accumulate_repeat. cbn [peakLinear].
    rewrite Habs, toDBFS_zero. reflexivity. }
  assert (Hr : rmsVolume (snd (calculateMetrics last (repeat x80 (S n)))) = floorValue).
  { rewrite rmsVolume_eq, rmsLinearOf_repeat, Habs, toDBFS_zero. reflexivity. }
  assert (Hd : dcOffset (snd (calculateMetrics last (repeat x80 (S n)))) = Finite 0).
  { rewrite dcOffset_repeat, normalized_x80. reflexivity. }
  rewrite Hp, Hr, Hd.
  repeat split; try reflexivity.
  - rewrite clipping_existsb, existsb_repeat. reflexivity.
  - unfold calculateMetrics. cbn [snd isSilent].
    fold (rmsLinearOf (repeat x80 (S n))).
    rewrite rmsLinearOf_repeat, Habs, toDBFS_zero. reflexivity.
  - unfold calculateMetrics. cbn [snd noiseLevel]. apply forDisplay_finite.
Qed.

(** The amended C2 at the window of 2048 midpoint bytes. *)
Lemma midpoint_window_is_silence_witness :
  let m := snd (calculateMetrics NegInf (repeat x80 2048)) in
  peakVolume m = floorValue /\ rmsVolume m = floorValue /\
  clipping m = false /\ dcOffset m = Finite 0.
Proof.
  assert (Hne : repeat x80 2048 <> []) by discriminate.
  assert (Hall : Forall (fun b => b = x80) (repeat x80 2048)).
  { apply Forall_forall. intros b Hb. exact (repeat_spec _ _ _ Hb). }
  destruct (midpoint_window_is_silence NegInf Hne Hall) as (H1 & H2 & H3 & H4 & _).
  cbv zeta. repeat split; assumption.
Defined.

End SilenceAndOrder.

Section LevelOrder.
Import Analyzer.
Local Open Scope R_scope.

Lemma rmsLinearOf_empty : rmsLinearOf [] = NaN.
Proof.
  unfold rmsLinearOf, accumulate, of_nat. cbn [fold_left accum0 sumSquares length INR].
  now rewrite jdiv_zero_zero.
Qed.

(** The rms of a non-empty window, as a real number. *)
Lemma rmsLinearOf_nonempty (w : Uint8Array) :
  w <> [] ->
  rmsLinearOf w = Finite (sqrt (Rsum (squares w) / INR (length w))).
Proof.
  intro Hne. unfold rmsLinearOf, of_nat. rewrite accumulate_eq. cbn [sumSquares].
  assert (Hlen : 0 < INR (length w)).
  { apply lt_0_INR. destruct w; [contradiction | simpl; lia]. }
  rewrite jdiv_finite by lra.
  rewrite jsqrt_finite; [reflexivity |].
  apply Rmult_le_pos; [apply Rsum_squares_nonneg |].
  left. now apply Rinv_0_lt_compat.
Qed.

(** C9: in every snapshot the rms level is at most the peak level, which
    is at most 0 dBFS; both are finite. *)
Theorem rms_le_peak_le_full_scale (last : jsnum) (w : Uint8Array) :
  let m := snd (calculateMetrics last w) in
  exists p r : R,
    peakVolume m = Finite p /\ rmsVolume m = Finite r /\ r <= p /\ p <= 0.
Proof.
  cbv zeta. rewrite peakVolume_eq, rmsVolume_eq.
  destruct w as [| b0 w0].
  { rewrite rmsLinearOf_empty. unfold accumulate. cbn [fold_left accum0 peakLinear].
    rewrite toDBFS_zero, toDBFS_NaN.
    exists (-100), (-100). repeat split; try reflexivity; lra. }
  set (w := b0 :: w0).
  assert (Hne : w <> []) by discriminate.
  rewrite (rmsLinearOf_nonempty Hne), accumulate_eq. cbn [peakLinear].
  set (P := Rmaximum (absolutes w)).
  set (S := Rsum (squares w)).
  set (n := INR (length w)).
  assert (Hn : 1 <= n).
  { unfold n, w. change (length (b0 :: w0)) with (Datatypes.S (length w0)).
    rewrite S_INR. pose proof (pos_INR (length w0)). lra. }
  assert (HP0 : 0 <= P) by apply Rmaximum_nonneg.
  assert (HP1 : P <= 1) by apply Rmaximum_absolutes_le_1.
  assert (Hlow : P * P <= S) by apply peak_square_le_sum.
  assert (Hup : S <= n * (P * P)) by apply sum_squares_le_peak.
  assert (Hinv : 0 < / n) by (apply Rinv_0_lt_compat; lra).
  destruct (Rle_lt_dec P 0) as [Hz | Hpos].
  - (* silence: both levels are replaced by the floor *)
    assert (P = 0) by lra.
    assert (HS : S = 0) by nra.
    rewrite HS. unfold Rdiv. rewrite Rmult_0_l, sqrt_0.
    replace P with 0 by lra. rewrite toDBFS_zero.
    exists (-100), (-100). repeat split; try reflexivity; lra.
  - assert (HSpos : 0 < S) by nra.
    assert (Hmean : 0 < S / n) by (unfold Rdiv; nra).
    assert (Hle : S / n <= P * P).
    { unfold Rdiv. apply Rmult_le_reg_r with n; [lra |].
      rewrite Rmult_assoc, Rinv_l by lra. lra. }
    assert (Hrms : sqrt (S / n) <= P).
    { rewrite <- (sqrt_square P) by lra. now apply sqrt_le_1_alt. }
    assert (Hrpos : 0 < sqrt (S / n)) by now apply sqrt_lt_R0.
    rewrite !toDBFS_pos by assumption.
    exists (20 * log10 P), (20 * log10 (sqrt (S / n))).
    repeat split.
    + pose proof (log10_le Hrpos Hrms). lra.
    + pose proof (log10_nonpos Hpos HP1). lra.
Qed.

(** *** The noise level across ticks *)

Lemma rmsDBFS_not_NaN (w : Uint8Array) : rmsDBFS w <> NaN.
Proof.
  unfold rmsDBFS. destruct w as [| b w].
  - rewrite rmsLinearOf_empty. discriminate.
  - rewrite rmsLinearOf_nonempty by discriminate.
    unfold toDBFS. rewrite jgt_finite_0. unfold Rltb.
    destruct (Rlt_dec 0 _) as [Hpos | Hnpos]; [| discriminate].
    rewrite jlog10_pos by exact Hpos. discriminate.
Qed.

Lemma calculateMetrics_noise (last : jsnum) (w : Uint8Array) :
  fst (calculateMetrics last w) = updateNoiseLevel last (rmsDBFS w).
Proof. reflexivity. Qed.

Lemma noiseLevelAfter_snoc (ws : list Uint8Array) (w : Uint8Array) :
  noiseLevelAfter (ws ++ [w]) = updateNoiseLevel (noiseLevelAfter ws) (rmsDBFS w).
Proof. unfold noiseLevelAfter. now rewrite fold_left_app. Qed.

Lemma noiseLevelAfter_not_NaN (ws : list Uint8Array) : noiseLevelAfter ws <> NaN.
Proof.
  induction ws as [| w ws IH] using rev_ind.
  - discriminate.
  - rewrite noiseLevelAfter_snoc. unfold updateNoiseLevel.
    destruct (jlt (rmsDBFS w) silenceThreshold); [| exact IH].
    apply jmax_not_NaN; [exact IH | apply rmsDBFS_not_NaN].
Qed.

(** C3: from the initial -Infinity, a tick whose rms level is below the
    silence threshold of -50 replaces the noise level by the maximum of
    itself and that rms level, any other tick leaves it as it is; so the
    noise level never decreases from one tick to the next. *)
Theorem noise_level_peak_hold (ws : list Uint8Array) (w : Uint8Array) :
  noiseLevelAfter [] = NegInf
  /\ silenceThreshold = Finite (-50)
  /\ isSilent (snd (calculateMetrics (noiseLevelAfter ws) w))
     = jlt (rmsDBFS w) (Finite (-50))
  /\ noiseLevelAfter (ws ++ [w])
     = (if jlt (rmsDBFS w) (Finite (-50))
        then jmax (noiseLevelAfter ws) (rmsDBFS w)
        else noiseLevelAfter ws)
  /\ jle (noiseLevelAfter ws) (noiseLevelAfter (ws ++ [w])).
Proof.
  split; [reflexivity |]. split; [reflexivity |]. split; [reflexivity |].
  rewrite noiseLevelAfter_snoc. unfold updateNoiseLevel.
  change silenceThreshold with (Finite (-50)).
  split; [reflexivity |].
  pose proof (noiseLevelAfter_not_NaN ws) as Hlast.
  destruct (jlt (rmsDBFS w) (Finite (-50))).
  - apply jle_jmax_l; [exact Hlast | apply rmsDBFS_not_NaN].
  - now apply jle_refl.
Qed.

End LevelOrder.

(* ================================================================= *)
(** ** Codec negotiation *)

Section Negotiation.
Import Audio.
Local Open Scope string_scope.

Lemma chooseOptions_find (supported : string -> bool) :
  chooseOptions supported = find supported candidates.
Proof.
  unfold chooseOptions, candidates. cbn [find].
  destruct (supported "audio/webm;codecs=opus"),
           (supported "audio/ogg;codecs=opus"),
           (supported "audio/webm"); reflexivity.
Qed.

(** The recorder [startRecording] leaves behind, when its guards pass: the
    one the host constructs for the chosen options. *)
Lemma startRecording_constructs (host : Host) (st : RecordingVars) :
  monitoring st = true -> mediaStream st = true ->
  mediaRecorderSupported st = true -> isRecording st = false ->
  mediaRecorder (fst (startRecording host st)) =
  match construct host (chooseOptions (isTypeSupported host)) with
  | inl mime => Some (mkRecorder Recording mime)
  | inr _ => mediaRecorder st
  end.
Proof.
  intros H1 H2 H3 H4. unfold startRecording. rewrite H1, H2, H3, H4. cbn [negb orb].
  destruct (construct host (chooseOptions (isTypeSupported host))); reflexivity.
Qed.

(** C4: the options of a new recorder name the first supported format of
    the list Opus in WebM, Opus in Ogg, WebM, and none (the platform
    default) when no format is supported; with Opus in WebM unsupported
    and Opus in Ogg supported the choice is Opus in Ogg whatever the
    support of WebM, and the recorder is constructed with the chosen
    options in every case. *)
Theorem negotiation_selects_first_supported (host : Host) :
  candidates = ["audio/webm;codecs=opus"; "audio/ogg;codecs=opus"; "audio/webm"]
  /\ chooseOptions (isTypeSupported host) = find (isTypeSupported host) candidates
  /\ (isTypeSupported host "audio/webm;codecs=opus" = false ->
      isTypeSupported host "audio/ogg;codecs=opus" = true ->
      chooseOptions (isTypeSupported host) = Some "audio/ogg;codecs=opus")
  /\ ((forall m, In m candidates -> isTypeSupported host m = false) ->
      chooseOptions (isTypeSupported host) = None)
  /\ mediaRecorder (fst (startRecording host readyToRecord)) =
     match construct host (find (isTypeSupported host) candidates) with
     | inl mime => Some (mkRecorder Recording mime)
     | inr _ => None
     end.
Proof.
  split; [reflexivity |]. split; [apply chooseOptions_find |]. split; [| split].
  - intros Hw Ho. unfold chooseOptions. now rewrite Hw, Ho.
  - intro Hnone. unfold chooseOptions.
    rewrite !Hnone by (unfold candidates; simpl; auto). reflexivity.
  - rewrite <- chooseOptions_find.
    now rewrite startRecording_constructs by reflexivity.
Qed.

End Negotiation.

(* ================================================================= *)
(** ** The recording lifecycle *)

Section BlobFacts.

Lemma blobSize_new_Blob (chunks : list Blob) (type : string) :
  blobSize (new_Blob chunks type) = list_sum (map blobSize chunks).
Proof.
  unfold blobSize, new_Blob. cbn [blobData].
  induction chunks as [| c chunks IH]; [reflexivity |].
  cbn [map concat list_sum fold_right]. rewrite length_app, IH. reflexivity.
Qed.

Lemma assembled_size_positive (b : Blob) :
  assembledFromNonEmpty b -> (0 < blobSize b)%nat.
Proof.
  intros (chunks & type & Hne & Hall & ->).
  rewrite blobSize_new_Blob.
  destruct Hall as [| c chunks Hc _]; [contradiction |].
  cbn [map list_sum fold_right]. lia.
Qed.

Lemma keptChunks_nonempty (chunks : list Blob) :
  nonEmptyChunks (keptChunks chunks).
Proof.
  apply Forall_forall. intros c Hc.
  apply filter_In in Hc. destruct Hc as [_ Hc]. now apply Nat.ltb_lt.
Qed.

Lemma keptChunks_app (a b : list Blob) :
  keptChunks (a ++ b) = keptChunks a ++ keptChunks b.
Proof. apply filter_app. Qed.

End BlobFacts.

Section AnalyzerRecording.
Import Analyzer.

Lemma recRun_app (st : RecordingVars) (es1 es2 : list RecEvent) :
  recRun st (es1 ++ es2) =
  let (st1, out1) := recRun st es1 in
  let (st2, out2) := recRun st1 es2 in
  (st2, out1 ++ out2).
Proof.
  revert st. induction es1 as [| e es1 IH]; intro st.
  - cbn [app recRun]. destruct (recRun st es2). reflexivity.
  - cbn [app recRun]. destruct (recStep st e) as [st1 out1].
    rewrite IH. destruct (recRun st1 es1) as [st2 out2].
    destruct (recRun st2 es2) as [st3 out3]. now rewrite app_assoc.
Qed.

(** A run of data events appends the chunks of positive size, in order. *)
Lemma recRun_data (ds : list Blob) (st : RecordingVars) :
  recRun st (map DataAvailable ds) =
  (mkRecording (mediaRecorder st) (recordedChunks st ++ keptChunks ds)
               (recordingTimerId st), []).
Proof.
  revert st. induction ds as [| d ds IH]; intro st.
  - cbn [map recRun keptChunks filter]. rewrite app_nil_r. now destruct st.
  - cbn [map recRun recStep]. rewrite IH.
    unfold ondataavailable, keptChunks. cbn [filter].
    destruct (0 <? blobSize d)%nat; cbn [mediaRecorder recordedChunks recordingTimerId app].
    + now rewrite <- app_assoc.
    + reflexivity.
Qed.

(** The outcome of a whole recording, from a ready recorder. *)
Lemma recordingSession_outcome (mime : string) (onStart onStop onError : Callback)
    (before after : list Blob) :
  snd (recRun (recorderReady mime)
              (recordingSession onStart onStop onError before after)) =
  call0 onStart ++
  match keptChunks (before ++ after) with
  | [] => callWithError onError "NoDataRecorded"
  | chunks => callWithUrl onStop (new_Blob chunks (str_or mime "audio/webm"))
  end.
Proof.
  unfold recordingSession, recorderReady.
  cbn [recRun recStep startRecording mediaRecorder recorderState mimeType
       _onRecordingStopCallback _onErrorCallback].
  rewrite recRun_app, recRun_data.
  cbn [recRun recStep stopRecording mediaRecorder recorderState mimeType
       recordedChunks recordingTimerId app].
  rewrite recRun_app, recRun_data.
  cbn [recRun recStep mediaRecorder recordedChunks recordingTimerId snd app].
  rewrite <- keptChunks_app.
  unfold onstop. cbn [recordedChunks mimeType _onErrorCallback _onRecordingStopCallback].
  destruct (keptChunks (before ++ after)); now rewrite !app_nil_r.
Qed.

Lemma analyzer_artifacts_call0 (cb : Callback) (out : list Called) :
  artifacts (call0 cb ++ out) = artifacts out.
Proof. destruct cb; reflexivity. Qed.

End AnalyzerRecording.

Section AudioRecording.
Import Audio.

Lemma audio_recRun_app (host : Host) (st : RecordingVars) (es1 es2 : list RecEvent) :
  recRun host st (es1 ++ es2) =
  let (st1, out1) := recRun host st es1 in
  let (st2, out2) := recRun host st1 es2 in
  (st2, out1 ++ out2).
Proof.
  revert st. induction es1 as [| e es1 IH]; intro st.
  - cbn [app recRun]. destruct (recRun host st es2). reflexivity.
  - cbn [app recRun]. destruct (recStep host st e) as [st1 out1].
    rewrite IH. destruct (recRun host st1 es1) as [st2 out2].
    destruct (recRun host st2 es2) as [st3 out3]. now rewrite app_assoc.
Qed.

Lemma audio_recRun_data (host : Host) (ds : list Blob) (st : RecordingVars) :
  recRun host st (map DataAvailable ds) =
  (mkRecording (monitoring st) (mediaStream st) (mediaRecorderSupported st)
               (isRecording st) (mediaRecorder st)
               (audioChunks st ++ keptChunks ds), []).
Proof.
  revert st. induction ds as [| d ds IH]; intro st.
  - cbn [map recRun keptChunks filter]. rewrite app_nil_r. now destruct st.
  - cbn [map recRun recStep]. rewrite IH.
    unfold ondataavailable, keptChunks. cbn [filter].
    destruct (0 <? blobSize d)%nat;
      cbn [monitoring mediaStream mediaRecorderSupported isRecording
           mediaRecorder audioChunks app].
    + now rewrite <- app_assoc.
    + reflexivity.
Qed.

(** The calls into the user interface over a whole recording, on a host
    whose constructor yields a recorder of type [mime]. *)
Lemma audio_recordingSession_outcome (supported : string -> bool) (mime : string)
    (before after : list Blob) :
  snd (recRun (mkHost supported (fun _ => inl mime)) readyToRecord
              (recordingSession before after)) =
  [setRecordingStatus "recStatusRecording" "info" NoParams;
   hidePlayback; showRecordingSection true; updateButtonStates true true true;
   setRecordingStatus "recStatusStopping" "info" NoParams] ++
  match keptChunks (before ++ after) with
  | [] =>
      [setRecordingStatus "recStatusEmpty" "warning" NoParams;
       updateButtonStates true false true; hidePlayback]
  | chunks =>
      let audioBlob := new_Blob chunks (str_or mime "audio/webm") in
      [displayPlayback audioBlob; showRecordingSection true;
       setRecordingStatus "recStatusFinished" "success"
         (SizeAndType (blobSize audioBlob) (str_or (blobType audioBlob) "N/A"));
       updateButtonStates true false true]
  end.
Proof.
  unfold recordingSession, readyToRecord.
  cbn [recRun recStep startRecording monitoring mediaStream mediaRecorderSupported
       isRecording negb orb construct].
  rewrite audio_recRun_app, audio_recRun_data.
  cbn [recRun recStep stopRecording monitoring mediaStream mediaRecorderSupported
       isRecording mediaRecorder recorderState mimeType audioChunks app].
  rewrite audio_recRun_app, audio_recRun_data.
  cbn [recRun recStep monitoring mediaStream mediaRecorderSupported
       isRecording mediaRecorder audioChunks snd app].
  rewrite <- keptChunks_app.
  unfold onstop, buttons.
  cbn [audioChunks mediaRecorder mimeType monitoring mediaRecorderSupported].
  destruct (keptChunks (before ++ after)); reflexivity.
Qed.

End AudioRecording.

Section Finalization.
Local Open Scope string_scope.

(** C5: when no chunk was collected over a whole recording, finalization
    takes the failure path: js/analyzer.js calls the error callback with
    NoDataRecorded and not the success callback, js/audio.js reports the
    empty recording and hides the player; in both no artifact is built.
    Otherwise the collected chunks are concatenated, in order, into one
    blob of the recorder's type, which the success path hands out. *)
Theorem finalize_fails_without_chunks
    (mime : string) (onStart onStop onError : Analyzer.Callback)
    (hStop hError : nat) (supported : string -> bool)
    (before after : list Blob) :
  let chunks := keptChunks (before ++ after) in
  let artifact := new_Blob chunks (str_or mime "audio/webm") in
  let session cbStop cbError :=
    snd (Analyzer.recRun (Analyzer.recorderReady mime)
           (Analyzer.recordingSession onStart cbStop cbError before after)) in
  let shown :=
    snd (Audio.recRun (Audio.mkHost supported (fun _ => inl mime))
           Audio.readyToRecord (Audio.recordingSession before after)) in
  session (Some hStop) (Some hError) =
    (Analyzer.call0 onStart ++
     match chunks with
     | [] => [Analyzer.InvokeWithError hError "NoDataRecorded"]
     | _ => [Analyzer.InvokeWithUrl hStop artifact]
     end)%list
  /\ Analyzer.artifacts (session onStop onError) =
     match chunks, onStop with
     | _ :: _, Some _ => [artifact]
     | _, _ => []
     end
  /\ shown =
     ([Audio.setRecordingStatus "recStatusRecording" "info" Audio.NoParams;
       Audio.hidePlayback; Audio.showRecordingSection true;
       Audio.updateButtonStates true true true;
       Audio.setRecordingStatus "recStatusStopping" "info" Audio.NoParams] ++
      match chunks with
      | [] =>
          [Audio.setRecordingStatus "recStatusEmpty" "warning" Audio.NoParams;
           Audio.updateButtonStates true false true; Audio.hidePlayback]
      | _ =>
          [Audio.displayPlayback artifact; Audio.showRecordingSection true;
           Audio.setRecordingStatus "recStatusFinished" "success"
             (Audio.SizeAndType (blobSize artifact) (str_or (blobType artifact) "N/A"));
           Audio.updateButtonStates true false true]
      end)%list
  /\ Audio.artifacts shown = match chunks with [] => [] | _ => [artifact] end
  /\ blobData artifact = concat (map blobData chunks)
  /\ blobType artifact = str_or mime "audio/webm".
Proof.
  cbv beta zeta.
  rewrite !recordingSession_outcome, audio_recordingSession_outcome.
  rewrite analyzer_artifacts_call0.
  destruct (keptChunks (before ++ after)) as [| c cs], onStop, onError;
    repeat split.
Qed.

End Finalization.

Section ChunkInvariant.

Lemma analyzer_artifacts_app (a b : list Analyzer.Called) :
  Analyzer.artifacts (a ++ b) = Analyzer.artifacts a ++ Analyzer.artifacts b.
Proof. apply flat_map_app. Qed.

Lemma audio_artifacts_app (a b : list Audio.UiCall) :
  Audio.artifacts (a ++ b) = Audio.artifacts a ++ Audio.artifacts b.
Proof. apply flat_map_app. Qed.

Lemma analyzer_stopRecording_chunks (a b : Analyzer.Callback)
    (st : Analyzer.RecordingVars) :
  Analyzer.recordedChunks (Analyzer.stopRecording a b st) = Analyzer.recordedChunks st.
Proof.
  unfold Analyzer.stopRecording.
  destruct (Analyzer.mediaRecorder st) as [r |]; [| reflexivity].
  destruct (Analyzer.recorderState r); reflexivity.
Qed.

(** One event of js/analyzer.js keeps the buffer free of empty chunks and
    hands out only blobs assembled from such a buffer. *)
Lemma analyzer_recStep_chunks (st : Analyzer.RecordingVars) (e : Analyzer.RecEvent) :
  nonEmptyChunks (Analyzer.recordedChunks st) ->
  nonEmptyChunks (Analyzer.recordedChunks (fst (Analyzer.recStep st e)))
  /\ Forall assembledFromNonEmpty (Analyzer.artifacts (snd (Analyzer.recStep st e))).
Proof.
  unfold nonEmptyChunks. intro Hinv.
  destruct e as [a b c | a b | d | | n m |]; cbn [Analyzer.recStep].
  - unfold Analyzer.startRecording.
    destruct (Analyzer.mediaRecorder st) as [r |].
    + destruct (Analyzer.recorderState r); cbn.
      * split; [constructor | destruct a; constructor].
      * split; [exact Hinv | constructor].
    + cbn. split; [exact Hinv | destruct c; constructor].
  - cbn [fst snd]. rewrite analyzer_stopRecording_chunks.
    split; [exact Hinv | constructor].
  - unfold Analyzer.ondataavailable. cbn [fst snd].
    destruct (0 <? blobSize d)%nat eqn:Hd; cbn.
    + split; [| constructor]. apply Forall_app. split; [exact Hinv |].
      constructor; [now apply Nat.ltb_lt | constructor].
    + split; [exact Hinv | constructor].
  - destruct (Analyzer.mediaRecorder st) as [r |]; [| split; [exact Hinv | constructor]].
    unfold Analyzer.onstop, Analyzer.inactive.
    cbn [Analyzer.mimeType Analyzer._onRecordingStopCallback Analyzer._onErrorCallback].
    destruct (Analyzer.recordedChunks st) as [| c cs] eqn:Hchunks.
    + cbn. split; [constructor |].
      destruct (Analyzer._onErrorCallback r); constructor.
    + cbn [fst snd Analyzer.recordedChunks]. split; [constructor |].
      destruct (Analyzer._onRecordingStopCallback r); cbn; [| constructor].
      constructor; [| constructor].
      exists (c :: cs), (str_or (Analyzer.mimeType r) "audio/webm").
      repeat split; [discriminate | exact Hinv].
  - destruct (Analyzer.mediaRecorder st) as [r |]; cbn.
    + split; [exact Hinv |]. destruct (Analyzer._onErrorCallback r); constructor.
    + split; [exact Hinv | constructor].
  - destruct (Analyzer.recordingTimerId st) as [[a b] |]; cbn [fst snd].
    + rewrite analyzer_stopRecording_chunks. split; [exact Hinv | constructor].
    + split; [exact Hinv | constructor].
Qed.

Lemma analyzer_recRun_chunks (es : list Analyzer.RecEvent) :
  forall st : Analyzer.RecordingVars,
  nonEmptyChunks (Analyzer.recordedChunks st) ->
  nonEmptyChunks (Analyzer.recordedChunks (fst (Analyzer.recRun st es)))
  /\ Forall assembledFromNonEmpty (Analyzer.artifacts (snd (Analyzer.recRun st es))).
Proof.
  induction es as [| e es IH]; intros st Hinv.
  - cbn. split; [exact Hinv | constructor].
  - cbn [Analyzer.recRun].
    destruct (@analyzer_recStep_chunks st e Hinv) as [H1 H2].
    destruct (Analyzer.recStep st e) as [st1 out1]. cbn [fst snd] in H1, H2.
    destruct (IH st1 H1) as [H3 H4].
    destruct (Analyzer.recRun st1 es) as [st2 out2]. cbn [fst snd] in *.
    split; [exact H3 |].
    rewrite analyzer_artifacts_app. apply Forall_app. now split.
Qed.

(** The same for js/audio.js. *)
Lemma audio_recStep_chunks (host : Audio.Host) (st : Audio.RecordingVars)
    (e : Audio.RecEvent) :
  nonEmptyChunks (Audio.audioChunks st) ->
  nonEmptyChunks (Audio.audioChunks (fst (Audio.recStep host st e)))
  /\ Forall assembledFromNonEmpty (Audio.artifacts (snd (Audio.recStep host st e))).
Proof.
  unfold nonEmptyChunks. intro Hinv.
  destruct e as [| | d | | n]; cbn [Audio.recStep].
  - unfold Audio.startRecording.
    destruct (negb (Audio.monitoring st) || negb (Audio.mediaStream st)
              || negb (Audio.mediaRecorderSupported st)).
    + cbn. split; [exact Hinv | constructor].
    + destruct (Audio.isRecording st).
      * cbn. split; [exact Hinv | constructor].
      * destruct (Audio.construct host _); cbn; split; constructor.
  - unfold Audio.stopRecording.
    destruct (Audio.isRecording st); [| cbn; split; [exact Hinv | constructor]].
    destruct (Audio.mediaRecorder st) as [r |]; [| cbn; split; [exact Hinv | constructor]].
    destruct (Audio.recorderState r); cbn; (split; [exact Hinv | constructor]).
  - unfold Audio.ondataavailable. cbn [fst snd].
    destruct (0 <? blobSize d)%nat eqn:Hd; cbn.
    + split; [| constructor]. apply Forall_app. split; [exact Hinv |].
      constructor; [now apply Nat.ltb_lt | constructor].
    + split; [exact Hinv | constructor].
  - unfold Audio.onstop.
    destruct (Audio.audioChunks st) as [| c cs] eqn:Hchunks.
    + cbn. rewrite Hchunks. split; constructor.
    + cbn [fst snd Audio.audioChunks Audio.artifacts flat_map app].
      split; [constructor |]. constructor; [| constructor].
      eexists (c :: cs), _. repeat split; [discriminate | exact Hinv].
  - cbn. split; [exact Hinv | constructor].
Qed.

Lemma audio_recRun_chunks (host : Audio.Host) (es : list Audio.RecEvent) :
  forall st : Audio.RecordingVars,
  nonEmptyChunks (Audio.audioChunks st) ->
  nonEmptyChunks (Audio.audioChunks (fst (Audio.recRun host st es)))
  /\ Forall assembledFromNonEmpty (Audio.artifacts (snd (Audio.recRun host st es))).
Proof.
  induction es as [| e es IH]; intros st Hinv.
  - cbn. split; [exact Hinv | constructor].
  - cbn [Audio.recRun].
    destruct (@audio_recStep_chunks host st e Hinv) as [H1 H2].
    destruct (Audio.recStep host st e) as [st1 out1]. cbn [fst snd] in H1, H2.
    destruct (IH st1 H1) as [H3 H4].
    destruct (Audio.recRun host st1 es) as [st2 out2]. cbn [fst snd] in *.
    split; [exact H3 |].
    rewrite audio_artifacts_app. apply Forall_app. now split.
Qed.

End ChunkInvariant.

Section NonEmptyArtifacts.

Lemma Forall_assembled_positive (blobs : list Blob) :
  Forall assembledFromNonEmpty blobs ->
  Forall (fun b => assembledFromNonEmpty b /\ (0 < blobSize b)%nat) blobs.
Proof.
  intro H. eapply Forall_impl; [| exact H]. cbv beta.
  intros b Hb. split; [exact Hb | now apply assembled_size_positive].
Qed.

(** C10: a data event appends its chunk only when the chunk's size is
    positive; so over every sequence of calls and recorder events, from a
    module with an empty buffer, the buffer holds no empty chunk, and
    every blob handed out on the success path is the concatenation of at
    least one chunk, none of them empty, and has a positive size. *)
Theorem recorded_chunks_are_non_empty
    (d : Blob) (st : Analyzer.RecordingVars) (st' : Audio.RecordingVars)
    (recorder : option Analyzer.MediaRecorder) (es : list Analyzer.RecEvent)
    (host : Audio.Host) (recorder' : option Audio.MediaRecorder)
    (m s sup r : bool) (es' : list Audio.RecEvent) :
  let run := Analyzer.recRun (Analyzer.mkRecording recorder [] None) es in
  let run' := Audio.recRun host (Audio.mkRecording m s sup r recorder' []) es' in
  Analyzer.recordedChunks (Analyzer.ondataavailable d st) =
    Analyzer.recordedChunks st ++ (if (0 <? blobSize d)%nat then [d] else [])
  /\ Audio.audioChunks (Audio.ondataavailable d st') =
    Audio.audioChunks st' ++ (if (0 <? blobSize d)%nat then [d] else [])
  /\ nonEmptyChunks (Analyzer.recordedChunks (fst run))
  /\ Forall (fun b => assembledFromNonEmpty b /\ (0 < blobSize b)%nat)
            (Analyzer.artifacts (snd run))
  /\ nonEmptyChunks (Audio.audioChunks (fst run'))
  /\ Forall (fun b => assembledFromNonEmpty b /\ (0 < blobSize b)%nat)
            (Audio.artifacts (snd run')).
Proof.
  cbv zeta.
  assert (Hempty : nonEmptyChunks []) by constructor.
  destruct (@analyzer_recRun_chunks es (Analyzer.mkRecording recorder [] None) Hempty)
    as [Ha1 Ha2].
  destruct (@audio_recRun_chunks host es' (Audio.mkRecording m s sup r recorder' []) Hempty)
    as [Hb1 Hb2].
  repeat split; auto using Forall_assembled_positive.
  - unfold Analyzer.ondataavailable.
    destruct (0 <? blobSize d)%nat; cbn; [reflexivity | now rewrite app_nil_r].
  - unfold Audio.ondataavailable.
    destruct (0 <? blobSize d)%nat; cbn; [reflexivity | now rewrite app_nil_r].
Qed.

End NonEmptyArtifacts.

(* ================================================================= *)
(** ** The analysis loop *)

Section LoopFacts.
Import Analyzer.

Lemma copy_into_length (data array : Uint8Array) :
  length (copy_into data array) = length array.
Proof. unfold copy_into. rewrite length_app, length_firstn, length_skipn. lia. Qed.

Lemma new_Uint8Array_length (n : nat) : length (new_Uint8Array n) = n.
Proof. apply repeat_length. Qed.

Lemma withoutHandle_In (id : nat) (e : nat * Closure) (l : list (nat * Closure)) :
  In e (withoutHandle id l) -> In e l.
Proof. unfold withoutHandle. rewrite filter_In. tauto. Qed.

Lemma withoutHandle_Forall (P : nat * Closure -> Prop) (id : nat)
    (l : list (nat * Closure)) :
  Forall P l -> Forall P (withoutHandle id l).
Proof.
  intro H. apply Forall_forall. intros e He.
  apply withoutHandle_In in He. revert e He. now apply Forall_forall.
Qed.

Lemma callbackOf_In (id : nat) (l : list (nat * Closure)) (c : Closure) :
  callbackOf id l = Some c -> In (id, c) l.
Proof.
  unfold callbackOf. destruct (find _ l) as [[h c'] |] eqn:Hf; [| discriminate].
  cbn. intros [= ->]. apply find_some in Hf. destruct Hf as [Hin Heq].
  cbn in Heq. apply Nat.eqb_eq in Heq. now subst.
Qed.

Lemma stopAnalysis_analyserNode (st : State) :
  analyserNode (stopAnalysis st) = analyserNode st.
Proof. unfold stopAnalysis. destruct (animationFrameId st) as [[| n] |]; reflexivity. Qed.

Lemma stopAnalysis_sized (st : State) : sized st -> sized (stopAnalysis st).
Proof.
  intros [Hq Hn]. unfold stopAnalysis.
  destruct (animationFrameId st) as [[| n] |]; try (now split).
  split; [| exact Hn]. cbn.
  apply Forall_app in Hq. destruct Hq as [H1 H2].
  apply Forall_app. split; now apply withoutHandle_Forall.
Qed.

Lemma scheduleLoop_sized (c : Closure) (st : State) :
  sizedClosure c -> sized st -> sized (scheduleLoop c st).
Proof.
  intros Hc [Hq Hn]. split; [| exact Hn]. cbn.
  apply Forall_app in Hq. destruct Hq as [H1 H2].
  repeat (apply Forall_app; split); auto.
Qed.

Lemma startAnalysis_sized (m : MetricsCallback) (v : VisualizationCallback)
    (st : State) :
  sized st -> sized (startAnalysis m v st).
Proof.
  intros Hs. unfold startAnalysis.
  destruct (analyserNode st) as [node |] eqn:Hnode; [| exact Hs].
  destruct (audioContext st) as [ctx |]; [| exact Hs].
  assert (Hsize : sizedClosure
                    (mkClosure m v (new_Uint8Array (fftSize node))
                               (new_Uint8Array (frequencyBinCount node)) NegInf)).
  { destruct Hs as [_ Hn]. specialize (Hn node Hnode).
    unfold sizedClosure, frequencyBinCount. cbn.
    now rewrite !new_Uint8Array_length, Hn. }
  destruct ctx; try exact Hs;
    (destruct (truthy (animationFrameId st)); [exact Hs |]);
    apply scheduleLoop_sized; try exact Hsize; exact Hs.
Qed.

Lemma cleanup_sized (st : State) : sized st -> sized (cleanup st).
Proof.
  intro Hs. apply stopAnalysis_sized in Hs. destruct Hs as [Hq _].
  unfold cleanup. cbn [audioContext set_analyserNode].
  destruct (audioContext (stopAnalysis st)) as [[| |] |];
    (split; [exact Hq | cbn; discriminate]).
Qed.

Lemma react_sized (r : Reaction) :
  forall st : State, sized st -> sized (fst (react r st)).
Proof.
  induction r as [| | m v | | | a IHa b IHb]; intros st Hs; cbn [react fst];
    auto using stopAnalysis_sized, startAnalysis_sized, cleanup_sized.
  specialize (IHa st Hs). destruct (react a st) as [st1 [|]]; cbn [fst] in *; auto.
Qed.

Lemma ticksOf_app (sig : Signal) (a b : list Published) :
  ticksOf sig a -> ticksOf sig b -> ticksOf sig (a ++ b).
Proof.
  induction 1 as [| last t f x y rest Ht Hf Hrest IH]; intro Hb; [exact Hb |].
  rewrite <- app_assoc. constructor; auto.
Qed.

Lemma ticksOf_one (sig : Signal) (last : jsnum) (t f : Uint8Array) (x y : bool) :
  length t = FFT_SIZE -> length f = Nat.div2 FFT_SIZE ->
  ticksOf sig (tickOutput last (copy_into (timeDomain sig) t)
                          (copy_into (frequencyDomain sig) f) x y).
Proof.
  intros Ht Hf. rewrite <- app_nil_r. constructor; auto. constructor.
Qed.

(** Whether a subscriber returns does not depend on the state. *)
Lemma react_returns (r : Reaction) :
  forall st : State, snd (react r st) = returns r.
Proof.
  induction r as [| | m v | | | a IHa b IHb]; intro st; cbn [react returns snd];
    try reflexivity.
  specialize (IHa st). destruct (react a st) as [st1 ok]. cbn [snd] in IHa. subst ok.
  destruct (returns a); [apply IHb | reflexivity].
Qed.

(** The output of a tick that finds the analyser: the metrics of the
    array the analyser's time-domain data was copied into go to the
    metrics subscriber, if there is one; that array and the frequency
    array go to the visualization subscriber, if there is one and the
    metrics subscriber has returned. *)
Lemma processAudioLoop_exact (c : Closure) (sig : Signal) (st : State)
    (node : AnalyserNode) :
  analyserNode st = Some node ->
  let w := copy_into (timeDomain sig) (timeDataArray c) in
  let f := copy_into (frequencyDomain sig) (frequencyDataArray c) in
  snd (processAudioLoop c sig st) =
  tickOutput (lastNoiseLevel c) w f
    (match onMetricsUpdate c with Some _ => true | None => false end)
    (match onVisualizationUpdate c with
     | Some _ =>
         match onMetricsUpdate c with
         | Some subscriber =>
             returns (subscriber (snd (calculateMetrics (lastNoiseLevel c) w)))
         | None => true
         end
     | None => false
     end).
Proof.
  intro Hnode. cbv zeta. unfold processAudioLoop, tickOutput. rewrite Hnode.
  destruct (calculateMetrics _ _) as [noise metrics]. cbn [snd].
  destruct (onMetricsUpdate c) as [m |].
  - rewrite (surjective_pairing (react (m metrics) st)), react_returns.
    destruct (returns (m metrics)).
    + destruct (onVisualizationUpdate c) as [v |].
      * destruct (react (v _ _) _) as [st2 [|]]; reflexivity.
      * cbn. rewrite ?app_nil_r. reflexivity.
    + cbn [snd]. destruct (onVisualizationUpdate c); cbn; rewrite ?app_nil_r; reflexivity.
  - destruct (onVisualizationUpdate c) as [v |].
    + destruct (react (v _ _) st) as [st2 [|]]; reflexivity.
    + reflexivity.
Qed.

(** The output of a tick, whatever its subscribers do: the metrics of the
    array the analyser's time-domain data was copied into, to the metrics
    subscriber, and that array with the frequency array to the
    visualization subscriber. *)
Lemma processAudioLoop_output (c : Closure) (sig : Signal) (st : State) :
  exists toMetrics toVisualization,
    snd (processAudioLoop c sig st) =
    tickOutput (lastNoiseLevel c)
               (copy_into (timeDomain sig) (timeDataArray c))
               (copy_into (frequencyDomain sig) (frequencyDataArray c))
               toMetrics toVisualization.
Proof.
  unfold processAudioLoop, tickOutput.
  destruct (analyserNode st); [| now exists false, false].
  destruct (calculateMetrics _ _) as [noise metrics]. cbn [snd].
  destruct (onMetricsUpdate c) as [f |].
  - destruct (react (f metrics) st) as [st1 [|]].
    + destruct (onVisualizationUpdate c) as [g |].
      * destruct (react (g _ _) st1) as [st2 [|]]; now exists true, true.
      * exists true, false. cbn. rewrite ?app_nil_r. reflexivity.
    + exists true, false. cbn. rewrite ?app_nil_r. reflexivity.
  - destruct (onVisualizationUpdate c) as [g |].
    + destruct (react (g _ _) st) as [st2 [|]]; now exists false, true.
    + now exists false, false.
Qed.

Lemma processAudioLoop_sized (c : Closure) (sig : Signal) (st : State) :
  sizedClosure c -> sized st -> sized (fst (processAudioLoop c sig st)).
Proof.
  intros [Ht Hf] Hs. unfold processAudioLoop.
  destruct (analyserNode st); [| now apply stopAnalysis_sized].
  destruct (calculateMetrics _ _) as [noise metrics].
  set (c' := mkClosure _ _ _ _ noise).
  assert (Hc' : sizedClosure c').
  { unfold sizedClosure, c'. cbn. now rewrite !copy_into_length. }
  destruct (onMetricsUpdate c) as [f |].
  - pose proof (react_sized (f metrics) Hs) as H1.
    destruct (react (f metrics) st) as [st1 [|]]; cbn [fst] in *; [| exact H1].
    destruct (onVisualizationUpdate c) as [g |].
    + pose proof (react_sized (g (copy_into (timeDomain sig) (timeDataArray c))
                                 (copy_into (frequencyDomain sig) (frequencyDataArray c)))
                              H1) as H2.
      destruct (react _ st1) as [st2 [|]]; cbn [fst] in *; [| exact H2].
      now apply scheduleLoop_sized.
    + cbn [fst]. now apply scheduleLoop_sized.
  - destruct (onVisualizationUpdate c) as [g |].
    + pose proof (react_sized (g (copy_into (timeDomain sig) (timeDataArray c))
                                 (copy_into (frequencyDomain sig) (frequencyDataArray c)))
                              Hs) as H2.
      destruct (react _ st) as [st2 [|]]; cbn [fst] in *; [| exact H2].
      now apply scheduleLoop_sized.
    + cbn [fst]. now apply scheduleLoop_sized.
Qed.

Lemma runCallback_sized (sig : Signal) (acc : State * list Published) (id : nat) :
  sized (fst acc) -> ticksOf sig (snd acc) ->
  sized (fst (runCallback sig acc id)) /\ ticksOf sig (snd (runCallback sig acc id)).
Proof.
  destruct acc as [st out]. cbn [fst snd]. intros Hs Hout. unfold runCallback.
  destruct (callbackOf id (frameBatch (queue st))) as [c |] eqn:Hc; [| cbn; auto].
  apply callbackOf_In in Hc.
  set (st' := set_queue _ st).
  destruct Hs as [Hq Hn].
  apply Forall_app in Hq. destruct Hq as [H1 H2].
  assert (Hsc : sizedClosure c).
  { rewrite Forall_forall in H2. exact (H2 _ Hc). }
  assert (Hs' : sized st').
  { split; [| exact Hn]. cbn. apply Forall_app. split; [exact H1 |].
    now apply withoutHandle_Forall. }
  pose proof (processAudioLoop_sized sig Hsc Hs') as H3.
  destruct (processAudioLoop_output c sig st') as (x & y & H4).
  destruct (processAudioLoop c sig st') as [st'' out']. cbn [fst snd] in *.
  split; [exact H3 |]. subst out'.
  apply ticksOf_app; [exact Hout |]. destruct Hsc. now apply ticksOf_one.
Qed.

Lemma runCallbacks_sized (sig : Signal) (ids : list nat) :
  forall acc : State * list Published,
  sized (fst acc) -> ticksOf sig (snd acc) ->
  sized (fst (fold_left (runCallback sig) ids acc))
  /\ ticksOf sig (snd (fold_left (runCallback sig) ids acc)).
Proof.
  induction ids as [| id ids IH]; intros acc Hs Hout; cbn [fold_left]; [auto |].
  destruct (@runCallback_sized sig acc id Hs Hout) as [H1 H2]. now apply IH.
Qed.

(** A frame keeps the arrays at their lengths, and its output is that of
    ticks on arrays of these lengths. *)
Lemma runFrame_sized (sig : Signal) (st : State) :
  sized st ->
  sized (fst (runFrame sig st)) /\ ticksOf sig (snd (runFrame sig st)).
Proof.
  intros [Hq Hn]. unfold runFrame. apply runCallbacks_sized; [| constructor].
  split; [| exact Hn]. cbn. apply Forall_app in Hq. tauto.
Qed.

Lemma runFrame_idle (sig : Signal) (st : State) :
  frameCallbacks (queue st) = [] ->
  runFrame sig st = (set_queue (mkQueue [] [] (nextHandle (queue st))) st, []).
Proof. intro H. unfold runFrame. now rewrite H. Qed.

Lemma ticksOf_fromFullWindow (sig : Signal) (out : list Published) :
  ticksOf sig out -> Forall fromFullWindow out.
Proof.
  induction 1 as [| last t f x y rest Ht Hf Hrest IH]; [constructor |].
  unfold tickOutput. repeat (apply Forall_app; split); [| | exact IH].
  - destruct x; constructor; [| constructor].
    cbn. eexists _, _. split; [| reflexivity]. now rewrite copy_into_length.
  - destruct y; constructor; [| constructor].
    cbn. now rewrite !copy_into_length.
Qed.

Lemma windowsOf_fromFullWindow (es : list LoopEvent) (out : list Published) :
  windowsOf es out -> Forall fromFullWindow out.
Proof.
  induction 1 as [| m v es out H IH | es out H IH | sig ticks es out Ht H IH]; auto.
  apply Forall_app. split; [| exact IH]. now apply ticksOf_fromFullWindow with sig.
Qed.

End LoopFacts.

Section WindowLengths.
Import Analyzer.

Lemma loopStep_sized (st : State) (e : LoopEvent) :
  sized st -> sized (fst (loopStep st e)).
Proof.
  intro Hs. destruct e as [m v | | sig]; cbn [loopStep fst].
  - now apply startAnalysis_sized.
  - now apply stopAnalysis_sized.
  - now apply runFrame_sized.
Qed.

(** Throughout a run, whatever the subscribers do, every tick works on
    arrays of the lengths [startAnalysis] allocated. *)
Lemma loopRun_windows (es : list LoopEvent) :
  forall st : State, sized st -> windowsOf es (snd (loopRun st es)).
Proof.
  induction es as [| e es IH]; intros st Hs; cbn [loopRun]; [constructor |].
  pose proof (loopStep_sized e Hs) as H1.
  assert (H2 : match e with
               | AnimationFrame sig => ticksOf sig (snd (loopStep st e))
               | _ => snd (loopStep st e) = []
               end).
  { destruct e as [m v | | sig]; cbn [loopStep snd]; auto.
    now apply runFrame_sized. }
  destruct (loopStep st e) as [st1 out1]. cbn [fst snd] in *.
  specialize (IH st1 H1).
  destruct (loopRun st1 es) as [st2 out2]. cbn [snd] in *.
  destruct e as [m v | | sig]; subst; cbn [app]; now constructor.
Qed.

Lemma loopRun_sized (es : list LoopEvent) :
  forall st : State, sized st -> sized (fst (loopRun st es)).
Proof.
  induction es as [| e es IH]; intros st Hs; cbn [loopRun]; [exact Hs |].
  pose proof (loopStep_sized e Hs) as H1.
  destruct (loopStep st e) as [st1 out1]. cbn [fst] in H1.
  specialize (IH st1 H1). destruct (loopRun st1 es) as [st2 out2]. exact IH.
Qed.

Lemma afterInitMic_sized (ctx : ContextState) : sized (afterInitMic ctx).
Proof. split; [constructor |]. cbn. intros node [= <-]. reflexivity. Qed.

(** C8, as stated, fails on js/audio.js: with the FFT size 2048 the
    time-domain array handed to the drawing code has 1024 elements. *)
Lemma audio_time_domain_is_half_window :
  exists t f n,
    Audio.visualizationLoop (mkSignal (repeat x80 2048) (repeat x00 1024))
      (Audio.startMonitoring true Audio.notMonitoring) = Some (t, f, n)
    /\ Audio.FFT_SIZE = 2048 /\ length t = 1024 /\ length t <> 2048.
Proof.
  eexists _, _, _. split; [reflexivity |]. split; [reflexivity |].
  rewrite copy_into_length, new_Uint8Array_length.
  split; [reflexivity | discriminate].
Qed.

(** C8, amended: with the FFT size 2048, js/analyzer.js computes the
    metrics of every tick from a time-domain array of 2048 bytes and hands
    that array and a frequency array of 1024 bytes to the visualization;
    js/audio.js hands arrays of 1024 bytes for both domains to the drawing
    code.

    For js/analyzer.js: at every point of every run, whatever the
    subscribers do inside their ticks, every scheduled [processAudioLoop]
    is over arrays of 2048 and of 1024 bytes ([sized]).  A tick over such
    arrays copies the analyser's data into them, hands the metrics of the
    time-domain array to the metrics subscriber and that very array, with
    the frequency array, to the visualization subscriber.  So the output
    of the run is that of a sequence of such ticks ([windowsOf]), and
    every item handed out has these lengths. *)
Theorem window_lengths (ctx : ContextState) (es : list LoopEvent)
    (granted : bool) (sig : Signal) :
  FFT_SIZE = 2048 /\ Nat.div2 FFT_SIZE = 1024 /\ Audio.FFT_SIZE = 2048
  /\ sized (fst (loopRun (afterInitMic ctx) es))
  /\ (forall (c : Closure) (st : State) (node : AnalyserNode),
        sizedClosure c -> analyserNode st = Some node ->
        let w := copy_into (timeDomain sig) (timeDataArray c) in
        let f := copy_into (frequencyDomain sig) (frequencyDataArray c) in
        length w = 2048 /\ length f = 1024
        /\ snd (processAudioLoop c sig st) =
           tickOutput (lastNoiseLevel c) w f
             (match onMetricsUpdate c with Some _ => true | None => false end)
             (match onVisualizationUpdate c with
              | Some _ =>
                  match onMetricsUpdate c with
                  | Some subscriber =>
                      returns (subscriber (snd (calculateMetrics (lastNoiseLevel c) w)))
                  | None => true
                  end
              | None => false
              end))
  /\ windowsOf es (snd (loopRun (afterInitMic ctx) es))
  /\ Forall (fun p =>
       match p with
       | MetricsUpdate m =>
           exists last w, length w = 2048 /\ m = snd (calculateMetrics last w)
       | VisualizationUpdate t f => length t = 2048 /\ length f = 1024
       end) (snd (loopRun (afterInitMic ctx) es))
  /\ match Audio.visualizationLoop sig (Audio.startMonitoring granted Audio.notMonitoring)
     with
     | Some (t, f, n) => length t = 1024 /\ length f = 1024 /\ n = 1024
     | None => granted = false
     end.
Proof.
  pose proof (loopRun_windows es (afterInitMic_sized ctx)) as Hw.
  split; [reflexivity |]. split; [reflexivity |]. split; [reflexivity |].
  split; [apply loopRun_sized, afterInitMic_sized |].
  split.
  { intros c st node [Ht Hf] Hnode. cbv zeta.
    rewrite !copy_into_length.
    split; [exact Ht |]. split; [exact Hf |].
    exact (processAudioLoop_exact c sig st Hnode). }
  split; [exact Hw |]. split.
  - apply windowsOf_fromFullWindow in Hw.
    eapply Forall_impl; [| exact Hw]. intros [m | t f]; exact (fun x => x).
  - destruct granted; [| reflexivity].
    cbn [Audio.startMonitoring Audio.notMonitoring Audio.isMonitoring
         Audio.visualizationLoop Audio.analyserNode Audio.timeDomainData
         Audio.frequencyData Audio.draw].
    rewrite !copy_into_length, !new_Uint8Array_length.
    repeat split.
Qed.

End WindowLengths.

Section Cancellation.
Import Analyzer.

(** [stopAnalysis] on a loop that is already stopped changes nothing. *)
Lemma stopAnalysis_idempotent (st : State) :
  stopAnalysis (stopAnalysis st) = stopAnalysis st.
Proof.
  unfold stopAnalysis at 2.
  destruct (animationFrameId st) as [[| n] |] eqn:Hid;
    unfold stopAnalysis; cbn; now rewrite ?Hid.
Qed.

Lemma stopAnalysis_animationFrameId (st : State) :
  truthy (animationFrameId (stopAnalysis st)) = false.
Proof.
  unfold stopAnalysis.
  destruct (animationFrameId st) as [[| n] |] eqn:Hid; cbn; now rewrite ?Hid.
Qed.

Lemma stopAnalysis_forgets (st : State) :
  animationFrameId st <> Some 0 -> animationFrameId (stopAnalysis st) = None.
Proof.
  intro H. unfold stopAnalysis.
  destruct (animationFrameId st) as [[| n] |] eqn:Hid; cbn; congruence.
Qed.

(** With nothing in the host's queue, as inside the one tick of a frame,
    a [stopAnalysis] finds nothing to cancel. *)
Lemma stopAnalysis_in_tick (st : State) :
  frameCallbacks (queue st) = [] -> frameBatch (queue st) = [] ->
  queue (stopAnalysis st) = queue st.
Proof.
  intros Hc Hb. unfold stopAnalysis.
  destruct (animationFrameId st) as [[| n] |]; cbn; try reflexivity.
  unfold cancelAnimationFrame. rewrite Hc, Hb. cbn.
  destruct (queue st); cbn in *; congruence.
Qed.

Lemma cleanup_schedule (st : State) :
  queue (cleanup st) = queue (stopAnalysis st)
  /\ animationFrameId (cleanup st) = animationFrameId (stopAnalysis st)
  /\ analyserNode (cleanup st) = None.
Proof.
  unfold cleanup. cbn [audioContext set_analyserNode].
  destruct (audioContext (stopAnalysis st)) as [[| |] |]; repeat split.
Qed.

(** A subscriber that does not call [startAnalysis] leaves the host's
    queue as it is when nothing is scheduled. *)
Lemma react_in_tick (r : Reaction) :
  forall st : State,
  restarts r = false ->
  frameCallbacks (queue st) = [] -> frameBatch (queue st) = [] ->
  animationFrameId st <> Some 0 ->
  queue (fst (react r st)) = queue st
  /\ animationFrameId (fst (react r st)) <> Some 0.
Proof.
  induction r as [| | m v | | | a IHa b IHb]; intros st Hr Hc Hb Hid;
    cbn [react fst]; try discriminate; auto.
  - split; [now apply stopAnalysis_in_tick |].
    rewrite (stopAnalysis_forgets st Hid). discriminate.
  - destruct (cleanup_schedule st) as (Hq & Ha & _).
    rewrite Hq, Ha. split; [now apply stopAnalysis_in_tick |].
    rewrite (stopAnalysis_forgets st Hid). discriminate.
  - cbn [restarts] in Hr. apply orb_false_iff in Hr. destruct Hr as [Hra Hrb].
    destruct (IHa st Hra Hc Hb Hid) as [Hq1 Hid1].
    destruct (react a st) as [st1 [|]]; cbn [fst] in *; [| auto].
    assert (Hc1 : frameCallbacks (queue st1) = []) by now rewrite Hq1.
    assert (Hb1 : frameBatch (queue st1) = []) by now rewrite Hq1.
    destruct (IHb st1 Hrb Hc1 Hb1 Hid1) as [Hq2 Hid2].
    split; [congruence | exact Hid2].
Qed.

(** A tick that finds no analyser stops the loop. *)
Lemma processAudioLoop_no_analyser (c : Closure) (sig : Signal) (st : State) :
  analyserNode st = None ->
  processAudioLoop c sig st = (stopAnalysis st, []).
Proof. intro H. unfold processAudioLoop. now rewrite H. Qed.

(** The one tick of a frame, with subscribers that do not call
    [startAnalysis]: it ends with nothing scheduled, or with its own next
    callback scheduled and remembered. *)
Lemma processAudioLoop_quiet (c : Closure) (sig : Signal) (st : State) :
  quietClosure c ->
  frameCallbacks (queue st) = [] -> frameBatch (queue st) = [] ->
  (1 <= nextHandle (queue st))%nat ->
  animationFrameId st <> Some 0 ->
  betweenEvents (fst (processAudioLoop c sig st)).
Proof.
  intros [Hqm Hqv] Hc Hb Hn Hid.
  assert (Hrest : forall st' : State,
             queue st' = queue st -> animationFrameId st' <> Some 0 ->
             betweenEvents st').
  { intros st' Hq Hid'. unfold betweenEvents. rewrite Hq. auto. }
  assert (Harm : forall (c' : Closure) (st' : State),
             quietClosure c' -> queue st' = queue st ->
             betweenEvents (scheduleLoop c' st')).
  { intros c' st' Hq' Hq. unfold betweenEvents, scheduleLoop, requestAnimationFrame.
    cbn. rewrite Hq, Hc, Hb. cbn.
    destruct (nextHandle (queue st)) as [| k]; [lia |].
    split; [reflexivity |]. split; [lia |]. split; [discriminate |].
    right. exists k, c'. auto. }
  unfold processAudioLoop.
  destruct (analyserNode st).
  2:{ cbn [fst]. apply Hrest; [now apply stopAnalysis_in_tick |].
      rewrite (stopAnalysis_forgets st Hid). discriminate. }
  destruct (calculateMetrics _ _) as [noise metrics].
  set (timeData := copy_into (timeDomain sig) (timeDataArray c)).
  set (frequencyData := copy_into (frequencyDomain sig) (frequencyDataArray c)).
  set (c' := mkClosure _ _ _ _ noise).
  assert (Hq' : quietClosure c') by (split; assumption).
  assert (Hvis : forall st1 : State,
             queue st1 = queue st -> animationFrameId st1 <> Some 0 ->
             forall out1 : list Published,
             betweenEvents
               (fst (let '(st2, returned2, out2) :=
                       match onVisualizationUpdate c with
                       | Some f =>
                           let (st', returned) := react (f timeData frequencyData) st1 in
                           (st', returned, [VisualizationUpdate timeData frequencyData])
                       | None => (st1, true, [])
                       end in
                     if returned2 then (scheduleLoop c' st2, out1 ++ out2)
                     else (st2, out1 ++ out2)))).
  { intros st1 Hq1 Hid1 out1.
    destruct (onVisualizationUpdate c) as [g |]; [| now apply Harm].
    assert (Hc1 : frameCallbacks (queue st1) = []) by now rewrite Hq1.
    assert (Hb1 : frameBatch (queue st1) = []) by now rewrite Hq1.
    destruct (@react_in_tick (g timeData frequencyData) st1 (Hqv _ _) Hc1 Hb1 Hid1)
      as [Hq2 Hid2].
    destruct (react _ st1) as [st2 [|]]; cbn [fst] in *.
    - apply Harm; [exact Hq' | congruence].
    - apply Hrest; [congruence | exact Hid2]. }
  destruct (onMetricsUpdate c) as [f |]; [| now apply Hvis].
  destruct (@react_in_tick (f metrics) st (Hqm _) Hc Hb Hid) as [Hq1 Hid1].
  destruct (react (f metrics) st) as [st1 [|]]; cbn [fst] in Hq1, Hid1.
  - now apply Hvis.
  - cbn [fst]. now apply Hrest.
Qed.

(** A frame with one scheduled callback runs one tick. *)
Lemma runFrame_single (sig : Signal) (st : State) (id : nat) (c : Closure) :
  frameCallbacks (queue st) = [(id, c)] ->
  runFrame sig st =
  processAudioLoop c sig (set_queue (mkQueue [] [] (nextHandle (queue st))) st).
Proof.
  intro Hc. unfold runFrame. rewrite Hc. cbn [map fst fold_left].
  unfold runCallback. cbn [queue set_queue frameBatch frameCallbacks nextHandle].
  unfold callbackOf, withoutHandle. cbn [find filter fst snd].
  rewrite Nat.eqb_refl. cbn [negb option_map snd].
  replace (set_queue _ (set_queue _ st))
    with (set_queue (mkQueue [] [] (nextHandle (queue st))) st) by reflexivity.
  destruct (processAudioLoop c sig _). reflexivity.
Qed.

Lemma betweenEvents_stopAnalysis (st : State) :
  betweenEvents st ->
  betweenEvents (stopAnalysis st)
  /\ animationFrameId (stopAnalysis st) = None
  /\ frameCallbacks (queue (stopAnalysis st)) = [].
Proof.
  intros (Hb & Hn & Hz & Hcases).
  assert (Hid : animationFrameId (stopAnalysis st) = None)
    by now apply stopAnalysis_forgets.
  assert (Hc : frameCallbacks (queue (stopAnalysis st)) = []).
  { destruct Hcases as [Hc | (id & c & Hid' & Hc & _)].
    - now rewrite stopAnalysis_in_tick.
    - unfold stopAnalysis. rewrite Hid'. cbn. rewrite Hc. cbn.
      rewrite Nat.eqb_refl. reflexivity. }
  split; [| auto].
  unfold betweenEvents. rewrite Hid, Hc. repeat split; auto; try discriminate.
  - unfold stopAnalysis. destruct (animationFrameId st) as [[| k] |]; cbn; auto.
    now rewrite Hb.
  - unfold stopAnalysis. destruct (animationFrameId st) as [[| k] |]; cbn; auto.
Qed.

Lemma betweenEvents_startAnalysis (m : MetricsCallback) (v : VisualizationCallback)
    (st : State) :
  quietMetrics m -> quietVisualization v ->
  betweenEvents st -> betweenEvents (startAnalysis m v st).
Proof.
  intros Hm Hv Hinv. unfold startAnalysis.
  destruct (analyserNode st) as [node |]; [| exact Hinv].
  destruct (audioContext st) as [ctx |]; [| exact Hinv].
  destruct ctx; try exact Hinv.
  all: destruct (truthy (animationFrameId st)) eqn:Htr; [exact Hinv |].
  all: destruct Hinv as (Hb & Hn & Hz & [Hc | (id & c & Hid & Hc & _)]);
    [| rewrite Hid in Htr; discriminate].
  all: destruct (nextHandle (queue st)) as [| k] eqn:Hk; [lia |].
  all: unfold betweenEvents, scheduleLoop, requestAnimationFrame; cbn;
    rewrite ?Hb, ?Hc, ?Hk; cbn.
  all: split; [reflexivity |]; split; [lia |]; split; [discriminate |].
  all: right; eexists _, _; repeat split; auto.
Qed.

Lemma betweenEvents_runFrame (sig : Signal) (st : State) :
  betweenEvents st -> betweenEvents (fst (runFrame sig st)).
Proof.
  intros (Hb & Hn & Hz & [Hc | (id & c & Hid & Hc & Hq)]).
  - rewrite (runFrame_idle sig st Hc). cbn [fst].
    unfold betweenEvents. cbn. auto.
  - rewrite (runFrame_single sig st Hc).
    apply processAudioLoop_quiet; cbn; auto.
Qed.

Lemma betweenEvents_loopStep (st : State) (e : LoopEvent) :
  quietLoopEvent e -> betweenEvents st -> betweenEvents (fst (loopStep st e)).
Proof.
  intros Hq Hinv. destruct e as [m v | | sig]; cbn [loopStep fst].
  - destruct Hq. now apply betweenEvents_startAnalysis.
  - now apply betweenEvents_stopAnalysis.
  - now apply betweenEvents_runFrame.
Qed.

(** Between the events of a run whose subscribers never call
    [startAnalysis], the module is either stopped with nothing scheduled
    or running with exactly the callback it remembers. *)
Lemma betweenEvents_loopRun (es : list LoopEvent) :
  forall st : State,
  Forall quietLoopEvent es -> betweenEvents st -> betweenEvents (fst (loopRun st es)).
Proof.
  induction es as [| e es IH]; intros st Hq Hinv; cbn [loopRun]; [exact Hinv |].
  inversion Hq as [| e' es' He Hes]; subst.
  pose proof (betweenEvents_loopStep e He Hinv) as H1.
  destruct (loopStep st e) as [st1 out1]. cbn [fst] in H1.
  specialize (IH st1 Hes H1). destruct (loopRun st1 es) as [st2 out2]. exact IH.
Qed.

Lemma betweenEvents_afterInitMic (ctx : ContextState) : betweenEvents (afterInitMic ctx).
Proof.
  unfold betweenEvents. cbn.
  split; [reflexivity |]. split; [lia |]. split; [discriminate | now left].
Qed.

(** A [stopAnalysis] called between two frames, at any point of a run
    whose subscribers never call [startAnalysis], cancels the scheduled
    tick: the next frame runs no tick and calls no subscriber; a second
    [stopAnalysis] changes nothing. *)
Lemma stopAnalysis_between_frames (ctx : ContextState) (es : list LoopEvent)
    (sig : Signal) :
  Forall quietLoopEvent es ->
  let st := stopAnalysis (fst (loopRun (afterInitMic ctx) es)) in
  animationFrameId st = None
  /\ snd (runFrame sig st) = []
  /\ animationFrameId (fst (runFrame sig st)) = None
  /\ stopAnalysis st = st.
Proof.
  intro Hq. cbv zeta.
  pose proof (betweenEvents_loopRun Hq (betweenEvents_afterInitMic ctx)) as Hinv.
  destruct (betweenEvents_stopAnalysis Hinv) as (_ & Hid & Hc).
  rewrite (runFrame_idle sig _ Hc). cbn [fst snd animationFrameId set_queue].
  repeat split; auto. apply stopAnalysis_idempotent.
Qed.

End Cancellation.

Section StopInsideTick.
Import Analyzer.

(** A tick that finds the analyser, with the results of its steps
    named. *)
Lemma processAudioLoop_running (c : Closure) (sig : Signal) (st : State)
    (node : AnalyserNode) :
  analyserNode st = Some node ->
  processAudioLoop c sig st =
  let timeData := copy_into (timeDomain sig) (timeDataArray c) in
  let frequencyData := copy_into (frequencyDomain sig) (frequencyDataArray c) in
  let metrics := snd (calculateMetrics (lastNoiseLevel c) timeData) in
  let c' := mkClosure (onMetricsUpdate c) (onVisualizationUpdate c)
                      timeData frequencyData
                      (fst (calculateMetrics (lastNoiseLevel c) timeData)) in
  let afterMetrics :=
    match onMetricsUpdate c with
    | Some f => (react (f metrics) st, [MetricsUpdate metrics])
    | None => ((st, true), [])
    end in
  if snd (fst afterMetrics) then
    let afterVisualization :=
      match onVisualizationUpdate c with
      | Some f => (react (f timeData frequencyData) (fst (fst afterMetrics)),
                   [VisualizationUpdate timeData frequencyData])
      | None => ((fst (fst afterMetrics), true), [])
      end in
    if snd (fst afterVisualization)
    then (scheduleLoop c' (fst (fst afterVisualization)),
          snd afterMetrics ++ snd afterVisualization)
    else (fst (fst afterVisualization), snd afterMetrics ++ snd afterVisualization)
  else (fst (fst afterMetrics), snd afterMetrics).
Proof.
  intro Hnode. cbv zeta. unfold processAudioLoop. rewrite Hnode.
  destruct (calculateMetrics _ _) as [noise metrics]. cbn [fst snd].
  destruct (onMetricsUpdate c) as [f |].
  - destruct (react (f metrics) st) as [st1 [|]]; cbn [fst snd]; [| reflexivity].
    destruct (onVisualizationUpdate c) as [g |]; [| reflexivity].
    destruct (react (g _ _) st1) as [st2 [|]]; reflexivity.
  - cbn [fst snd]. destruct (onVisualizationUpdate c) as [g |]; [| reflexivity].
    destruct (react (g _ _) st) as [st2 [|]]; reflexivity.
Qed.

(** C7, at the input on which it fails: the metrics subscriber calls
    [stopAnalysis] from inside a tick.  The call returns, and still the
    visualization subscriber is called in the same tick, the tick requests
    the next frame and stores its handle, and at the next scheduling
    opportunity a further tick runs and calls both subscribers. *)
Theorem stop_inside_subscriber_is_overridden (sig1 sig2 : Signal) :
  let onMetrics : MetricsCallback := Some (fun _ => CallsStopAnalysis) in
  let onVisualization : VisualizationCallback := Some (fun _ _ => Passive) in
  let st0 := startAnalysis onMetrics onVisualization (afterInitMic Running) in
  let tick1 := runFrame sig1 st0 in
  let tick2 := runFrame sig2 (fst tick1) in
  (exists m t f, snd tick1 = [MetricsUpdate m; VisualizationUpdate t f])
  /\ animationFrameId (fst tick1) = Some 2
  /\ map fst (frameCallbacks (queue (fst tick1))) = [2]
  /\ (exists m t f, snd tick2 = [MetricsUpdate m; VisualizationUpdate t f]).
Proof.
  cbv zeta.
  set (m := Some (fun _ : Metrics => CallsStopAnalysis)).
  set (v := Some (fun _ _ : Uint8Array => Passive)).
  set (c0 := mkClosure m v (new_Uint8Array FFT_SIZE)
                       (new_Uint8Array (Nat.div2 FFT_SIZE)) NegInf).
  set (st0 := mkState (Some Running) (Some (mkAnalyser FFT_SIZE)) (Some 1)
                      (mkQueue [(1, c0)] [] 2) 0).
  change (startAnalysis m v (afterInitMic Running)) with st0.
  rewrite (@runFrame_single sig1 st0 1 c0 eq_refl).
  rewrite (@processAudioLoop_running c0 sig1
             (set_queue (mkQueue [] [] (nextHandle (queue st0))) st0)
             (mkAnalyser FFT_SIZE) eq_refl).
  cbv zeta. cbn [onMetricsUpdate onVisualizationUpdate c0 m v react fst snd app
                 timeDataArray frequencyDataArray lastNoiseLevel].
  set (t1 := copy_into (timeDomain sig1) _).
  set (f1 := copy_into (frequencyDomain sig1) _).
  set (m1 := calculateMetrics NegInf t1).
  set (c1 := mkClosure _ _ t1 f1 (fst m1)).
  set (st1 := mkState (Some Running) (Some (mkAnalyser FFT_SIZE)) (Some 2)
                      (mkQueue [(2, c1)] [] 3) 0).
  change (scheduleLoop c1 _) with st1. cbn [fst snd].
  split; [eauto |]. split; [reflexivity |]. split; [reflexivity |].
  rewrite (@runFrame_single sig2 st1 2 c1 eq_refl).
  rewrite (@processAudioLoop_running c1 sig2
             (set_queue (mkQueue [] [] (nextHandle (queue st1))) st1)
             (mkAnalyser FFT_SIZE) eq_refl).
  cbv zeta. cbn [onMetricsUpdate onVisualizationUpdate c1 m v react fst snd app].
  eauto.
Qed.

End StopInsideTick.

Section NoiseLevelInTheLoop.
Import Analyzer.

(** [startAnalysis] starts the noise level at -Infinity, and a tick that
    finds the analyser and whose subscribers return schedules its next
    run over the level [updateNoiseLevel] gives for the window it read. *)
Lemma tick_updates_noise_level (c : Closure) (sig : Signal) (st : State)
    (node : AnalyserNode) (m : MetricsCallback) (v : VisualizationCallback) :
  analyserNode st = Some node ->
  let w := copy_into (timeDomain sig) (timeDataArray c) in
  let fr := copy_into (frequencyDomain sig) (frequencyDataArray c) in
  let c' := mkClosure (onMetricsUpdate c) (onVisualizationUpdate c) w fr
                      (updateNoiseLevel (lastNoiseLevel c) (rmsDBFS w)) in
  (forall f, onMetricsUpdate c = Some f ->
             returns (f (snd (calculateMetrics (lastNoiseLevel c) w))) = true) ->
  (forall g, onVisualizationUpdate c = Some g -> returns (g w fr) = true) ->
  map (fun e => lastNoiseLevel (snd e))
      (frameCallbacks (queue (startAnalysis m v (afterInitMic Running)))) = [NegInf]
  /\ exists st' : State, fst (processAudioLoop c sig st) = scheduleLoop c' st'.
Proof.
  intros Hnode w fr c' Hm Hv. split; [reflexivity |].
  rewrite (processAudioLoop_running c sig st Hnode). cbv zeta.
  fold w. fold fr.
  replace (mkClosure (onMetricsUpdate c) (onVisualizationUpdate c) w fr
                     (fst (calculateMetrics (lastNoiseLevel c) w))) with c'
    by (unfold c'; now rewrite calculateMetrics_noise).
  destruct (onMetricsUpdate c) as [f |]; cbn [fst snd].
  - rewrite react_returns, (Hm f eq_refl).
    destruct (onVisualizationUpdate c) as [g |]; cbn [fst snd].
    + rewrite react_returns, (Hv g eq_refl). cbn [fst]. eauto.
    + eauto.
  - destruct (onVisualizationUpdate c) as [g |]; cbn [fst snd].
    + rewrite react_returns, (Hv g eq_refl). cbn [fst]. eauto.
    + eauto.
Qed.

End NoiseLevelInTheLoop.

(* ================================================================= *)
(** ** The definitions on small inputs *)

Section Examples.
Import Analyzer.
Local Open Scope string_scope.

Example negotiation_ogg_before_webm :
  Audio.chooseOptions (fun m => negb (String.eqb m "audio/webm;codecs=opus"))
  = Some "audio/ogg;codecs=opus".
Proof. reflexivity. Qed.

Example negotiation_platform_default :
  Audio.chooseOptions (fun _ => false) = None.
Proof. reflexivity. Qed.

Example clipping_at_255 :
  clipping (snd (calculateMetrics NegInf [x80; xff; x80])) = true.
Proof. reflexivity. Qed.

Example no_clipping_inside :
  clipping (snd (calculateMetrics NegInf [x80; x02; xfd])) = false.
Proof. reflexivity. Qed.

Example recording_without_data :
  snd (recRun (recorderReady "audio/webm")
         (recordingSession (Some 1) (Some 2) (Some 3) [] [mkBlob [] ""]))
  = [Invoke 1; InvokeWithError 3 "NoDataRecorded"].
Proof. reflexivity. Qed.

Example recording_with_data :
  snd (recRun (recorderReady "")
         (recordingSession (Some 1) (Some 2) (Some 3)
            [mkBlob [x01; x02] ""; mkBlob [] ""] [mkBlob [x03] ""]))
  = [Invoke 1; InvokeWithUrl 2 (mkBlob [x01; x02; x03] "audio/webm")].
Proof. reflexivity. Qed.

Example stop_before_first_frame (sig : Signal) :
  snd (loopRun (afterInitMic Suspended)
         [CallStartAnalysis (Some (fun _ => Passive)) (Some (fun _ _ => Passive));
          CallStopAnalysis; AnimationFrame sig])
  = [].
Proof. reflexivity. Qed.

Example timer_stops_recording :
  snd (recRun (recorderReady "audio/ogg")
         [CallStartRecording None (Some 2) (Some 3);
          DataAvailable (mkBlob [x2a] "audio/ogg");
          TimerFires; Stopped; TimerFires])
  = [InvokeWithUrl 2 (mkBlob [x2a] "audio/ogg")].
Proof. reflexivity. Qed.

End Examples.

(* ================================================================= *)
(** ** The analysis loop under [initMic] and [cleanup] *)

Section ApiRuns.
Import Analyzer.
Import AnalyzerApi.

Lemma apiRun_app (st : State) (es1 es2 : list ApiEvent) :
  apiRun st (es1 ++ es2) =
  let (st1, out1) := apiRun st es1 in
  let (st2, out2) := apiRun st1 es2 in
  (st2, out1 ++ out2).
Proof.
  revert st. induction es1 as [| e es1 IH]; intro st.
  - cbn [app apiRun]. destruct (apiRun st es2). reflexivity.
  - cbn [app apiRun]. destruct (apiStep st e) as [st1 out1].
    rewrite IH. destruct (apiRun st1 es1) as [st2 out2].
    destruct (apiRun st2 es2) as [st3 out3]. now rewrite app_assoc.
Qed.

Lemma betweenEvents_same_schedule (st st' : State) :
  animationFrameId st' = animationFrameId st -> queue st' = queue st ->
  betweenEvents st -> betweenEvents st'.
Proof. unfold betweenEvents. intros -> ->. auto. Qed.

Lemma betweenEvents_apiStep (st : State) (e : ApiEvent) :
  quietEvent e -> betweenEvents st -> betweenEvents (fst (apiStep st e)).
Proof.
  intros Hq Hinv. destruct e as [e' | ctx | | resolved]; cbn [apiStep fst].
  - now apply betweenEvents_loopStep.
  - exact Hinv.
  - destruct (cleanup_schedule st) as (Hqu & Hid & _).
    apply betweenEvents_same_schedule with (stopAnalysis st); auto.
    now apply betweenEvents_stopAnalysis.
  - unfold closeSettled. destruct (closesPending st); exact Hinv.
Qed.

(** Whatever the module is asked to do, with subscribers that never call
    [startAnalysis], between two events at most one callback is
    scheduled, and it is the one [animationFrameId] names. *)
Lemma betweenEvents_apiRun (es : list ApiEvent) :
  forall st : State,
  Forall quietEvent es -> betweenEvents st -> betweenEvents (fst (apiRun st es)).
Proof.
  induction es as [| e es IH]; intros st Hq Hinv; cbn [apiRun]; [exact Hinv |].
  inversion Hq as [| e' es' He Hes]; subst.
  pose proof (betweenEvents_apiStep e He Hinv) as H1.
  destruct (apiStep st e) as [st1 out1]. cbn [fst] in H1.
  specialize (IH st1 Hes H1). destruct (apiRun st1 es) as [st2 out2]. exact IH.
Qed.

Lemma betweenEvents_loaded : betweenEvents loaded.
Proof.
  unfold betweenEvents. cbn.
  split; [reflexivity |]. split; [lia |]. split; [discriminate | now left].
Qed.

(** The loop is off: nothing is scheduled. *)
Lemma loop_off_step (st : State) (e : ApiEvent) :
  isStartAnalysis e = false ->
  frameCallbacks (queue st) = [] -> frameBatch (queue st) = [] ->
  frameCallbacks (queue (fst (apiStep st e))) = []
  /\ frameBatch (queue (fst (apiStep st e))) = []
  /\ snd (apiStep st e) = [].
Proof.
  intros He Hc Hb.
  destruct e as [[m v | | sig] | ctx | | resolved]; cbn [apiStep loopStep];
    try discriminate.
  - cbn [fst snd]. rewrite (stopAnalysis_in_tick st Hc Hb). auto.
  - rewrite (runFrame_idle sig _ Hc). cbn. auto.
  - cbn. auto.
  - cbn [fst snd]. destruct (cleanup_schedule st) as (Hq & _).
    rewrite Hq, (stopAnalysis_in_tick st Hc Hb). auto.
  - cbn [fst snd]. unfold closeSettled. destruct (closesPending st); cbn; auto.
Qed.

Lemma loop_off_run (es : list ApiEvent) :
  forall st : State,
  forallb (fun e => negb (isStartAnalysis e)) es = true ->
  frameCallbacks (queue st) = [] -> frameBatch (queue st) = [] ->
  snd (apiRun st es) = [].
Proof.
  induction es as [| e es IH]; intros st Hes Hc Hb; cbn [apiRun]; [reflexivity |].
  cbn [forallb] in Hes. apply andb_true_iff in Hes. destruct Hes as [He Hes].
  apply negb_true_iff in He.
  destruct (@loop_off_step st e He Hc Hb) as (H1 & H2 & H3).
  destruct (apiStep st e) as [st1 out1]. cbn [fst snd] in *.
  specialize (IH st1 Hes H1 H2).
  destruct (apiRun st1 es) as [st2 out2]. cbn [snd] in *. now subst.
Qed.

(** X1: once [stopAnalysis] has been called between two events, at any
    point of a run whose subscribers never call [startAnalysis] from
    inside a tick, nothing is published until [startAnalysis] is called
    again: not by later frames, nor through [initMic] or [cleanup]. *)
Theorem stopped_loop_stays_stopped (es1 es2 : list ApiEvent) :
  Forall quietEvent es1 ->
  forallb (fun e => negb (isStartAnalysis e)) es2 = true ->
  snd (apiRun (fst (apiRun loaded (es1 ++ [Loop CallStopAnalysis]))) es2) = [].
Proof.
  intros Hq Hes. rewrite apiRun_app.
  pose proof (betweenEvents_apiRun Hq betweenEvents_loaded) as Hinv.
  destruct (apiRun loaded es1) as [st1 out1]. cbn [fst] in Hinv.
  cbn [apiRun apiStep loopStep fst].
  destruct (betweenEvents_stopAnalysis Hinv) as ((Hb & _) & _ & Hc).
  now apply loop_off_run.
Qed.

(** X1 on a run that starts the loop with a subscriber that calls
    [stopAnalysis] and [cleanup], runs a frame and stops it. *)
Lemma stopped_loop_stays_stopped_witness :
  snd (apiRun
         (fst (apiRun loaded
                 ([InitMicResolved Running;
                   Loop (CallStartAnalysis
                           (Some (fun _ => Then CallsStopAnalysis CallsCleanup)) None);
                   Loop (AnimationFrame (mkSignal [] []))]
                  ++ [Loop CallStopAnalysis])))
         [Loop (AnimationFrame (mkSignal [] [])); InitMicResolved Suspended;
          Loop (AnimationFrame (mkSignal [] []))]) = [].
Proof.
  apply stopped_loop_stays_stopped.
  - repeat constructor.
  - reflexivity.
Defined.

(** With no analyser a frame runs its ticks, and each of them stops
    without a call of a subscriber. *)
Lemma runCallbacks_no_analyser (sig : Signal) (ids : list nat) :
  forall acc : State * list Published,
  analyserNode (fst acc) = None ->
  analyserNode (fst (fold_left (runCallback sig) ids acc)) = None
  /\ snd (fold_left (runCallback sig) ids acc) = snd acc.
Proof.
  induction ids as [| id ids IH]; intros [st out] Hn; cbn [fold_left]; [auto |].
  cbn [fst snd] in *.
  assert (H : analyserNode (fst (runCallback sig (st, out) id)) = None
              /\ snd (runCallback sig (st, out) id) = out).
  { unfold runCallback.
    destruct (callbackOf id (frameBatch (queue st))) as [c |]; [| auto].
    rewrite processAudioLoop_no_analyser by exact Hn. cbn [fst snd].
    rewrite stopAnalysis_analyserNode, app_nil_r. auto. }
  destruct H as [H1 H2].
  destruct (IH (runCallback sig (st, out) id) H1) as [H3 H4].
  split; [exact H3 | congruence].
Qed.

(** With no analyser nothing can be started or published. *)
Lemma no_analyser_step (st : State) (e : ApiEvent) :
  isInitMic e = false ->
  analyserNode st = None ->
  analyserNode (fst (apiStep st e)) = None /\ snd (apiStep st e) = [].
Proof.
  intros He Hn.
  destruct e as [[m v | | sig] | ctx | | resolved]; cbn [apiStep loopStep];
    try discriminate.
  - cbn [fst snd]. unfold startAnalysis. rewrite Hn. auto.
  - cbn [fst snd]. rewrite stopAnalysis_analyserNode. auto.
  - unfold runFrame. apply runCallbacks_no_analyser. exact Hn.
  - cbn [fst snd]. split; [apply cleanup_schedule | reflexivity].
  - cbn [fst snd]. unfold closeSettled. destruct (closesPending st); cbn; auto.
Qed.

Lemma no_analyser_run (es : list ApiEvent) :
  forall st : State,
  forallb (fun e => negb (isInitMic e)) es = true ->
  analyserNode st = None ->
  snd (apiRun st es) = [].
Proof.
  induction es as [| e es IH]; intros st Hes Hn; cbn [apiRun]; [reflexivity |].
  cbn [forallb] in Hes. apply andb_true_iff in Hes. destruct Hes as [He Hes].
  apply negb_true_iff in He.
  destruct (@no_analyser_step st e He Hn) as (H1 & H2).
  destruct (apiStep st e) as [st1 out1]. cbn [fst snd] in *.
  specialize (IH st1 Hes H1).
  destruct (apiRun st1 es) as [st2 out2]. cbn [snd] in *. now subst.
Qed.

(** X3: after a [cleanup] called between two events, at any point of any
    run and whatever the subscribers did inside their ticks, no
    subscriber is called again, whatever follows (frames,
    [startAnalysis], [stopAnalysis], the settling of [close()], further
    cleanups), until [initMic] succeeds anew. *)
Theorem nothing_published_after_cleanup (es1 es2 : list ApiEvent) :
  forallb (fun e => negb (isInitMic e)) es2 = true ->
  snd (apiRun (fst (apiRun loaded (es1 ++ [CallCleanup]))) es2) = [].
Proof.
  intro Hes. rewrite apiRun_app.
  destruct (apiRun loaded es1) as [st1 out1].
  cbn [apiRun apiStep fst].
  apply no_analyser_run; [exact Hes | apply cleanup_schedule].
Qed.

(** X3 on a run with two loops scheduled when [cleanup] is called. *)
Lemma nothing_published_after_cleanup_witness :
  snd (apiRun
         (fst (apiRun loaded
                 ([InitMicResolved Running;
                   Loop (CallStartAnalysis
                           (Some (fun _ => Then CallsStopAnalysis
                                             (CallsStartAnalysis
                                                (Some (fun _ => Passive)) None)))
                           (Some (fun _ _ => Passive)));
                   Loop (AnimationFrame (mkSignal [] []))]
                  ++ [CallCleanup])))
         [Loop (AnimationFrame (mkSignal [] []));
          Loop (CallStartAnalysis (Some (fun _ => Passive)) None);
          CloseSettled true;
          Loop (AnimationFrame (mkSignal [] []))]) = [].
Proof. apply nothing_published_after_cleanup. reflexivity. Defined.

(** What one tick publishes: at most one snapshot and one pair of
    arrays. *)
Lemma processAudioLoop_publishes_once (c : Closure) (sig : Signal) (st : State) :
  let out := snd (processAudioLoop c sig st) in
  (length (filter isMetricsUpdate out) <= 1)%nat
  /\ (length (filter isVisualizationUpdate out) <= 1)%nat
  /\ (length out <= 2)%nat.
Proof.
  cbv zeta. destruct (processAudioLoop_output c sig st) as (x & y & ->).
  unfold tickOutput. destruct x, y; cbn; lia.
Qed.

(** X2: with subscribers that never call [startAnalysis] from inside a
    tick, the module never runs two loops.  At every point of every such
    run, with subscribers that may call [stopAnalysis] and [cleanup] or
    throw, and under repeated [startAnalysis] and [initMic], a frame
    publishes at most one snapshot and at most one pair of arrays. *)
Theorem one_tick_per_frame (es : list ApiEvent) (sig : Signal) :
  Forall quietEvent es ->
  let out := snd (runFrame sig (fst (apiRun loaded es))) in
  (length (filter isMetricsUpdate out) <= 1)%nat
  /\ (length (filter isVisualizationUpdate out) <= 1)%nat
  /\ (length out <= 2)%nat.
Proof.
  intro Hq. cbv zeta.
  pose proof (betweenEvents_apiRun Hq betweenEvents_loaded) as Hinv.
  destruct Hinv as (_ & _ & _ & [Hc | (id & c & _ & Hc & _)]).
  - rewrite (runFrame_idle sig _ Hc). cbn. lia.
  - rewrite (runFrame_single sig _ Hc). apply processAudioLoop_publishes_once.
Qed.

(** X2 on a run whose subscriber stops the loop from inside a tick and
    that starts the loop twice. *)
Lemma one_tick_per_frame_witness :
  (length (snd (runFrame (mkSignal [x80] [x00])
                  (fst (apiRun loaded
                          [InitMicResolved Running;
                           Loop (CallStartAnalysis (Some (fun _ => CallsStopAnalysis))
                                                   (Some (fun _ _ => Passive)));
                           Loop (AnimationFrame (mkSignal [] []));
                           Loop (CallStartAnalysis (Some (fun _ => Passive)) None)]))))
   <= 2)%nat.
Proof.
  apply (@one_tick_per_frame
           [InitMicResolved Running;
            Loop (CallStartAnalysis (Some (fun _ => CallsStopAnalysis))
                                    (Some (fun _ _ => Passive)));
            Loop (AnimationFrame (mkSignal [] []));
            Loop (CallStartAnalysis (Some (fun _ => Passive)) None)]
           (mkSignal [x80] [x00])).
  repeat constructor.
Defined.

Ltac tick :=
  erewrite processAudioLoop_running by reflexivity;
  cbn -[processAudioLoop calculateMetrics copy_into new_Uint8Array FFT_SIZE Nat.div2].

(** X23: a subscriber that calls [stopAnalysis] and then [startAnalysis]
    from inside a tick leaves two loops.  The call of [startAnalysis]
    schedules a new loop, and the tick, going on, schedules its own next
    run and stores that handle.  In the next frame two ticks run and two
    snapshots are published; and a [stopAnalysis] called between the
    frames cancels only the callback whose handle is stored: a tick of
    the other loop still runs and its subscriber is called. *)
Theorem restart_inside_subscriber_leaves_two_loops (sig1 sig2 : Signal) :
  let inner : MetricsCallback := Some (fun _ => Passive) in
  let outer : MetricsCallback :=
    Some (fun _ => Then CallsStopAnalysis (CallsStartAnalysis inner None)) in
  let st1 := fst (runFrame sig1 (startAnalysis outer None (afterInitMic Running))) in
  map fst (frameCallbacks (queue st1)) = [2; 3]
  /\ animationFrameId st1 = Some 3
  /\ (exists m m', snd (runFrame sig2 st1) = [MetricsUpdate m; MetricsUpdate m'])
  /\ map fst (frameCallbacks (queue (stopAnalysis st1))) = [2]
  /\ animationFrameId (stopAnalysis st1) = None
  /\ (exists m, snd (runFrame sig2 (stopAnalysis st1)) = [MetricsUpdate m]).
Proof.
  cbv zeta. unfold runFrame.
  cbn -[processAudioLoop calculateMetrics copy_into new_Uint8Array FFT_SIZE Nat.div2].
  tick.
  split; [reflexivity |]. split; [reflexivity |].
  split; [tick; tick; eauto |].
  split; [reflexivity |]. split; [reflexivity |].
  tick. eauto.
Qed.

(** X24: a [cleanup] called by the metrics subscriber takes effect after
    the tick.  The visualization subscriber is still called with the
    arrays of this tick, and the tick schedules its next run and stores
    the handle; but the analyser is gone, so that nothing is published
    afterwards, whatever follows, until [initMic] succeeds anew. *)
Theorem cleanup_inside_subscriber_ends_after_the_tick
    (sig : Signal) (st : State) (node : AnalyserNode) (t f : Uint8Array)
    (last : jsnum) (es : list ApiEvent) :
  analyserNode st = Some node ->
  forallb (fun e => negb (isInitMic e)) es = true ->
  let c := mkClosure (Some (fun _ => CallsCleanup)) (Some (fun _ _ => Passive))
                     t f last in
  let tick := processAudioLoop c sig st in
  (exists m, snd tick = [MetricsUpdate m;
                         VisualizationUpdate (copy_into (timeDomain sig) t)
                                             (copy_into (frequencyDomain sig) f)])
  /\ analyserNode (fst tick) = None
  /\ (exists id, animationFrameId (fst tick) = Some id
                 /\ In id (map fst (frameCallbacks (queue (fst tick)))))
  /\ snd (apiRun (fst tick) es) = [].
Proof.
  intros Hnode Hes. cbv zeta.
  rewrite (@processAudioLoop_running _ sig st node Hnode).
  cbv zeta. cbn [onMetricsUpdate onVisualizationUpdate timeDataArray
                 frequencyDataArray lastNoiseLevel react fst snd app].
  assert (Hn : analyserNode (scheduleLoop
                 (mkClosure (Some (fun _ : Metrics => CallsCleanup))
                            (Some (fun _ _ : Uint8Array => Passive))
                            (copy_into (timeDomain sig) t)
                            (copy_into (frequencyDomain sig) f)
                            (fst (calculateMetrics last (copy_into (timeDomain sig) t))))
                 (cleanup st)) = None).
  { cbn. apply cleanup_schedule. }
  split; [eauto |]. split; [exact Hn |]. split.
  - eexists. split; [reflexivity |].
    cbn. rewrite map_app, in_app_iff. right. now left.
  - now apply no_analyser_run.
Qed.

(** X24 on the first tick of a loop, followed by a frame. *)
Lemma cleanup_inside_subscriber_ends_after_the_tick_witness :
  snd (apiRun
         (fst (processAudioLoop
                 (mkClosure (Some (fun _ => CallsCleanup)) (Some (fun _ _ => Passive))
                            (new_Uint8Array 4) (new_Uint8Array 2) NegInf)
                 (mkSignal [x80; xff; x80; x00] [x10; x20])
                 (afterInitMic Running)))
         [Loop (AnimationFrame (mkSignal [] []));
          Loop (CallStartAnalysis (Some (fun _ => Passive)) None)]) = [].
Proof.
  apply (@cleanup_inside_subscriber_ends_after_the_tick
           (mkSignal [x80; xff; x80; x00] [x10; x20]) (afterInitMic Running)
           (mkAnalyser FFT_SIZE) (new_Uint8Array 4) (new_Uint8Array 2) NegInf
           [Loop (AnimationFrame (mkSignal [] []));
            Loop (CallStartAnalysis (Some (fun _ => Passive)) None)]
           eq_refl eq_refl).
Defined.

(** X25: a subscriber that throws ends the loop and blocks its restart.
    The exception leaves the tick before the visualization subscriber is
    called and before the next frame is requested, and [animationFrameId]
    keeps the handle of the callback that ran.  So later frames publish
    nothing, and [startAnalysis], finding the handle, takes the loop for
    running and does nothing, until [stopAnalysis] has been called. *)
Theorem throwing_subscriber_ends_the_loop
    (v : VisualizationCallback) (m' : MetricsCallback) (v' : VisualizationCallback)
    (sig sig' : Signal) :
  let tick := runFrame sig (startAnalysis (Some (fun _ => Throws)) v
                                          (afterInitMic Running)) in
  (exists m, snd tick = [MetricsUpdate m])
  /\ frameCallbacks (queue (fst tick)) = []
  /\ animationFrameId (fst tick) = Some 1
  /\ snd (runFrame sig' (fst tick)) = []
  /\ startAnalysis m' v' (fst tick) = fst tick
  /\ map fst (frameCallbacks (queue (startAnalysis m' v' (stopAnalysis (fst tick)))))
     = [2].
Proof.
  cbv zeta. unfold runFrame.
  cbn -[processAudioLoop calculateMetrics copy_into new_Uint8Array FFT_SIZE Nat.div2].
  tick. repeat split; eauto.
Qed.

End ApiRuns.

(* ================================================================= *)
(** ** More on the metrics, and the tips drawn from them *)

Section MetricsBounds.
Import Analyzer.
Local Open Scope R_scope.

Lemma rmsDBFS_cases (w : Uint8Array) :
  rmsDBFS w = NegInf \/ exists r, rmsDBFS w = Finite r.
Proof.
  unfold rmsDBFS. destruct w as [| b w].
  - rewrite rmsLinearOf_empty. now left.
  - rewrite rmsLinearOf_nonempty by discriminate.
    unfold toDBFS. rewrite jgt_finite_0. unfold Rltb.
    destruct (Rlt_dec 0 _) as [Hpos | Hnpos]; [| now left].
    rewrite jlog10_pos by exact Hpos. right. eexists. reflexivity.
Qed.

(** The noise level only ever holds levels of silent ticks. *)
Lemma noiseLevelAfter_below (ws : list Uint8Array) :
  noiseLevelAfter ws = NegInf \/
  exists x, noiseLevelAfter ws = Finite x /\ x < -50.
Proof.
  induction ws as [| w ws IH] using rev_ind; [now left |].
  rewrite noiseLevelAfter_snoc. unfold updateNoiseLevel.
  destruct (jlt (rmsDBFS w) silenceThreshold) eqn:Hsilent; [| exact IH].
  destruct (rmsDBFS_cases w) as [-> | [r Hr]].
  - destruct IH as [-> | [x [-> Hx]]]; cbn; [now left | right; eauto].
  - rewrite Hr in *. cbn in Hsilent. unfold Rltb in Hsilent.
    destruct (Rlt_dec r (-50)) as [Hlt | _]; [| discriminate].
    destruct IH as [-> | [x [-> Hx]]]; cbn.
    + right. eauto.
    + right. eexists. split; [reflexivity |]. now apply Rmax_case.
Qed.

Lemma displayed_noise_below (ws : list Uint8Array) (w : Uint8Array) :
  exists x, noiseLevel (snd (calculateMetrics (noiseLevelAfter ws) w)) = Finite x
            /\ x < -50.
Proof.
  change (noiseLevel (snd (calculateMetrics (noiseLevelAfter ws) w)))
    with (forDisplay (fst (calculateMetrics (noiseLevelAfter ws) w))).
  rewrite calculateMetrics_noise, <- noiseLevelAfter_snoc.
  destruct (noiseLevelAfter_below (ws ++ [w])) as [-> | [x [-> Hx]]]; cbn.
  - exists (-100). split; [reflexivity | lra].
  - eauto.
Qed.

(** X4: in every snapshot of a run of ticks, from the first on, the
    noise level shown is a finite level below the silence threshold of
    -50 dBFS. *)
Theorem noise_level_shown_below_threshold (ws : list Uint8Array) (w : Uint8Array) :
  let m := snd (calculateMetrics (noiseLevelAfter ws) w) in
  isFinite (noiseLevel m) = true
  /\ jlt (noiseLevel m) silenceThreshold = true
  /\ exists x, noiseLevel m = Finite x /\ x < -50.
Proof.
  cbv zeta. destruct (displayed_noise_below ws w) as [x [Hx Hlt]].
  rewrite Hx. cbn. rewrite Rltb_true by exact Hlt. eauto.
Qed.

(** X5: for the snapshots of the analysis loop the tip about high noise
    is never generated, its test asking for a noise level above -45; at
    most two tips are generated. *)
Theorem noise_tip_is_never_generated (ws : list Uint8Array) (w : Uint8Array) :
  let m := snd (calculateMetrics (noiseLevelAfter ws) w) in
  ~ In "tips.noiseHigh"%string (map App.textKey (App.generateActionableTips m))
  /\ (length (App.generateActionableTips m) <= 2)%nat.
Proof.
  cbv zeta. destruct (displayed_noise_below ws w) as [x [Hx Hlt]].
  unfold App.generateActionableTips. rewrite Hx.
  unfold App.noiseThreshold. cbn [jgt jlt]. rewrite Rltb_false by lra.
  rewrite app_nil_r.
  destruct (clipping _); [| destruct (_ && _)];
    destruct (jlt _ App.lowVolumeThreshold && _); cbn;
    (split; [intros H; repeat (destruct H as [H | H]; [discriminate |]); exact H | lia]).
Qed.

Lemma jgt_jlt_contradict (a : jsnum) (x y : R) :
  y <= x -> jgt a (Finite x) && jlt a (Finite y) = false.
Proof.
  intro Hxy. destruct a as [| | | r]; try reflexivity.
  cbn. unfold Rltb.
  destruct (Rlt_dec x r), (Rlt_dec r y); try reflexivity. lra.
Qed.

(** X6: whatever the metrics, the tips about clipping and about high
    volume are never generated together, nor are those about high and
    about low volume; no tip is generated twice. *)
Theorem tips_are_exclusive (metrics : Metrics) :
  let keys := map App.textKey (App.generateActionableTips metrics) in
  ~ (In "tips.clippingDetected"%string keys /\ In "tips.volumeHigh"%string keys)
  /\ ~ (In "tips.volumeHigh"%string keys /\ In "tips.volumeLow"%string keys)
  /\ NoDup keys.
Proof.
  cbv zeta. unfold App.generateActionableTips.
  assert (Hexcl : forall a,
             jgt a App.highVolumeThreshold && jlt a (Finite (-1)) = true ->
             jlt a App.lowVolumeThreshold && jgt a (Finite (-55)) = false).
  { intros a Ha. apply andb_true_iff in Ha. destruct Ha as [Hhigh _].
    destruct (jlt a App.lowVolumeThreshold) eqn:Hlow; [| reflexivity].
    exfalso.
    assert (H : jgt a (Finite (-6)) && jlt a (Finite (-25)) = false)
      by (apply jgt_jlt_contradict; lra).
    unfold App.highVolumeThreshold, App.lowVolumeThreshold in *.
    rewrite Hhigh, Hlow in H. discriminate. }
  destruct (clipping metrics).
  - destruct (jlt _ App.lowVolumeThreshold && _), (jgt (noiseLevel metrics) _); cbn;
      (split; [intros [_ H]; repeat (destruct H as [H | H]; [discriminate |]); exact H |]);
      (split; [intros [H _]; repeat (destruct H as [H | H]; [discriminate |]); exact H |]);
      repeat constructor; cbn; intuition discriminate.
  - destruct (jgt _ App.highVolumeThreshold && _) eqn:Hhigh.
    + rewrite (Hexcl _ Hhigh).
      destruct (jgt (noiseLevel metrics) _); cbn;
        (split; [intros [H _]; repeat (destruct H as [H | H]; [discriminate |]); exact H |]);
        (split; [intros [_ H]; repeat (destruct H as [H | H]; [discriminate |]); exact H |]);
        repeat constructor; cbn; intuition discriminate.
    + destruct (jlt _ App.lowVolumeThreshold && _), (jgt (noiseLevel metrics) _); cbn;
        (split; [intros [H _]; repeat (destruct H as [H | H]; [discriminate |]); exact H |]);
        (split; [intros [H _]; repeat (destruct H as [H | H]; [discriminate |]); exact H |]);
        repeat constructor; cbn; intuition discriminate.
Qed.

End MetricsBounds.

Section MetricsRanges.
Import Analyzer.
Local Open Scope R_scope.

Lemma Rsum_normalized_bounds (w : Uint8Array) :
  - INR (length w) <= Rsum (map normalized w) <= INR (length w) * (127 / 128).
Proof.
  induction w as [| b w IH].
  - cbn. lra.
  - change (length (b :: w)) with (S (length w)). rewrite S_INR.
    change (Rsum (map normalized (b :: w)))
      with (normalized b + Rsum (map normalized w)).
    pose proof (normalized_range b). lra.
Qed.

(** X7: the DC offset of a non-empty window is a number between -1 and
    127/128, the amplitudes of the bytes 0 and 255. *)
Theorem dcOffset_within_amplitude_range (last : jsnum) (w : Uint8Array) :
  w <> [] ->
  exists d, dcOffset (snd (calculateMetrics last w)) = Finite d
            /\ -1 <= d <= 127 / 128.
Proof.
  intro Hne. unfold calculateMetrics. cbn [snd dcOffset].
  rewrite accumulate_eq. cbn [sumValues]. unfold of_nat.
  assert (Hlen : 0 < INR (length w)).
  { apply lt_0_INR. destruct w; [contradiction | cbn; lia]. }
  rewrite jdiv_finite by lra.
  eexists. split; [reflexivity |].
  pose proof (Rsum_normalized_bounds w) as [Hlo Hhi].
  split.
  - apply Rmult_le_reg_r with (INR (length w)); [exact Hlen |].
    unfold Rdiv. rewrite Rmult_assoc, Rinv_l by lra. lra.
  - apply Rmult_le_reg_r with (INR (length w)); [exact Hlen |].
    unfold Rdiv at 1. rewrite Rmult_assoc, Rinv_l by lra. lra.
Qed.

(** X7 on a window of four bytes. *)
Lemma dcOffset_within_amplitude_range_witness :
  exists d, dcOffset (snd (calculateMetrics NegInf [x00; x80; xff; x7f])) = Finite d
            /\ -1 <= d <= 127 / 128.
Proof. apply dcOffset_within_amplitude_range. discriminate. Defined.

Lemma to_N_x80 (b : byte) : Byte.to_N b = 128%N -> b = x80.
Proof.
  intro H. pose proof (Byte.of_to_N b) as Hb. rewrite H in Hb.
  cbn in Hb. now injection Hb.
Qed.

(** A sample is at the midpoint or at least one step away from it. *)
Lemma normalized_step (b : byte) :
  (b = x80 /\ normalized b = 0) \/ (b <> x80 /\ / 128 <= Rabs (normalized b)).
Proof.
  destruct (N.eq_dec (Byte.to_N b) 128) as [Heq | Hne].
  - left. apply to_N_x80 in Heq. subst. split; [reflexivity | apply normalized_x80].
  - right. split; [intros ->; now apply Hne |].
    unfold normalized. pose proof (Byte.to_N_bounded b) as Hb.
    destruct (Z_lt_le_dec (Z.of_N (Byte.to_N b)) 128) as [Hlt | Hge].
    + assert (IZR (Z.of_N (Byte.to_N b)) <= 127) by (apply IZR_le; lia).
      rewrite Rabs_left by lra. lra.
    + assert (129 <= IZR (Z.of_N (Byte.to_N b))) by (apply IZR_le; lia).
      rewrite Rabs_right by lra. lra.
Qed.

Lemma peak_zero_or_step (w : Uint8Array) :
  (Forall (fun b => b = x80) w /\ Rmaximum (absolutes w) = 0)
  \/ (~ Forall (fun b => b = x80) w /\ / 128 <= Rmaximum (absolutes w)).
Proof.
  induction w as [| b w IH].
  - left. split; [constructor | reflexivity].
  - change (Rmaximum (absolutes (b :: w)))
      with (Rmax (Rabs (normalized b)) (Rmaximum (absolutes w))).
    destruct (normalized_step b) as [[-> Hb] | [Hb Hstep]].
    + rewrite Hb, Rabs_R0.
      destruct IH as [[Hall H0] | [Hnot Hstep]].
      * left. split; [now constructor |]. rewrite H0. now apply Rmax_left.
      * right. split; [intro H; inversion H; contradiction |].
        eapply Rle_trans; [exact Hstep | apply Rmax_r].
    + right. split; [intro H; inversion H; contradiction |].
      eapply Rle_trans; [exact Hstep | apply Rmax_l].
Qed.

Lemma log10_1000 : log10 1000 = 3.
Proof.
  unfold log10. pose proof ln10_pos as H10.
  replace 1000 with (10 * (10 * 10)) by lra.
  rewrite !ln_mult by lra. field. lra.
Qed.

Lemma log10_inv (x : R) : 0 < x -> log10 (/ x) = - log10 x.
Proof.
  intro Hx. unfold log10. rewrite ln_Rinv by exact Hx.
  pose proof ln10_pos. field. lra.
Qed.

Lemma log10_step_above_floor : -100 < 20 * log10 (/ 128).
Proof.
  rewrite log10_inv by lra.
  assert (log10 128 <= log10 1000) by (apply log10_le; lra).
  rewrite log10_1000 in *. lra.
Qed.

(** X8: the peak level of a snapshot is at the floor of -100 exactly when
    every byte of the window is 128, and exactly then its display shows
    dashes; for any other window the peak level is at least that of one
    quantization step, [20 * log10 (1 / 128)]. *)
Theorem peak_at_floor_iff_midpoint (last : jsnum) (w : Uint8Array) :
  let m := snd (calculateMetrics last w) in
  (peakVolume m = floorValue <-> Forall (fun b => b = x80) w)
  /\ (UiPage.formatDBFS (peakVolume m) = UiPage.Dashes
      <-> Forall (fun b => b = x80) w)
  /\ (~ Forall (fun b => b = x80) w ->
      exists p, peakVolume m = Finite p /\ 20 * log10 (/ 128) <= p).
Proof.
  cbv zeta. rewrite peakVolume_eq, accumulate_eq. cbn [peakLinear].
  pose proof log10_step_above_floor as Hfloor.
  destruct (peak_zero_or_step w) as [[Hall H0] | [Hnot Hstep]].
  - rewrite H0, toDBFS_zero. cbn [forDisplay isFinite].
    repeat split; auto; try contradiction.
    unfold UiPage.formatDBFS, floorValue. cbn.
    unfold JsMath.Rleb. destruct (Rle_dec (-100) (-100)); [reflexivity | lra].
  - assert (Hpos : 0 < Rmaximum (absolutes w)).
    { eapply Rlt_le_trans; [| exact Hstep]. lra. }
    rewrite toDBFS_pos by exact Hpos. cbn [forDisplay isFinite].
    assert (Hp : 20 * log10 (/ 128) <= 20 * log10 (Rmaximum (absolutes w))).
    { assert (log10 (/ 128) <= log10 (Rmaximum (absolutes w)))
        by (apply log10_le; lra).
      lra. }
    split; [| split].
    + split; [| contradiction]. unfold floorValue. intros [= H]. lra.
    + split; [| contradiction].
      unfold UiPage.formatDBFS. cbn. unfold JsMath.Rleb.
      destruct (Rle_dec _ (-100)); [lra | discriminate].
    + intros _. eauto.
Qed.

Lemma nearExtreme_amplitude (b : byte) :
  nearExtreme b = true -> 63 / 64 <= Rabs (normalized b).
Proof.
  intro H. apply nearExtreme_spec in H. unfold normalized.
  pose proof (Byte.to_N_bounded b) as Hb.
  destruct H as [H | H].
  - assert (254 <= IZR (Z.of_N (Byte.to_N b))) by (apply IZR_le; lia).
    rewrite Rabs_right by lra. lra.
  - assert (IZR (Z.of_N (Byte.to_N b)) <= 1) by (apply IZR_le; lia).
    rewrite Rabs_left by lra. lra.
Qed.

Lemma existsb_peak (w : Uint8Array) :
  existsb nearExtreme w = true -> 63 / 64 <= Rmaximum (absolutes w).
Proof.
  induction w as [| b w IH]; [discriminate |].
  change (Rmaximum (absolutes (b :: w)))
    with (Rmax (Rabs (normalized b)) (Rmaximum (absolutes w))).
  cbn [existsb]. intro H. apply orb_true_iff in H. destruct H as [H | H].
  - apply Rle_trans with (Rabs (normalized b));
      [now apply nearExtreme_amplitude | apply Rmax_l].
  - apply Rle_trans with (Rmaximum (absolutes w)); [now apply IH | apply Rmax_r].
Qed.

(** X9: a snapshot that reports clipping has a peak level within
    [20 * log10 (63 / 64)] of full scale: between that level and 0. *)
Theorem clipping_means_peak_near_full_scale (last : jsnum) (w : Uint8Array) :
  clipping (snd (calculateMetrics last w)) = true ->
  exists p, peakVolume (snd (calculateMetrics last w)) = Finite p
            /\ 20 * log10 (63 / 64) <= p <= 0.
Proof.
  rewrite clipping_existsb. intro Hclip. apply existsb_peak in Hclip.
  rewrite peakVolume_eq, accumulate_eq. cbn [peakLinear].
  pose proof (Rmaximum_absolutes_le_1 w) as H1.
  rewrite toDBFS_pos by lra. cbn [forDisplay isFinite].
  eexists. split; [reflexivity |]. split.
  - assert (log10 (63 / 64) <= log10 (Rmaximum (absolutes w)))
      by (apply log10_le; lra).
    lra.
  - assert (log10 (Rmaximum (absolutes w)) <= 0) by (apply log10_nonpos; lra).
    lra.
Qed.

(** X9 on a window holding the byte 255. *)
Lemma clipping_means_peak_near_full_scale_witness :
  exists p, peakVolume (snd (calculateMetrics NegInf [x80; xff; x80])) = Finite p
            /\ 20 * log10 (63 / 64) <= p <= 0.
Proof. apply clipping_means_peak_near_full_scale. reflexivity. Defined.

(** X10: the silence flag of a snapshot agrees with the rms level the
    snapshot shows: it is set exactly when that level is below -50. *)
Theorem silence_flag_matches_shown_rms (last : jsnum) (w : Uint8Array) :
  let m := snd (calculateMetrics last w) in
  isSilent m = jlt (rmsVolume m) (Finite (-50)).
Proof.
  cbv zeta. rewrite rmsVolume_eq.
  change (isSilent (snd (calculateMetrics last w)))
    with (jlt (rmsDBFS w) silenceThreshold).
  fold (rmsDBFS w).
  destruct (rmsDBFS_cases w) as [-> | [r ->]]; cbn.
  - symmetry. apply Rltb_true. lra.
  - reflexivity.
Qed.

End MetricsRanges.

(* ================================================================= *)
(** ** Drawing and the volume display *)

Section VolumeLevel.
Import Analyzer.
Import Visualizer.
Local Open Scope R_scope.

Lemma skipn_nth_error_Some (A : Type) (l : list A) (k : nat) (a : A) :
  nth_error l k = Some a -> skipn k l = a :: skipn (S k) l.
Proof.
  revert l. induction k as [| k IH]; intros [| x l] H; try discriminate.
  - cbn in H. injection H as ->. reflexivity.
  - cbn in H. cbn [skipn]. rewrite (IH l H). reflexivity.
Qed.

Lemma skipn_nth_error_None (A : Type) (l : list A) (k : nat) :
  nth_error l k = None -> skipn k l = [] /\ skipn (S k) l = [].
Proof.
  intro H. apply nth_error_None in H.
  split; apply skipn_all2; lia.
Qed.

Lemma Rmax_as_if (p v : R) : (if Rltb p v then v else p) = Rmax p v.
Proof.
  unfold Rltb, Rmax.
  destruct (Rlt_dec p v), (Rle_dec p v); try reflexivity; lra.
Qed.

Lemma peakStep_in (data : Uint8Array) (p : R) (i : nat) (b : byte) :
  nth_error data i = Some b ->
  peakStep data (Finite p) i = Finite (Rmax p (Rabs (normalized b))).
Proof.
  intro H. unfold peakStep, element. rewrite H.
  change (jsub (jdiv (of_byte b) (Finite 128)) (Finite 1)) with (valueFloat b).
  rewrite valueFloat_normalized. cbn [jabs jgt jlt].
  rewrite <- Rmax_as_if. destruct (Rltb p (Rabs (normalized b))); reflexivity.
Qed.

Lemma peakStep_out (data : Uint8Array) (p : R) (i : nat) :
  nth_error data i = None -> peakStep data (Finite p) i = Finite p.
Proof. intro H. unfold peakStep, element. rewrite H. reflexivity. Qed.

Lemma peak_fold (data : Uint8Array) (m : nat) :
  forall (k : nat) (p : R), 0 <= p ->
  fold_left (peakStep data) (seq k m) (Finite p) =
  Finite (Rmax p (Rmaximum (absolutes (firstn m (skipn k data))))).
Proof.
  induction m as [| m IH]; intros k p Hp.
  - cbn. now rewrite Rmax_left.
  - cbn [seq fold_left].
    destruct (nth_error data k) as [b |] eqn:Hk.
    + rewrite (@peakStep_in data p k b Hk).
      rewrite IH by (eapply Rle_trans; [exact Hp | apply Rmax_l]).
      rewrite (@skipn_nth_error_Some _ data k b Hk). cbn [firstn].
      change (Rmaximum (absolutes (b :: firstn m (skipn (S k) data))))
        with (Rmax (Rabs (normalized b))
                   (Rmaximum (absolutes (firstn m (skipn (S k) data))))).
      now rewrite Rmax_assoc.
    + rewrite (@peakStep_out data p k Hk), IH by exact Hp.
      destruct (@skipn_nth_error_None _ data k Hk) as [-> ->].
      now rewrite !firstn_nil.
Qed.

Lemma peakOf_real (data : Uint8Array) (n : nat) :
  peakOf data n = Finite (Rmaximum (absolutes (firstn n data))).
Proof.
  unfold peakOf. rewrite peak_fold by lra. cbn [skipn].
  now rewrite Rmax_right by apply Rmaximum_nonneg.
Qed.

(** X11: the level [draw] returns is the peak amplitude the analysis loop
    of js/analyzer.js computes for the same samples: the maximum magnitude
    over the first [bufferLength] samples, indices beyond the array being
    skipped; it lies between 0 and 1. *)
Theorem draw_level_matches_analyzer_peak (data : Uint8Array) (bufferLength : nat) :
  peakOf data bufferLength = peakLinear (accumulate (firstn bufferLength data))
  /\ exists p, peakOf data bufferLength = Finite p /\ 0 <= p <= 1.
Proof.
  rewrite peakOf_real, accumulate_eq. cbn [peakLinear]. split; [reflexivity |].
  eexists. split; [reflexivity |].
  split; [apply Rmaximum_nonneg | apply Rmaximum_absolutes_le_1].
Qed.

Lemma Rfloor_bounds (y : R) : IZR (JsMath.Rfloor y) <= y < IZR (JsMath.Rfloor y) + 1.
Proof.
  unfold JsMath.Rfloor. destruct (archimed y) as [H1 H2].
  rewrite minus_IZR. lra.
Qed.

(** X12: for the level of any window the volume meter is set to that
    level times 100 percent, which the clamping to 0..100 leaves as it
    is, and the percentage in the results bar is a whole number from 0
    to 100. *)
Theorem volume_display_in_percent (data : Uint8Array) (bufferLength : nat) :
  let level := peakOf data bufferLength in
  updateVolumeMeter level = jmul level (Finite 100)
  /\ exists k : Z, volumePercent level = Finite (IZR k) /\ (0 <= k <= 100)%Z.
Proof.
  cbv zeta. rewrite peakOf_real.
  set (p := Rmaximum (absolutes (firstn bufferLength data))).
  assert (Hp0 : 0 <= p) by apply Rmaximum_nonneg.
  assert (Hp1 : p <= 1) by apply Rmaximum_absolutes_le_1.
  split.
  - unfold updateVolumeMeter. cbn.
    rewrite Rmax_right by lra. rewrite Rmin_right by lra. reflexivity.
  - unfold volumePercent. cbn [jmul JsMath.jround].
    exists (JsMath.Rfloor (p * 100 + / 2)). split; [reflexivity |].
    pose proof (Rfloor_bounds (p * 100 + / 2)) as [Hlo Hhi].
    split.
    + apply Z.lt_succ_r, lt_IZR. rewrite succ_IZR. lra.
    + apply Z.lt_succ_r, lt_IZR. rewrite succ_IZR. lra.
Qed.

End VolumeLevel.

Section CanvasGeometry.
Import UiPage.
Local Open Scope R_scope.

Lemma byte_fraction (b : byte) (d : R) :
  255 <= d -> 0 <= IZR (Z.of_N (Byte.to_N b)) / d <= 1.
Proof.
  intro Hd. pose proof (byte_range b) as [H0 H255].
  assert (Hinv : 0 < / d) by (apply Rinv_0_lt_compat; lra).
  unfold Rdiv. split.
  - apply Rmult_le_pos; lra.
  - apply Rmult_le_reg_r with d; [lra |].
    rewrite Rmult_assoc, Rinv_l by lra. lra.
Qed.

(** The [i]-th bar the loop draws, in closed form. *)
Lemma bars_nth (H bw : R) (fd : list byte) :
  forall (x0 : R) (i : nat) (b : byte),
  nth_error fd i = Some b ->
  nth_error (bars (Finite H) (Finite bw) (Finite x0) fd) i =
  Some (Bar (Finite (x0 + INR i * (bw + 1)))
            (Finite (H - IZR (Z.of_N (Byte.to_N b)) / 255 * H))
            (Finite bw)
            (Finite (IZR (Z.of_N (Byte.to_N b)) / 255 * H))).
Proof.
  induction fd as [| c fd IH]; intros x0 i b Hi; [destruct i; discriminate |].
  destruct i as [| i].
  - cbn in Hi. injection Hi as ->.
    cbn [bars nth_error]. unfold of_byte, of_N. rewrite jdiv_finite by lra.
    cbn [jmul jsub jadd jneg INR]. do 2 f_equal. f_equal. lra.
  - cbn [nth_error] in Hi. cbn [bars nth_error jadd].
    rewrite (IH _ i b Hi). do 2 f_equal. f_equal. rewrite S_INR. lra.
Qed.

Lemma bars_length (height barWidth : jsnum) (fd : list byte) :
  forall x : jsnum, length (bars height barWidth x fd) = length fd.
Proof. induction fd as [| c fd IH]; intro x; cbn; [reflexivity | now rewrite IH]. Qed.

(** X13: called as the analysis loop calls it, with two arguments,
    [drawVisualization] clears the canvas and draws the spectrum, one bar
    per frequency bin and nothing of the waveform.  Bar [i] has the width
    [1.5 * width / n], starts at [i * (barWidth + 1)], stands on the lower
    edge and is as high as its byte's share of the canvas height; so the
    bars of the bins from two thirds of the way up begin at or beyond the
    right edge of the canvas. *)
Theorem spectrum_bars_geometry (width height : nat) (td : option Uint8Array)
    (fd : Uint8Array) (i : nat) (b : byte) :
  nth_error fd i = Some b ->
  let n := length fd in
  let barWidth := INR width / INR n * (3 / 2) in
  let drawn := drawVisualization width height td (Some fd) None in
  exists x barHeight,
    nth_error drawn (S i) =
      Some (Bar (Finite x) (Finite (INR height - barHeight))
                (Finite barWidth) (Finite barHeight))
    /\ x = INR i * (barWidth + 1)
    /\ barHeight = IZR (Z.of_N (Byte.to_N b)) / 255 * INR height
    /\ 0 <= barHeight <= INR height
    /\ ((2 * n <= 3 * i)%nat -> INR width <= x)
    /\ nth_error drawn 0 = Some ClearCanvas
    /\ length drawn = S n.
Proof.
  intro Hi. cbv zeta.
  assert (Hn : 0 < INR (length fd)).
  { apply lt_0_INR. destruct fd; [destruct i; discriminate | cbn; lia]. }
  unfold drawVisualization. cbn [String.eqb Ascii.eqb Bool.eqb].
  rewrite app_nil_r. unfold of_nat at 2 3.
  rewrite jdiv_finite by lra. cbn [jmul nth_error length].
  unfold of_nat. rewrite (@bars_nth _ _ fd 0 i b Hi), bars_length.
  rewrite Rplus_0_l.
  eexists _, _. split; [reflexivity |].
  split; [reflexivity |]. split; [reflexivity |].
  pose proof (byte_fraction b (d := 255) (Rle_refl _)) as [Hf0 Hf1].
  pose proof (pos_INR height) as Hh. pose proof (pos_INR width) as Hw.
  pose proof (pos_INR i) as Hipos.
  split; [split; nra |]. split; [| split; reflexivity].
  intro Hthird.
  assert (Hq : 2 * INR (length fd) <= 3 * INR i).
  { replace 2 with (INR 2) by (cbn; lra). replace 3 with (INR 3) by (cbn; lra).
    rewrite <- !mult_INR. now apply le_INR. }
  set (q := INR width / INR (length fd)).
  assert (Hq0 : 0 <= q).
  { unfold q, Rdiv. apply Rmult_le_pos; [lra |]. left. now apply Rinv_0_lt_compat. }
  assert (Hwq : INR width = q * INR (length fd)).
  { unfold q. field. lra. }
  rewrite Hwq at 1. nra.
Qed.

(** X13 on a canvas of 600 by 200 and four bins. *)
Lemma spectrum_bars_geometry_witness :
  exists x barHeight,
    nth_error (drawVisualization 600 200 None (Some [x00; x40; x80; xff]) None) 4 =
      Some (Bar (Finite x) (Finite (INR 200 - barHeight))
                (Finite (INR 600 / INR 4 * (3 / 2))) (Finite barHeight))
    /\ INR 600 <= x.
Proof.
  destruct (@spectrum_bars_geometry 600 200 None [x00; x40; x80; xff] 3 xff eq_refl)
    as (x & barHeight & H1 & _ & _ & _ & H5 & _).
  exists x, barHeight. split; [exact H1 |]. apply H5. cbn. lia.
Defined.

End CanvasGeometry.

Section WaveformGeometry.
Import UiPage.
Import Visualizer.
Local Open Scope R_scope.

(** The [j]-th point the loop of [drawWaveform] draws over the indices
    [k, k+1, ...], in closed form. *)
Lemma waveform_nth (data : Uint8Array) (H slice : R) (m : nat) :
  forall (k j : nat) (x0 : R) (b : byte),
  (j < m)%nat -> nth_error data (k + j) = Some b ->
  nth_error (waveform data (Finite H) (Finite slice) (Finite x0) (seq k m)) j =
  Some ((match (k + j)%nat with O => MoveTo | S _ => LineTo end)
          (Finite (x0 + INR j * slice))
          (Finite (IZR (Z.of_N (Byte.to_N b)) / 128 * H / 2))).
Proof.
  induction m as [| m IH]; intros k j x0 b Hj Hb; [lia |].
  cbn [seq waveform]. destruct j as [| j].
  - rewrite Nat.add_0_r in *. cbn [nth_error]. unfold element. rewrite Hb.
    unfold of_byte, of_N. rewrite jdiv_finite by lra. cbn [jmul].
    rewrite jdiv_finite by lra.
    replace (x0 + INR 0 * slice) with x0 by (cbn; lra).
    destruct k; reflexivity.
  - cbn [nth_error jadd].
    replace (k + S j)%nat with (S k + j)%nat in * by lia.
    rewrite (IH (S k) j (x0 + slice) b) by (lia || exact Hb).
    replace (x0 + slice + INR j * slice) with (x0 + INR (S j) * slice)
      by (rewrite S_INR; lra).
    reflexivity.
Qed.

Lemma waveform_length (data : Uint8Array) (height slice : jsnum) (indices : list nat) :
  forall x : jsnum, length (waveform data height slice x indices) = length indices.
Proof.
  induction indices as [| i indices IH]; intro x; cbn; [reflexivity | now rewrite IH].
Qed.

(** X14: every sample inside the array is drawn on the canvas.  Point [i]
    of the waveform lies at [x = i * width / bufferLength], left of the
    right edge, and at [y = b / 128 * height / 2], between the upper and
    the lower edge; the first point starts the path, and a sample at the
    midpoint 128 lies at half the height. *)
Theorem waveform_stays_on_canvas (width height : nat) (data : Uint8Array)
    (bufferLength i : nat) (b : byte) :
  (i < bufferLength)%nat ->
  nth_error data i = Some b ->
  exists x y,
    nth_error (drawWaveform width height data bufferLength) (S i) =
      Some ((match i with O => MoveTo | S _ => LineTo end) (Finite x) (Finite y))
    /\ x = INR i * (INR width / INR bufferLength)
    /\ y = IZR (Z.of_N (Byte.to_N b)) / 128 * INR height / 2
    /\ 0 <= x <= INR width
    /\ 0 <= y <= INR height
    /\ (b = x80 -> y = INR height / 2).
Proof.
  intros Hi Hb.
  assert (Hn : 0 < INR bufferLength) by (apply lt_0_INR; lia).
  unfold drawWaveform, of_nat. cbn [jmul]. rewrite jdiv_finite by lra.
  cbn [nth_error].
  rewrite nth_error_app1 by (rewrite waveform_length, length_seq; exact Hi).
  rewrite (@waveform_nth data _ _ bufferLength 0 i 0 b Hi Hb).
  cbn [Nat.add].
  eexists _, _. split; [reflexivity |].
  pose proof (pos_INR width) as Hw. pose proof (pos_INR height) as Hh.
  pose proof (pos_INR i) as Hi0.
  pose proof (byte_fraction b (d := 128)) as Hfrac.
  pose proof (byte_range b) as [Hb0 Hb255].
  assert (Hinv : 0 < / INR bufferLength) by now apply Rinv_0_lt_compat.
  assert (Hile : INR i <= INR bufferLength) by (apply le_INR; lia).
  split; [unfold Rdiv; lra |]. split; [reflexivity |].
  split; [| split].
  - split.
    + rewrite Rplus_0_l. apply Rmult_le_pos; [lra |].
      unfold Rdiv. apply Rmult_le_pos; [lra |]. lra.
    + rewrite Rplus_0_l.
      replace (INR i * (INR width * 1 / INR bufferLength))
        with (INR width * (INR i * / INR bufferLength)) by (unfold Rdiv; lra).
      assert (INR i * / INR bufferLength <= 1).
      { apply Rmult_le_reg_r with (INR bufferLength); [exact Hn |].
        rewrite Rmult_assoc, Rinv_l by lra. lra. }
      nra.
  - assert (Hq : 0 <= IZR (Z.of_N (Byte.to_N b)) / 128 <= 2).
    { unfold Rdiv. lra. }
    nra.
  - intros ->. cbn. lra.
Qed.

(** X14 on two samples. *)
Lemma waveform_stays_on_canvas_witness :
  exists x y,
    nth_error (drawWaveform 600 200 [x80; xff] 2) 2 = Some (LineTo (Finite x) (Finite y))
    /\ 0 <= x <= INR 600 /\ 0 <= y <= INR 200.
Proof.
  assert (Hi : (1 < 2)%nat) by lia.
  destruct (@waveform_stays_on_canvas 600 200 [x80; xff] 2 1 xff Hi eq_refl)
    as (x & y & H1 & _ & _ & H4 & H5 & _).
  exists x, y. auto.
Defined.

End WaveformGeometry.

(* ================================================================= *)
(** ** The application of js/app.js *)

Section AppRuns.
Import App.
Local Open Scope string_scope.

Lemma micAnalyzer_hides_its_variables :
  micAnalyzerHas "mediaRecorder" = false /\ micAnalyzerHas "analyserNode" = false.
Proof. split; reflexivity. Qed.

Ltac settle_app :=
  cbn; repeat split; auto; try discriminate; try congruence;
  try (intros H; repeat (destruct H as [H | H]; [discriminate |]); exact H).

(** One event keeps the record button disabled and the application out
    of the recording state, and asks for no recording. *)
Lemma appStep_never_records (a : App) (e : AppEvent) :
  record (buttons a) = false -> appState a <> st_recording ->
  record (buttons (fst (appStep a e))) = false
  /\ appState (fst (appStep a e)) <> st_recording
  /\ ~ In MicStartRecording (snd (appStep a e))
  /\ ~ In MicStopRecording (snd (appStep a e)).
Proof.
  intros Hrec Hst.
  assert (Hnone : forall x : App,
             record (buttons x) = false -> appState x <> st_recording ->
             record (buttons x) = false /\ appState x <> st_recording
             /\ ~ In MicStartRecording (@nil AppCall) /\ ~ In MicStopRecording (@nil AppCall))
    by (intros; repeat split; auto).
  destruct e; cbn [appStep].
  - destruct (start (buttons a)); [| now apply Hnone].
    unfold handleStartClick. destruct (appState a) eqn:Hs; settle_app.
  - destruct (stop (buttons a)); [| now apply Hnone].
    unfold handleStopClick. destruct (appState a) eqn:Hs; settle_app.
  - rewrite Hrec. now apply Hnone.
  - destruct (play (buttons a)); [| now apply Hnone].
    unfold handlePlayClick.
    destruct (currentBlobUrl a), (appState a) eqn:Hs; settle_app.
  - unfold initMicSettled.
    destruct (pendingInit a); [now apply Hnone |].
    destruct result; settle_app.
  - settle_app.
  - settle_app.
  - settle_app.
  - unfold handleRecordingStop. settle_app.
  - unfold handleRecordingError. settle_app.
  - destruct (currentBlobUrl a); settle_app.
Qed.

(** X15: the application never enables its record button.
    [window.MicAnalyzer] exposes its functions only, so the tests of
    [MicAnalyzer.mediaRecorder] and [MicAnalyzer.analyserNode] are always
    false; over every sequence of clicks on enabled buttons and of
    callbacks the button stays disabled, the state 'recording' is never
    entered and neither [startRecording] nor [stopRecording] is called. *)
Theorem record_button_is_never_enabled (es : list AppEvent) :
  record (buttons (fst (appRun initial es))) = false
  /\ appState (fst (appRun initial es)) <> st_recording
  /\ ~ In MicStartRecording (snd (appRun initial es))
  /\ ~ In MicStopRecording (snd (appRun initial es)).
Proof.
  assert (Hgen : forall es a,
             record (buttons a) = false -> appState a <> st_recording ->
             record (buttons (fst (appRun a es))) = false
             /\ appState (fst (appRun a es)) <> st_recording
             /\ ~ In MicStartRecording (snd (appRun a es))
             /\ ~ In MicStopRecording (snd (appRun a es))).
  { clear es. induction es as [| e es IH]; intros a Hrec Hst; cbn [appRun].
    - cbn. auto.
    - destruct (@appStep_never_records a e Hrec Hst) as (H1 & H2 & H3 & H4).
      destruct (appStep a e) as [a1 out1]. cbn [fst snd] in *.
      destruct (IH a1 H1 H2) as (H5 & H6 & H7 & H8).
      destruct (appRun a1 es) as [a2 out2]. cbn [fst snd] in *.
      repeat split; auto; rewrite in_app_iff; tauto. }
  apply Hgen; [reflexivity | discriminate].
Qed.

Lemma initMicError_cases (name message : string) :
  AnalyzerApi.initMicError name message =
  if (name =? "NotAllowedError") || (name =? "PermissionDeniedError") then "PermissionDenied"
  else if (name =? "NotFoundError") || (name =? "DevicesNotFoundError") then "NotFound"
  else "InitError: " ++ message.
Proof. reflexivity. Qed.

(** X16: the status shown when [initMic] fails depends on the name of the
    error only: the permission message for NotAllowedError and
    PermissionDeniedError, the missing-microphone message for
    NotFoundError and DevicesNotFoundError, the generic one for every
    other name, whatever the error's own message says. *)
Theorem init_error_key_by_name (name message : string) :
  initErrorKey name message =
  if (name =? "NotAllowedError") || (name =? "PermissionDeniedError")
  then "errorPermissionDenied"
  else if (name =? "NotFoundError") || (name =? "DevicesNotFoundError")
  then "errorMicNotFound"
  else "errorInitGeneric".
Proof.
  unfold initErrorKey. rewrite initMicError_cases.
  destruct ((name =? "NotAllowedError") || (name =? "PermissionDeniedError"));
    [reflexivity |].
  destruct ((name =? "NotFoundError") || (name =? "DevicesNotFoundError"));
    [reflexivity |].
  reflexivity.
Qed.

End AppRuns.

(* ================================================================= *)
(** ** More on the recording lifecycle *)

Section RecordingRuns.
Import Analyzer.
Import RecordingEvents.

(** What the data events and the stop event publish depends on the
    recorder and on the buffer only, not on the timer. *)
Lemma finalization_ignores_timer (ds : list Blob) (st st' : RecordingVars) :
  mediaRecorder st' = mediaRecorder st ->
  recordedChunks st' = recordedChunks st ->
  snd (recRun st' (map DataAvailable ds ++ [Stopped])) =
  snd (recRun st (map DataAvailable ds ++ [Stopped])).
Proof.
  intros Hr Hc. rewrite !recRun_app, !recRun_data.
  cbn [recRun recStep mediaRecorder recordedChunks snd app].
  rewrite Hr, Hc. destruct (mediaRecorder st) as [r |]; [| reflexivity].
  unfold onstop. cbn [recordedChunks].
  destruct (recordedChunks st ++ keptChunks ds); reflexivity.
Qed.

(** A stop request on an inactive recorder changes neither the recorder
    nor the buffer, and calls nothing. *)
Lemma stop_request_when_inactive (st : RecordingVars) (r : MediaRecorder)
    (e : RecEvent) :
  isStopRequest e = true ->
  mediaRecorder st = Some r -> recorderState r = Inactive ->
  mediaRecorder (fst (recStep st e)) = Some r
  /\ recordedChunks (fst (recStep st e)) = recordedChunks st
  /\ snd (recStep st e) = [].
Proof.
  intros He Hr Hs. destruct e; try discriminate; cbn [recStep fst snd].
  - unfold stopRecording. rewrite Hr, Hs. cbn. auto.
  - destruct (recordingTimerId st) as [[a b] |]; cbn [fst snd]; [| auto].
    unfold stopRecording. cbn [mediaRecorder]. rewrite Hr, Hs. cbn. auto.
Qed.

Lemma stop_requests_when_inactive (extra : list RecEvent) :
  forall (st : RecordingVars) (r : MediaRecorder),
  forallb isStopRequest extra = true ->
  mediaRecorder st = Some r -> recorderState r = Inactive ->
  mediaRecorder (fst (recRun st extra)) = Some r
  /\ recordedChunks (fst (recRun st extra)) = recordedChunks st
  /\ snd (recRun st extra) = [].
Proof.
  induction extra as [| e extra IH]; intros st r Hall Hr Hs; cbn [recRun].
  - cbn. auto.
  - cbn [forallb] in Hall. apply andb_true_iff in Hall. destruct Hall as [He Hall].
    destruct (@stop_request_when_inactive st r e He Hr Hs) as (H1 & H2 & H3).
    destruct (recStep st e) as [st1 out1]. cbn [fst snd] in *.
    destruct (IH st1 r Hall H1 Hs) as (H4 & H5 & H6).
    destruct (recRun st1 extra) as [st2 out2]. cbn [fst snd] in *.
    subst. repeat split; auto. congruence.
Qed.

(** X17: further stop requests between the first one and the recorder's
    stop event (a second call of [stopRecording], with whatever callbacks,
    or the timer firing) change nothing: the recording is reported once,
    to the callbacks of the first request, with the same artifact. *)
Theorem repeated_stop_requests_change_nothing
    (mime : string) (onStart onStop onError : Callback)
    (before after : list Blob) (extra : list RecEvent) :
  forallb isStopRequest extra = true ->
  snd (recRun (recorderReady mime)
         (CallStartRecording onStart onStop onError
            :: map DataAvailable before
            ++ CallStopRecording onStop onError
            :: extra ++ map DataAvailable after ++ [Stopped]))
  = snd (recRun (recorderReady mime)
           (recordingSession onStart onStop onError before after)).
Proof.
  intro Hextra. unfold recordingSession, recorderReady.
  cbn [recRun recStep startRecording mediaRecorder recorderState mimeType
       _onRecordingStopCallback _onErrorCallback].
  rewrite !recRun_app, !recRun_data.
  cbn [recRun recStep stopRecording mediaRecorder recorderState mimeType
       recordedChunks recordingTimerId app].
  set (st := mkRecording (Some (mkRecorder Inactive mime onStop onError)) _ _).
  destruct (@stop_requests_when_inactive extra st _ Hextra eq_refl eq_refl)
    as (H1 & H2 & H3).
  rewrite recRun_app.
  pose proof (@finalization_ignores_timer after st (fst (recRun st extra)) H1 H2) as Hfin.
  destruct (recRun st extra) as [st1 out1]. cbn [fst snd] in *. subst out1.
  destruct (recRun st1 (map DataAvailable after ++ [Stopped])) as [st2 out2].
  rewrite recRun_app, recRun_data in Hfin. cbn [snd] in *.
  rewrite recRun_app, recRun_data.
  destruct (recRun _ [Stopped]) as [st3 out3]. cbn [snd app] in *.
  now rewrite Hfin.
Qed.

(** X17 with a second stop request and the timer after the first. *)
Lemma repeated_stop_requests_change_nothing_witness :
  snd (recRun (recorderReady "audio/webm")
         (CallStartRecording (Some 1) (Some 2) (Some 3)
            :: map DataAvailable [mkBlob [x01] ""]
            ++ CallStopRecording (Some 2) (Some 3)
            :: [CallStopRecording (Some 8) (Some 9); TimerFires]
            ++ map DataAvailable [] ++ [Stopped]))
  = snd (recRun (recorderReady "audio/webm")
           (recordingSession (Some 1) (Some 2) (Some 3) [mkBlob [x01] ""] [])).
Proof. apply repeated_stop_requests_change_nothing. reflexivity. Defined.

(** X18: an error of the recorder while it is recording is reported to no
    callback.  The error callback is stored on the recorder by
    [stopRecording] only, so the error handler finds none; it clears the
    timer, and the stop event that follows finds no callback either:
    after [onRecordingStart] nothing is called, and what was recorded is
    dropped. *)
Theorem error_while_recording_is_not_reported
    (mime : string) (onStart onStop onError : Callback)
    (before after : list Blob) (name message : string) :
  recRun (recorderReady mime)
    (CallStartRecording onStart onStop onError
       :: map DataAvailable before
       ++ Failed name message
       :: map DataAvailable after ++ [Stopped; TimerFires])
  = (mkRecording (Some (mkRecorder Inactive mime None None)) [] None,
     call0 onStart).
Proof.
  unfold recorderReady.
  cbn [recRun recStep startRecording mediaRecorder recorderState mimeType
       _onRecordingStopCallback _onErrorCallback].
  rewrite recRun_app, recRun_data.
  cbn [recRun recStep mediaRecorder recordedChunks recordingTimerId app
       onerror inactive clearCallbacks mimeType recorderState
       _onRecordingStopCallback _onErrorCallback callWithError].
  rewrite recRun_app, recRun_data.
  cbn [recRun recStep mediaRecorder recordedChunks recordingTimerId app
       inactive mimeType recorderState _onRecordingStopCallback _onErrorCallback].
  unfold onstop.
  cbn [recordedChunks mimeType _onRecordingStopCallback _onErrorCallback
       clearCallbacks recorderState].
  destruct (keptChunks before ++ keptChunks after);
    cbn; now rewrite ?app_nil_r.
Qed.

End RecordingRuns.

Section AudioRecordingRuns.
Import Audio.
Local Open Scope string_scope.

(** X19: in js/audio.js an error of the recorder does not end the
    report.  The error handler shows the error and hides the player, but
    keeps the chunks; the stop event that follows then builds the blob of
    every chunk collected, before and after the error, displays it and
    shows the recording as finished.  With no chunk it shows the
    recording as empty. *)
Theorem audio_error_is_followed_by_finished
    (supported : string -> bool) (mime name : string) (before after : list Blob) :
  let chunks := keptChunks (before ++ after) in
  let audioBlob := new_Blob chunks (str_or mime "audio/webm") in
  snd (recRun (mkHost supported (fun _ => inl mime)) readyToRecord
         (CallStartRecording
            :: map DataAvailable before
            ++ Failed name
            :: map DataAvailable after ++ [Stopped])) =
  ([setRecordingStatus "recStatusRecording" "info" NoParams;
    hidePlayback; showRecordingSection true; updateButtonStates true true true;
    setRecordingStatus "recStatusError" "error" (ErrorName name);
    updateButtonStates true false true; hidePlayback] ++
   match chunks with
   | [] =>
       [setRecordingStatus "recStatusEmpty" "warning" NoParams;
        updateButtonStates true false true; hidePlayback]
   | _ =>
       [displayPlayback audioBlob; showRecordingSection true;
        setRecordingStatus "recStatusFinished" "success"
          (SizeAndType (blobSize audioBlob) (str_or (blobType audioBlob) "N/A"));
        updateButtonStates true false true]
   end)%list.
Proof.
  cbv zeta. unfold readyToRecord.
  cbn [recRun recStep startRecording monitoring mediaStream mediaRecorderSupported
       isRecording negb orb construct].
  rewrite audio_recRun_app, audio_recRun_data.
  cbn -[keptChunks new_Blob str_or blobSize recRun].
  cbn [recRun recStep].
  cbn -[keptChunks new_Blob str_or blobSize recRun].
  rewrite audio_recRun_app, audio_recRun_data.
  cbn -[keptChunks new_Blob str_or blobSize].
  rewrite <- keptChunks_app.
  destruct (keptChunks (before ++ after)); reflexivity.
Qed.

End AudioRecordingRuns.

(* ================================================================= *)
(** ** Storage and theme *)

Section StorageAndTheme.
Import Storage.
Import Theme.
Local Open Scope string_scope.

Lemma storage_saved (s : LocalStorage) (key value : string)
    (defaultValue : option string) :
  writeThrows s = false -> readThrows s = false ->
  getFromLocalStorage key defaultValue (saveToLocalStorage key value s) = Some value.
Proof.
  intros Hw Hr. unfold getFromLocalStorage, saveToLocalStorage.
  rewrite Hw. cbn. now rewrite Hr, String.eqb_refl.
Qed.

(** X20: what [saveToLocalStorage] saves, [getFromLocalStorage] returns,
    and other keys are left alone; a storage that refuses writes is left
    as it was, without an error, and a storage that refuses reads, or
    holds no item for the key, gives the default. *)
Theorem storage_round_trip (s : LocalStorage) (key other value : string)
    (defaultValue : option string) :
  (writeThrows s = false -> readThrows s = false ->
   getFromLocalStorage key defaultValue (saveToLocalStorage key value s) = Some value)
  /\ (other <> key ->
      getFromLocalStorage other defaultValue (saveToLocalStorage key value s)
      = getFromLocalStorage other defaultValue s)
  /\ (writeThrows s = true -> saveToLocalStorage key value s = s)
  /\ (readThrows s = true -> getFromLocalStorage key defaultValue s = defaultValue)
  /\ (items s key = None -> getFromLocalStorage key defaultValue s = defaultValue).
Proof.
  unfold getFromLocalStorage, saveToLocalStorage. repeat split.
  - intros Hw Hr. rewrite Hw. cbn. rewrite Hr, String.eqb_refl. reflexivity.
  - intro Hne. destruct (writeThrows s); [reflexivity |]. cbn.
    destruct (readThrows s); [reflexivity |].
    apply String.eqb_neq in Hne. now rewrite Hne.
  - intros ->. reflexivity.
  - intros ->. reflexivity.
  - intros ->. now destruct (readThrows s).
Qed.

Lemma classRemove_In (c x : string) (classes : list string) :
  In x (classRemove c classes) <-> In x classes /\ x <> c.
Proof.
  unfold classRemove. rewrite filter_In, negb_true_iff, String.eqb_neq. reflexivity.
Qed.

Lemma classAdd_In (c x : string) (classes : list string) :
  In x (classAdd c classes) <-> In x classes \/ x = c.
Proof.
  unfold classAdd. destruct (existsb (String.eqb c) classes) eqn:Hex.
  - apply existsb_exists in Hex. destruct Hex as [y [Hy Heq]].
    apply String.eqb_eq in Heq. subst y.
    split; [now left | intros [H | ->]; assumption].
  - rewrite in_app_iff. cbn. intuition.
Qed.

Lemma applyTheme_valid (themeName : string) (st : ThemeState) :
  validToken (themeName ++ "-mode") = true ->
  applyTheme themeName st =
  mkTheme themeName
          (classAdd (themeName ++ "-mode")
             (classRemove "dark-mode" (classRemove "light-mode" (bodyClasses st))))
          (saveToLocalStorage LOCAL_STORAGE_THEME_KEY themeName (storage st)).
Proof. intro Hv. unfold applyTheme. now rewrite Hv. Qed.

Lemma toggled_valid (st : ThemeState) :
  validToken ((if currentTheme st =? "light" then "dark" else "light") ++ "-mode") = true.
Proof. now destruct (currentTheme st =? "light"). Qed.

Lemma toggled_theme (st : ThemeState) :
  currentTheme (toggleTheme st) =
  if currentTheme st =? "light" then "dark" else "light".
Proof.
  unfold toggleTheme. now rewrite (@applyTheme_valid _ st (toggled_valid st)).
Qed.

Lemma toggled_storage (st : ThemeState) :
  storage (toggleTheme st) =
  saveToLocalStorage LOCAL_STORAGE_THEME_KEY (currentTheme (toggleTheme st)) (storage st).
Proof.
  rewrite toggled_theme.
  unfold toggleTheme. now rewrite (@applyTheme_valid _ st (toggled_valid st)).
Qed.

Lemma applyTheme_classes (themeName x : string) (st : ThemeState) :
  validToken (themeName ++ "-mode") = true ->
  (In x (bodyClasses (applyTheme themeName st)) <->
   (In x (bodyClasses st) /\ x <> "light-mode" /\ x <> "dark-mode")
   \/ x = themeName ++ "-mode").
Proof.
  intro Hv. rewrite (@applyTheme_valid _ st Hv). cbn [bodyClasses].
  rewrite classAdd_In, !classRemove_In. tauto.
Qed.

(** X21: after [toggleTheme] the theme is 'light' or 'dark', the body
    carries the class of that theme and not the class of the other, and
    every class that is not a theme class is kept; from a theme that is
    'light' or 'dark', two toggles lead back to it. *)
Theorem toggle_switches_between_two_themes (st : ThemeState) (c : string) :
  let st' := toggleTheme st in
  let other := if currentTheme st' =? "light" then "dark-mode" else "light-mode" in
  (currentTheme st' = "light" \/ currentTheme st' = "dark")
  /\ In (currentTheme st' ++ "-mode") (bodyClasses st')
  /\ ~ In other (bodyClasses st')
  /\ (c <> "light-mode" -> c <> "dark-mode" ->
      (In c (bodyClasses st') <-> In c (bodyClasses st)))
  /\ (currentTheme st = "light" \/ currentTheme st = "dark" ->
      currentTheme (toggleTheme st') = currentTheme st).
Proof.
  cbv zeta. rewrite !toggled_theme. unfold toggleTheme at 1 2 3.
  destruct (currentTheme st =? "light") eqn:Hl.
  - apply String.eqb_eq in Hl.
    cbn [String.eqb Ascii.eqb Bool.eqb].
    rewrite !(@applyTheme_classes "dark" _ st eq_refl). cbn [append].
    split; [now right |]. split; [now right |].
    split; [intros [[_ [H _]] | H]; [now apply H | discriminate] |].
    split; [intros H1 H2; split; [intros [[H _] | H]; [exact H | contradiction] | tauto] |].
    intros _. now rewrite Hl.
  - rewrite !(@applyTheme_classes "light" _ st eq_refl).
    cbn [append String.eqb Ascii.eqb Bool.eqb].
    split; [now left |]. split; [now right |].
    split; [intros [[_ [_ H]] | H]; [now apply H | discriminate] |].
    split; [intros H1 H2; split; [intros [[H _] | H]; [exact H | contradiction] | tauto] |].
    intros [H | H]; [rewrite H in Hl; discriminate | now rewrite H].
Qed.

(** X22: the theme survives a reload.  When the storage accepts writes
    and reads, a page load after [toggleTheme] starts with the theme the
    toggle chose, and the body carries its class, whatever classes the
    markup gives the body and whatever theme was stored before. *)
Theorem theme_survives_reload (st : ThemeState) (markupClasses : list string) :
  writeThrows (storage st) = false ->
  readThrows (storage st) = false ->
  let reloaded := pageLoad markupClasses (storage (toggleTheme st)) in
  currentTheme reloaded = currentTheme (toggleTheme st)
  /\ In (currentTheme (toggleTheme st) ++ "-mode") (bodyClasses reloaded).
Proof.
  intros Hw Hr. cbv zeta. unfold pageLoad, initTheme.
  assert (Hget : getFromLocalStorage LOCAL_STORAGE_THEME_KEY (Some DEFAULT_THEME)
                   (storage (toggleTheme st)) = Some (currentTheme (toggleTheme st))).
  { rewrite toggled_storage. now apply storage_saved. }
  cbn [storage]. rewrite Hget.
  assert (Hv : validToken (currentTheme (toggleTheme st) ++ "-mode") = true)
    by (rewrite toggled_theme; apply toggled_valid).
  split.
  - now rewrite (@applyTheme_valid _ _ Hv).
  - apply applyTheme_classes; [exact Hv | now right].
Qed.

(** X22 on a first visit with a working storage. *)
Lemma theme_survives_reload_witness :
  currentTheme
    (pageLoad ["dark-mode"]
       (storage (toggleTheme
                   (pageLoad ["dark-mode"] (mkStorage (fun _ => None) false false)))))
  = "light".
Proof.
  destruct (@theme_survives_reload
              (pageLoad ["dark-mode"] (mkStorage (fun _ => None) false false))
              ["dark-mode"] eq_refl eq_refl) as [H _].
  rewrite H. reflexivity.
Defined.

End StorageAndTheme.
